(** * go-librariesio: the request/response engine of the libraries.io client

    A shallow embedding of [librariesio/librariesio.go] (package
    [librariesio]): [NewClient], [NewRequest], [redactAPIKey],
    [ErrorResponse.Error], [CheckResponse] and [Do], together with the parts
    of Go's standard library they call ([net/url], [net/http],
    [encoding/json], [strconv], [fmt], [io], [time]).

    Go strings are byte sequences: they are modelled as [string] (a sequence
    of 8-bit [ascii]).  Go's [int] and [time.Duration] are 64-bit and are
    modelled as [Z] with the wrap-around written out.  Pointers to objects
    the code mutates ([*url.URL], response bodies) are locations in an
    explicit store. *)

From Stdlib Require Import ZArith NArith Ascii String Lia.
From stdpp Require Import gmap strings list sorting.

Local Open Scope Z_scope.

(** ** Bytes and strings *)

Module Bytes.

Definition code (c : ascii) : Z := Z.of_N (N_of_ascii c).
Definition chr (z : Z) : ascii := ascii_of_N (Z.to_N (z mod 256)).

(** ['lo' <= c && c <= 'hi'] *)
Definition between (lo hi c : ascii) : bool :=
  (code lo <=? code c) && (code c <=? code hi).

Definition is_digit (c : ascii) : bool := between "0" "9" c.
Definition is_lower (c : ascii) : bool := between "a" "z" c.
Definition is_upper (c : ascii) : bool := between "A" "Z" c.
Definition is_alnum (c : ascii) : bool := is_lower c || is_upper c || is_digit c.

(** [c] is one of the bytes of [set] (a Go [switch c { case ... }]). *)
Fixpoint one_of (set : string) (c : ascii) : bool :=
  match set with
  | EmptyString => false
  | String x set' => Ascii.eqb c x || one_of set' c
  end.

Definition to_lower (c : ascii) : ascii :=
  if is_upper c then chr (code c + 32) else c.
Definition to_upper (c : ascii) : ascii :=
  if is_lower c then chr (code c - 32) else c.

Fixpoint map (f : ascii → ascii) (s : string) : string :=
  match s with
  | EmptyString => EmptyString
  | String c s' => String (f c) (map f s')
  end.

Fixpoint all (p : ascii → bool) (s : string) : bool :=
  match s with
  | EmptyString => true
  | String c s' => p c && all p s'
  end.

Definition contains (c : ascii) (s : string) : bool := negb (all (λ x, negb (Ascii.eqb x c)) s).

(** The double-quote byte, 0x22. *)
Definition dquote : ascii := "034"%char.

Definition is_empty (s : string) : bool :=
  match s with EmptyString => true | _ => false end.

(** [strings.Cut(s, sep)] for a one-byte separator. *)
Fixpoint Cut (sep : ascii) (s : string) : string * string * bool :=
  match s with
  | EmptyString => (EmptyString, EmptyString, false)
  | String c s' =>
      if Ascii.eqb c sep then (EmptyString, s', true)
      else let '(before, after, found) := Cut sep s' in (String c before, after, found)
  end.

(** [strings.Split(s, sep)] for a one-byte separator: never empty. *)
Fixpoint Split (sep : ascii) (s : string) : list string :=
  match s with
  | EmptyString => [EmptyString]
  | String c s' =>
      if Ascii.eqb c sep then EmptyString :: Split sep s'
      else match Split sep s' with
           | x :: xs => String c x :: xs
           | [] => [String c EmptyString]
           end
  end.

End Bytes.

(** ** net/url: escaping *)

Module url.

Import Bytes.

Inductive encoding :=
| encodePath | encodePathSegment | encodeHost | encodeZone
| encodeUserPassword | encodeQueryComponent | encodeFragment.

Definition encoding_eqb (a b : encoding) : bool :=
  match a, b with
  | encodePath, encodePath | encodePathSegment, encodePathSegment
  | encodeHost, encodeHost | encodeZone, encodeZone
  | encodeUserPassword, encodeUserPassword
  | encodeQueryComponent, encodeQueryComponent
  | encodeFragment, encodeFragment => true
  | _, _ => false
  end.

Definition ishex (c : ascii) : bool :=
  between "0" "9" c || between "a" "f" c || between "A" "F" c.

Definition unhex (c : ascii) : Z :=
  if between "0" "9" c then code c - code "0"
  else if between "a" "f" c then code c - code "a" + 10
  else if between "A" "F" c then code c - code "A" + 10
  else 0.

(** ["0123456789ABCDEF"[n]] *)
Definition upperhex (n : Z) : ascii :=
  if n <? 10 then chr (code "0" + n) else chr (code "A" + (n - 10)).

(** [shouldEscape(c, mode)]: whether [c] must be percent-encoded when it
    appears in the given part of a URL. *)
Definition shouldEscape (c : ascii) (mode : encoding) : bool :=
  if is_alnum c then false
  else if (encoding_eqb mode encodeHost || encoding_eqb mode encodeZone)
          && (one_of "!$&'()*+,;=:[]<>" c || Ascii.eqb c dquote) then false
  else if one_of "-_.~" c then false
  else if one_of "$&+,/:;=?@" c then
    match mode with
    | encodePath => Ascii.eqb c "?"
    | encodePathSegment => one_of "/;,?" c
    | encodeUserPassword => one_of "@/?:" c
    | encodeQueryComponent => true
    | encodeFragment => false
    | encodeHost | encodeZone => true
    end
  else if encoding_eqb mode encodeFragment && one_of "!()*" c then false
  else true.

(** [escape(s, mode)] *)
Fixpoint escape (mode : encoding) (s : string) : string :=
  match s with
  | EmptyString => EmptyString
  | String c s' =>
      if shouldEscape c mode then
        if Ascii.eqb c " " && encoding_eqb mode encodeQueryComponent
        then String "+" (escape mode s')
        else String "%" (String (upperhex (code c / 16))
               (String (upperhex (code c mod 16)) (escape mode s')))
      else String c (escape mode s')
  end.

(** [unescape(s, mode)]; [None] is Go's [EscapeError] or
    [InvalidHostError].  Go validates in a first pass and decodes in a
    second; one pass that fails at the first offending byte returns the
    same string or fails on the same inputs. *)
Fixpoint unescape (mode : encoding) (s : string) : option string :=
  match s with
  | EmptyString => Some EmptyString
  | String c s' =>
      if Ascii.eqb c "%" then
        match s' with
        | String a (String b s'') =>
            if negb (ishex a && ishex b) then None
            else if encoding_eqb mode encodeHost && (unhex a <? 8)
                    && negb (Ascii.eqb a "2" && Ascii.eqb b "5") then None
            else if encoding_eqb mode encodeZone
                    && negb (Ascii.eqb a "2" && Ascii.eqb b "5")
                    && negb (Ascii.eqb (chr (unhex a * 16 + unhex b)) " ")
                    && shouldEscape (chr (unhex a * 16 + unhex b)) encodeHost then None
            else String (chr (unhex a * 16 + unhex b)) <$> unescape mode s''
        | _ => None
        end
      else if Ascii.eqb c "+" then
        String (if encoding_eqb mode encodeQueryComponent then " "%char else "+"%char)
          <$> unescape mode s'
      else if (encoding_eqb mode encodeHost || encoding_eqb mode encodeZone)
              && (code c <? 128) && shouldEscape c encodeHost then None
      else String c <$> unescape mode s'
  end.

Definition QueryEscape (s : string) : string := escape encodeQueryComponent s.
Definition QueryUnescape (s : string) : option string := unescape encodeQueryComponent s.

(** [validEncoded(s, mode)] *)
Definition validEncoded (mode : encoding) (s : string) : bool :=
  all (λ c, one_of "!$&'()*+,;=:@[]%" c || negb (shouldEscape c mode)) s.

End url.

(** ** net/url: query values *)

(** [url.Values] is [map[string][]string]. *)
Abbreviation Values := (gmap string (list string)).

Module Values.

Import Bytes url.

(** [v[key]], the nil slice when the key is absent *)
Definition index (v : Values) (key : string) : list string := default [] (v !! key).

(** [func (v Values) Get(key string) string] *)
Definition Get (v : Values) (key : string) : string :=
  match index v key with
  | [] => EmptyString
  | x :: _ => x
  end.

(** [func (v Values) Set(key, value string)]: [v[key] = []string{value}] *)
Definition Set' (v : Values) (key value : string) : Values := <[key := [value]]> v.

(** [func (v Values) Has(key string) bool] *)
Definition Has (v : Values) (key : string) : bool := bool_decide (is_Some (v !! key)).

(** [m[key] = append(m[key], value)] *)
Definition add_value (key : string) (m : Values) (value : string) : Values :=
  <[key := index m key ++ [value]]> m.

(** One round of the loop of [parseQuery]: [key] is the text before the
    next ['&'].  A segment with a semicolon, an empty segment and a segment
    whose key or value does not unescape are skipped (the error they set is
    dropped by [URL.Query]). *)
Definition parse_segment (m : Values) (key : string) : Values :=
  if contains ";" key then m
  else if is_empty key then m
  else
    let '(key, value, _) := Cut "=" key in
    match QueryUnescape key with
    | None => m
    | Some key =>
        match QueryUnescape value with
        | None => m
        | Some value => add_value key m value
        end
    end.

(** [ParseQuery(query)], without the error: the loop
    [for len(query) > 0 { key, query, _ = strings.Cut(query, "&"); ... }]
    visits the ['&']-separated segments from left to right. *)
Definition ParseQuery (query : string) : Values :=
  foldl parse_segment ∅ (Split "&" query).

(** [slices.Sort(keys)] over the keys of the map *)
Definition sorted_keys (v : Values) : list string :=
  merge_sort String.le (fst <$> map_to_list v).

(** The body of the inner loop of [Encode]. *)
Definition write_pair (keyEscaped : string) (buf value : string) : string :=
  (if is_empty buf then buf else buf +:+ "&") +:+ keyEscaped +:+ "=" +:+ QueryEscape value.

(** [func (v Values) Encode() string]: "URL encoded" form, sorted by key *)
Definition Encode (v : Values) : string :=
  foldl (λ buf k, foldl (write_pair (QueryEscape k)) buf (index v k)) EmptyString (sorted_keys v).

(** The segment [Encode] writes for one value of one key. *)
Definition segment (k x : string) : string :=
  QueryEscape k +:+ "=" +:+ QueryEscape x.

(** Every key present holds at least one value: so it is for the maps
    that [ParseQuery] builds, and [Set] keeps it so. *)
Definition populated (v : Values) : Prop := ∀ k, v !! k ≠ Some [].

End Values.


(** ** net/url: the URL type *)

Module URL.

Import Bytes url.

(** [url.Userinfo] *)
Record Userinfo := mkUserinfo {
  username : string;
  password : string;
  passwordSet : bool
}.

(** [url.URL]; [User] is a pointer and may be nil. *)
Record t := mk {
  Scheme : string;
  Opaque : string;
  User : option Userinfo;
  Host : string;
  Path : string;
  RawPath : string;
  OmitHost : bool;
  ForceQuery : bool;
  RawQuery : string;
  Fragment : string;
  RawFragment : string
}.

(** The assignment [u.RawQuery = q]. *)
Definition set_RawQuery (q : string) (u : t) : t :=
  mk (Scheme u) (Opaque u) (User u) (Host u) (Path u) (RawPath u)
     (OmitHost u) (ForceQuery u) q (Fragment u) (RawFragment u).

(** The assignment [u.Host = h]. *)
Definition set_Host (h : string) (u : t) : t :=
  mk (Scheme u) (Opaque u) (User u) h (Path u) (RawPath u)
     (OmitHost u) (ForceQuery u) (RawQuery u) (Fragment u) (RawFragment u).

(** [func (u *URL) Query() Values]: parses [RawQuery], silently
    discarding malformed pairs. *)
Definition Query (u : t) : Values := Values.ParseQuery (RawQuery u).

(** [func (u *Userinfo) String() string] *)
Definition Userinfo_String (ui : Userinfo) : string :=
  let s := escape encodeUserPassword (username ui) in
  if passwordSet ui then s +:+ ":" +:+ escape encodeUserPassword (password ui) else s.

Definition unescapes_to (mode : encoding) (raw decoded : string) : bool :=
  match unescape mode raw with
  | Some p => String.eqb p decoded
  | None => false
  end.

(** [func (u *URL) EscapedPath() string] *)
Definition EscapedPath (u : t) : string :=
  if negb (is_empty (RawPath u)) && validEncoded encodePath (RawPath u)
     && unescapes_to encodePath (RawPath u) (Path u)
  then RawPath u
  else if String.eqb (Path u) "*" then "*"
  else escape encodePath (Path u).

(** [func (u *URL) EscapedFragment() string] *)
Definition EscapedFragment (u : t) : string :=
  if negb (is_empty (RawFragment u)) && validEncoded encodeFragment (RawFragment u)
     && unescapes_to encodeFragment (RawFragment u) (Fragment u)
  then RawFragment u
  else escape encodeFragment (Fragment u).

Definition starts_with (c : ascii) (s : string) : bool :=
  match s with String x _ => Ascii.eqb x c | EmptyString => false end.

(** [func (u *URL) String() string], written with the same sequence of
    writes to the string builder [buf]. *)
Definition String' (u : t) : string :=
  let buf := EmptyString in
  let buf := if negb (is_empty (Scheme u)) then buf +:+ Scheme u +:+ ":" else buf in
  let buf :=
    if negb (is_empty (Opaque u)) then buf +:+ Opaque u
    else
      let buf :=
        if negb (is_empty (Scheme u)) || negb (is_empty (Host u)) || bool_decide (is_Some (User u)) then
          if OmitHost u && is_empty (Host u) && bool_decide (User u = None) then buf
          else
            let buf :=
              if negb (is_empty (Host u)) || negb (is_empty (Path u)) || bool_decide (is_Some (User u))
              then buf +:+ "//" else buf in
            let buf :=
              match User u with
              | Some ui => buf +:+ Userinfo_String ui +:+ "@"
              | None => buf
              end in
            if negb (is_empty (Host u)) then buf +:+ escape encodeHost (Host u) else buf
        else buf in
      let path := EscapedPath u in
      let buf :=
        if negb (is_empty path) && negb (starts_with "/" path) && negb (is_empty (Host u))
        then buf +:+ "/" else buf in
      let buf :=
        if is_empty buf then
          let '(segment, _, _) := Cut "/" path in
          if contains ":" segment then buf +:+ "./" else buf
        else buf in
      buf +:+ path in
  let buf :=
    if ForceQuery u || negb (is_empty (RawQuery u)) then buf +:+ "?" +:+ RawQuery u else buf in
  if negb (is_empty (Fragment u)) then buf +:+ "#" +:+ EscapedFragment u else buf.

End URL.

(** ** unicode/utf8 and unicode/utf16 *)

Module utf8.

Import Bytes.

(** [utf8.RuneError], U+FFFD *)
Definition RuneError : Z := 65533.

Definition continuation (lo hi : Z) (c : ascii) : bool :=
  (lo <=? code c) && (code c <=? hi).

(** [utf8.DecodeRuneInString]: the first rune of [s] and its width; an
    invalid or truncated encoding gives [(RuneError, 1)]. *)
Definition DecodeRune (s : string) : Z * nat :=
  match s with
  | EmptyString => (RuneError, 0%nat)
  | String s0 rest =>
      let b0 := code s0 in
      if b0 <? 128 then (b0, 1%nat)
      else if (b0 <? 194) || (244 <? b0) then (RuneError, 1%nat)
      else
        (* the second byte is accepted in [lo, hi] *)
        let lo := if b0 =? 224 then 160 else if b0 =? 240 then 144 else 128 in
        let hi := if b0 =? 237 then 159 else if b0 =? 244 then 143 else 191 in
        if b0 <? 224 then
          match rest with
          | String s1 _ =>
              if continuation lo hi s1
              then (Z.lor (Z.shiftl (Z.land b0 31) 6) (Z.land (code s1) 63), 2%nat)
              else (RuneError, 1%nat)
          | _ => (RuneError, 1%nat)
          end
        else if b0 <? 240 then
          match rest with
          | String s1 (String s2 _) =>
              if continuation lo hi s1 && continuation 128 191 s2
              then (Z.lor (Z.shiftl (Z.land b0 15) 12)
                      (Z.lor (Z.shiftl (Z.land (code s1) 63) 6) (Z.land (code s2) 63)), 3%nat)
              else (RuneError, 1%nat)
          | _ => (RuneError, 1%nat)
          end
        else
          match rest with
          | String s1 (String s2 (String s3 _)) =>
              if continuation lo hi s1 && continuation 128 191 s2 && continuation 128 191 s3
              then (Z.lor (Z.shiftl (Z.land b0 7) 18)
                      (Z.lor (Z.shiftl (Z.land (code s1) 63) 12)
                         (Z.lor (Z.shiftl (Z.land (code s2) 63) 6) (Z.land (code s3) 63))), 4%nat)
              else (RuneError, 1%nat)
          | _ => (RuneError, 1%nat)
          end
  end.

(** The continuation byte [tx | byte(r >> k) & maskx] *)
Definition cont (r k : Z) : ascii := chr (Z.lor 128 (Z.land (Z.shiftr r k) 63)).

(** [utf8.AppendRune]: the UTF-8 encoding of [r]; a surrogate or a value
    out of range is written as U+FFFD. *)
Definition EncodeRune (r : Z) : string :=
  if (0 <=? r) && (r <=? 127) then String (chr r) EmptyString
  else if (0 <=? r) && (r <=? 2047) then
    String (chr (Z.lor 192 (Z.shiftr r 6))) (String (cont r 0) EmptyString)
  else if ((2047 <? r) && (r <? 55296)) || ((57343 <? r) && (r <=? 65535)) then
    String (chr (Z.lor 224 (Z.shiftr r 12))) (String (cont r 6) (String (cont r 0) EmptyString))
  else if (65535 <? r) && (r <=? 1114111) then
    String (chr (Z.lor 240 (Z.shiftr r 18)))
      (String (cont r 12) (String (cont r 6) (String (cont r 0) EmptyString)))
  else String (chr 239) (String (chr 191) (String (chr 189) EmptyString)).

(** [utf16.IsSurrogate] *)
Definition IsSurrogate (r : Z) : bool := (55296 <=? r) && (r <? 57344).

(** [utf16.DecodeRune] *)
Definition DecodeSurrogates (r1 r2 : Z) : Z :=
  if (55296 <=? r1) && (r1 <? 56320) && (56320 <=? r2) && (r2 <? 57344)
  then Z.lor (Z.shiftl (r1 - 55296) 10) (r2 - 56320) + 65536
  else RuneError.

Fixpoint drop (n : nat) (s : string) : string :=
  match n, s with
  | S n', String _ s' => drop n' s'
  | _, _ => s
  end.

End utf8.

(** ** strconv *)

Module strconv.

Import Bytes.

Inductive NumErr := ErrSyntax | ErrRange.

(** An [int] is 64 bits wide. *)
Definition minInt : Z := - 2 ^ 63.
Definition maxInt : Z := 2 ^ 63 - 1.
Definition maxUint64 : Z := 2 ^ 64 - 1.

(** Two's complement wrap-around of 64-bit signed arithmetic. *)
Definition wrap64 (z : Z) : Z := (z + 2 ^ 63) mod 2 ^ 64 - 2 ^ 63.

(** The digit loop of [ParseUint(s, 10, 64)]: a byte that is no digit is a
    syntax error, a value beyond 64 bits a range error, whichever comes
    first from the left. *)
Fixpoint digits (acc : Z) (s : string) : Z + NumErr :=
  match s with
  | EmptyString => inl acc
  | String c s' =>
      if is_digit c then
        let acc' := acc * 10 + (code c - code "0") in
        if maxUint64 <? acc' then inr ErrRange else digits acc' s'
      else inr ErrSyntax
  end.

(** [strconv.Atoi]: an optional sign and decimal digits, within [int]. *)
Definition Atoi (s : string) : Z + NumErr :=
  let '(neg, body) :=
    match s with
    | String c s' =>
        if Ascii.eqb c "-" then (true, s')
        else if Ascii.eqb c "+" then (false, s')
        else (false, s)
    | EmptyString => (false, s)
    end in
  if is_empty body then inr ErrSyntax
  else
    match digits 0 body with
    | inr e => inr e
    | inl un =>
        if negb neg && (maxInt <? un) then inr ErrRange
        else if neg && (maxInt + 1 <? un) then inr ErrRange
        else inl (if neg then - un else un)
    end.

Definition digit_of (n : Z) : ascii := chr (code "0" + n).

(** The decimal digits of a positive number, most significant first. *)
Fixpoint decimal (fuel : nat) (n : Z) (acc : string) : string :=
  match fuel with
  | O => acc
  | S fuel' =>
      let acc' := String (digit_of (n mod 10)) acc in
      if n / 10 =? 0 then acc' else decimal fuel' (n / 10) acc'
  end.

(** [strconv.Itoa], which is what the verb [%d] prints for an [int] *)
Definition Itoa (n : Z) : string :=
  if n <? 0 then String "-" (decimal 20 (- n) EmptyString)
  else decimal 20 n EmptyString.

(** ["0123456789abcdef"[n]] *)
Definition lowerhex (n : Z) : ascii :=
  if n <? 10 then chr (code "0" + n) else chr (code "a" + (n - 10)).

Fixpoint hex_digits (k : nat) (r : Z) : string :=
  match k with
  | O => EmptyString
  | S k' => String (lowerhex (Z.land (Z.shiftr r (4 * Z.of_nat k')) 15)) (hex_digits k' r)
  end.

Section Quote.

(** [strconv.IsPrint] on the runes from U+0080 on is given by tables of
    the Unicode standard, which are not reproduced here. *)
Variable IsPrint_table : Z → bool.

(** [strconv.IsPrint] *)
Definition IsPrint (r : Z) : bool :=
  if r <? 128 then (32 <=? r) && (r <? 127) else IsPrint_table r.

(** [appendEscapedRune] for the double quote, neither ASCII-only nor
    graphic-only *)
Definition escaped_rune (r : Z) : string :=
  if (r =? code dquote) || (r =? code "\") then String "\" (String (chr r) EmptyString)
  else if IsPrint r then utf8.EncodeRune r
  else if r =? 7 then "\a"
  else if r =? 8 then "\b"
  else if r =? 12 then "\f"
  else if r =? 10 then "\n"
  else if r =? 13 then "\r"
  else if r =? 9 then "\t"
  else if r =? 11 then "\v"
  else if (r <? 32) || (r =? 127) then
    String "\" (String "x" (hex_digits 2 r))
  else if (r <? 0) || (1114111 <? r) || utf8.IsSurrogate r then
    String "\" (String "u" (hex_digits 4 utf8.RuneError))
  else if r <? 65536 then String "\" (String "u" (hex_digits 4 r))
  else String "\" (String "U" (hex_digits 8 r)).

(** The loop of [appendQuotedWith]; every round consumes at least one
    byte, so [String.length s] rounds are enough. *)
Fixpoint quote_loop (fuel : nat) (s : string) : string :=
  match fuel, s with
  | S fuel', String c _ =>
      let '(r, width) :=
        if code c <? 128 then (code c, 1%nat) else utf8.DecodeRune s in
      if (width =? 1)%nat && (r =? utf8.RuneError) then
        String "\" (String "x" (hex_digits 2 (code c))) +:+ quote_loop fuel' (utf8.drop 1 s)
      else escaped_rune r +:+ quote_loop fuel' (utf8.drop width s)
  | _, _ => EmptyString
  end.

(** [strconv.Quote], which is what the verb [%q] prints for a string *)
Definition Quote (s : string) : string :=
  String dquote (quote_loop (String.length s) s +:+ String dquote EmptyString).

End Quote.

End strconv.

(** ** encoding/json: reading *)

Module json.

Import Bytes.

(** A JSON text as the decoder sees it: numbers keep their literal, the
    members of an object keep their order and their duplicates. *)
#[warnings="-register-all"]
Inductive value :=
| Null
| Bool (b : bool)
| Number (literal : string)
| Str (s : string)
| Array (elements : list value)
| Object (members : list (string * value)).

(** [isSpace] *)
Definition isSpace (c : ascii) : bool :=
  Ascii.eqb c " " || Ascii.eqb c "009" || Ascii.eqb c "013" || Ascii.eqb c "010".

Fixpoint skip_space (s : string) : string :=
  match s with
  | String c s' => if isSpace c then skip_space s' else s
  | EmptyString => s
  end.

Definition is_hex (c : ascii) : bool :=
  is_digit c || between "a" "f" c || between "A" "F" c.

Definition hex_value (c : ascii) : Z :=
  if is_digit c then code c - code "0"
  else if between "a" "f" c then code c - code "a" + 10
  else code c - code "A" + 10.

Definition push (c : ascii) (r : option (string * string)) : option (string * string) :=
  match r with
  | Some (lit, rest) => Some (String c lit, rest)
  | None => None
  end.

(** The scanner inside a string literal, after the opening quote: the
    literal's text up to the closing quote, and what follows it. *)
Fixpoint scan_string (s : string) : option (string * string) :=
  match s with
  | EmptyString => None
  | String c rest =>
      if Ascii.eqb c dquote then Some (EmptyString, rest)
      else if Ascii.eqb c "\" then
        match rest with
        | String e rest' =>
            if one_of "bfnrt\/" e || Ascii.eqb e dquote then push c (push e (scan_string rest'))
            else if Ascii.eqb e "u" then
              match rest' with
              | String h1 (String h2 (String h3 (String h4 rest''))) =>
                  if is_hex h1 && is_hex h2 && is_hex h3 && is_hex h4
                  then push c (push e (push h1 (push h2 (push h3 (push h4 (scan_string rest''))))))
                  else None
              | _ => None
              end
            else None
        | EmptyString => None
        end
      else if code c <? 32 then None
      else push c (scan_string rest)
  end.

(** [getu4]: the rune of a [\uXXXX] escape at the head of [s] *)
Definition getu4 (s : string) : option (Z * string) :=
  match s with
  | String b (String u (String h1 (String h2 (String h3 (String h4 rest))))) =>
      if Ascii.eqb b "\" && Ascii.eqb u "u" && is_hex h1 && is_hex h2 && is_hex h3 && is_hex h4
      then Some (hex_value h1 * 4096 + hex_value h2 * 256 + hex_value h3 * 16 + hex_value h4, rest)
      else None
  | _ => None
  end.

Definition simple_escape (e : ascii) : ascii :=
  if Ascii.eqb e "b" then "008"%char
  else if Ascii.eqb e "f" then "012"%char
  else if Ascii.eqb e "n" then "010"%char
  else if Ascii.eqb e "r" then "013"%char
  else if Ascii.eqb e "t" then "009"%char
  else e.

(** [unquote]: the Go string a scanned literal stands for.  Escapes are
    resolved, a lone surrogate and every byte that is not valid UTF-8
    become U+FFFD.  Every round consumes at least one byte. *)
Fixpoint unquote_loop (fuel : nat) (s : string) : string :=
  match fuel, s with
  | S fuel', String c rest =>
      if Ascii.eqb c "\" then
        match rest with
        | String e rest' =>
            if Ascii.eqb e "u" then
              match getu4 s with
              | Some (rr, after) =>
                  if utf8.IsSurrogate rr then
                    match getu4 after with
                    | Some (rr1, after1) =>
                        let dec := utf8.DecodeSurrogates rr rr1 in
                        if dec =? utf8.RuneError
                        then utf8.EncodeRune utf8.RuneError +:+ unquote_loop fuel' after
                        else utf8.EncodeRune dec +:+ unquote_loop fuel' after1
                    | None => utf8.EncodeRune utf8.RuneError +:+ unquote_loop fuel' after
                    end
                  else utf8.EncodeRune rr +:+ unquote_loop fuel' after
              | None => EmptyString
              end
            else String (simple_escape e) (unquote_loop fuel' rest')
        | EmptyString => EmptyString
        end
      else if code c <? 128 then String c (unquote_loop fuel' rest)
      else
        let '(r, size) := utf8.DecodeRune s in
        utf8.EncodeRune r +:+ unquote_loop fuel' (utf8.drop size s)
  | _, _ => EmptyString
  end.

Definition unquote (lit : string) : string := unquote_loop (String.length lit) lit.

(** The longest prefix of digits. *)
Fixpoint span_digits (s : string) : string * string :=
  match s with
  | String c s' =>
      if is_digit c then let '(ds, rest) := span_digits s' in (String c ds, rest)
      else (EmptyString, s)
  | EmptyString => (EmptyString, EmptyString)
  end.

(** The optional fraction of a number: a point and one digit or more. *)
Definition scan_fraction (s : string) : option (string * string) :=
  match s with
  | String c s' =>
      if Ascii.eqb c "." then
        let '(ds, r) := span_digits s' in
        if is_empty ds then None else Some (String c ds, r)
      else Some (EmptyString, s)
  | EmptyString => Some (EmptyString, s)
  end.

(** The optional exponent of a number: e or E, an optional sign, one digit
    or more. *)
Definition scan_exponent (s : string) : option (string * string) :=
  match s with
  | String c s' =>
      if Ascii.eqb c "e" || Ascii.eqb c "E" then
        let '(sg, s'') :=
          match s' with
          | String x s'' =>
              if Ascii.eqb x "+" || Ascii.eqb x "-"
              then (String x EmptyString, s'') else (EmptyString, s')
          | EmptyString => (EmptyString, s')
          end in
        let '(ds, r) := span_digits s'' in
        if is_empty ds then None else Some (String c (sg +:+ ds), r)
      else Some (EmptyString, s)
  | EmptyString => Some (EmptyString, s)
  end.

(** The digits of a number after its sign: a zero, or a digit from 1 to 9
    and more digits; then the optional fraction and the optional
    exponent. *)
Definition scan_unsigned (sign s : string) : option (string * string) :=
  match s with
  | String d s1 =>
      if is_digit d then
        let '(int_part, s2) :=
          if Ascii.eqb d "0" then ("0", s1)
          else let '(ds, r) := span_digits s1 in (String d ds, r) in
        match scan_fraction s2 with
        | None => None
        | Some (frac_part, s3) =>
            match scan_exponent s3 with
            | None => None
            | Some (exp_part, rest) =>
                Some (sign +:+ int_part +:+ frac_part +:+ exp_part, rest)
            end
        end
      else None
  | EmptyString => None
  end.

(** The scanner on a number, with its optional minus sign: the literal and
    what follows it. *)
Definition scan_number (s : string) : option (string * string) :=
  match s with
  | String c s' => if Ascii.eqb c "-" then scan_unsigned "-" s' else scan_unsigned EmptyString s
  | EmptyString => None
  end.

(** [s] with the prefix [p] removed *)
Fixpoint strip_prefix (p s : string) : option string :=
  match p, s with
  | EmptyString, _ => Some s
  | String a p', String b s' => if Ascii.eqb a b then strip_prefix p' s' else None
  | _, _ => None
  end.

(** Arrays and objects nest at most this deep. *)
Definition maxNestingDepth : Z := 10000.

(** The grammar of JSON (RFC 8259), by recursive descent.  [fuel] bounds
    the number of nested calls, [depth] counts the open arrays and
    objects. *)
Fixpoint parse_value (fuel : nat) (depth : Z) (s : string) : option (value * string) :=
  match fuel with
  | O => None
  | S fuel' =>
      match skip_space s with
      | String c rest =>
          if Ascii.eqb c "{" then
            if maxNestingDepth <? depth + 1 then None
            else
              match skip_space rest with
              | String c' rest' =>
                  if Ascii.eqb c' "}" then Some (Object [], rest')
                  else
                    match parse_members fuel' (depth + 1) rest with
                    | Some (ms, r) => Some (Object ms, r)
                    | None => None
                    end
              | EmptyString => None
              end
          else if Ascii.eqb c "[" then
            if maxNestingDepth <? depth + 1 then None
            else
              match skip_space rest with
              | String c' rest' =>
                  if Ascii.eqb c' "]" then Some (Array [], rest')
                  else
                    match parse_elements fuel' (depth + 1) rest with
                    | Some (vs, r) => Some (Array vs, r)
                    | None => None
                    end
              | EmptyString => None
              end
          else if Ascii.eqb c dquote then
            match scan_string rest with
            | Some (lit, r) => Some (Str (unquote lit), r)
            | None => None
            end
          else if Ascii.eqb c "-" || is_digit c then
            match scan_number (String c rest) with
            | Some (lit, r) => Some (Number lit, r)
            | None => None
            end
          else
            match strip_prefix "true" (String c rest) with
            | Some r => Some (Bool true, r)
            | None =>
                match strip_prefix "false" (String c rest) with
                | Some r => Some (Bool false, r)
                | None =>
                    match strip_prefix "null" (String c rest) with
                    | Some r => Some (Null, r)
                    | None => None
                    end
                end
            end
      | EmptyString => None
      end
  end
with parse_elements (fuel : nat) (depth : Z) (s : string) : option (list value * string) :=
  match fuel with
  | O => None
  | S fuel' =>
      match parse_value fuel' depth s with
      | Some (v, rest) =>
          match skip_space rest with
          | String c rest' =>
              if Ascii.eqb c "," then
                match parse_elements fuel' depth rest' with
                | Some (vs, r) => Some (v :: vs, r)
                | None => None
                end
              else if Ascii.eqb c "]" then Some ([v], rest')
              else None
          | EmptyString => None
          end
      | None => None
      end
  end
with parse_members (fuel : nat) (depth : Z) (s : string)
    : option (list (string * value) * string) :=
  match fuel with
  | O => None
  | S fuel' =>
      match skip_space s with
      | String q rest =>
          if Ascii.eqb q dquote then
            match scan_string rest with
            | Some (lit, r1) =>
                match skip_space r1 with
                | String colon r2 =>
                    if Ascii.eqb colon ":" then
                      match parse_value fuel' depth r2 with
                      | Some (v, r3) =>
                          match skip_space r3 with
                          | String c r4 =>
                              if Ascii.eqb c "," then
                                match parse_members fuel' depth r4 with
                                | Some (ms, r) => Some ((unquote lit, v) :: ms, r)
                                | None => None
                                end
                              else if Ascii.eqb c "}" then Some ([(unquote lit, v)], r4)
                              else None
                          | EmptyString => None
                          end
                      | None => None
                      end
                    else None
                | EmptyString => None
                end
            | None => None
            end
          else None
      | EmptyString => None
      end
  end.

(** [checkValid] and the scan of the one top-level value: [None] is a
    [*json.SyntaxError]. *)
Definition parse (data : string) : option value :=
  match parse_value (2 * String.length data + 2) 0 data with
  | Some (v, rest) => if is_empty (skip_space rest) then Some v else None
  | None => None
  end.

(** Whether the member name [key] selects the struct field named
    [name] (ASCII) when it is not spelled exactly: the comparison ignores
    case, and the two runes that fold to an ASCII letter, U+017F and
    U+212A, stand for [s] and [k]. *)
Fixpoint fold_matches (name key : string) : bool :=
  match key with
  | EmptyString => is_empty name
  | String c key' =>
      match name with
      | EmptyString => false
      | String n name' =>
          if code c <? 128 then Ascii.eqb (to_upper c) (to_upper n) && fold_matches name' key'
          else
            match key' with
            | String c1 key'' =>
                if Ascii.eqb c "197" && Ascii.eqb c1 "191"
                then Ascii.eqb (to_upper n) "S" && fold_matches name' key''
                else
                  match key'' with
                  | String c2 key''' =>
                      if Ascii.eqb c "226" && Ascii.eqb c1 "132" && Ascii.eqb c2 "170"
                      then Ascii.eqb (to_upper n) "K" && fold_matches name' key'''
                      else false
                  | EmptyString => false
                  end
            | EmptyString => false
            end
      end
  end.

Inductive error :=
| SyntaxError           (* the text is not JSON *)
| UnmarshalTypeError.   (* a value does not fit the Go type it is stored in *)

(** [d.saveError]: the first error is kept. *)
Definition saveError (saved : option error) (e : error) : option error :=
  match saved with
  | Some _ => saved
  | None => Some e
  end.

End json.

(** ** Errors *)

(** The values of Go's interface [error] that the standard library hands to
    this package. *)
Module errors.

Inductive t :=
| url_Error (Op URL Err : string)                        (* [*url.Error] *)
| NumError (Func Num : string) (Err : strconv.NumErr)    (* [*strconv.NumError] *)
| json_error (e : json.error)                            (* the decoder's errors *)
| New (msg : string).                                    (* any other error value *)

End errors.

(** What [json.Marshal] and [json.Unmarshal] do depends on the Go type of the
    value behind the [interface{}] they are given: each type that is
    encoded or decoded comes with its instance. *)
Class Marshaler (A : Type) := Marshal : A → string + errors.t.
Class Unmarshaler (A : Type) := Unmarshal : string → A → A * option errors.t.

(** [json.NewEncoder(w).Encode(v)]: the encoding of [v] and a newline are
    written to [w]. *)
Definition Encode `{Marshaler A} (v : A) : string + errors.t :=
  match Marshal v with
  | inl bytes => inl (bytes +:+ String "010" EmptyString)
  | inr err => inr err
  end.

(** ** net/http: headers, requests, responses *)

(** A location, the target of a pointer that is not nil. *)
Definition loc := nat.

Module http.

Import Bytes.

(** [http.Header] is [map[string][]string]. *)
Abbreviation Header := (gmap string (list string)).

(** Token bytes of RFC 7230, the bytes of method names and header names. *)
Definition is_token (c : ascii) : bool :=
  is_alnum c || one_of "!#$%&'*+-.^_`|~" c.

Fixpoint canonical (upper : bool) (s : string) : string :=
  match s with
  | EmptyString => EmptyString
  | String c s' =>
      let c' := if upper && is_lower c then to_upper c
                else if negb upper && is_upper c then to_lower c
                else c in
      String c' (canonical (Ascii.eqb c' "-") s')
  end.

(** [textproto.CanonicalMIMEHeaderKey]: the first letter and every letter
    after a hyphen in upper case, the others in lower case; a key with a
    byte that is no token byte is returned as it is. *)
Definition CanonicalMIMEHeaderKey (s : string) : string :=
  if all is_token s then canonical true s else s.

(** [func (h Header) Get(key string) string] *)
Definition Header_Get (h : Header) (key : string) : string :=
  match default [] (h !! CanonicalMIMEHeaderKey key) with
  | [] => EmptyString
  | v :: _ => v
  end.

(** [func (h Header) Set(key, value string)] *)
Definition Header_Set (h : Header) (key value : string) : Header :=
  <[CanonicalMIMEHeaderKey key := [value]]> h.

Definition MethodGet : string := "GET".
Definition StatusTooManyRequests : Z := 429.

(** [http.Request]: the fields this package reads and writes.  [URL] and
    [Body] are pointers into the store (none: nil). *)
Module Request.
Record t := mk {
  Method : string;
  URL : option loc;
  Header : http.Header;
  Body : option loc
}.

Definition set_Header (h : http.Header) (r : t) : t :=
  mk (Method r) (URL r) h (Body r).
End Request.

(** [http.Response]: the fields this package reads.  [Body] is a pointer
    into the store.  [Request] is a pointer to a request that this package
    does not write to once it is built: it is held by value (none: nil). *)
Module Response.
Record t := mk {
  StatusCode : Z;
  Header : http.Header;
  Body : option loc;
  Request : option Request.t
}.

(** The zero value, [http.Response{}] *)
Definition zero : t := mk 0 ∅ None None.
End Response.

(** [validMethod] *)
Definition validMethod (method : string) : bool :=
  negb (is_empty method) && all is_token method.

(** The index of the last [c] in [s], as [strings.LastIndex]: -1 when
    there is none. *)
Fixpoint LastIndex_from (i : Z) (c : ascii) (s : string) : Z :=
  match s with
  | EmptyString => -1
  | String x s' =>
      let later := LastIndex_from (i + 1) c s' in
      if 0 <=? later then later else if Ascii.eqb x c then i else -1
  end.
Definition LastIndex (c : ascii) (s : string) : Z := LastIndex_from 0 c s.

Fixpoint trim_last_colon (s : string) : string :=
  match s with
  | EmptyString => EmptyString
  | String c EmptyString => if Ascii.eqb c ":" then EmptyString else s
  | String c s' => String c (trim_last_colon s')
  end.

(** [removeEmptyPort]: the host without a trailing colon that announces
    no port. *)
Definition removeEmptyPort (host : string) : string :=
  if LastIndex "]" host <? LastIndex ":" host then trim_last_colon host else host.

End http.

(** ** The state: the store and the outside world *)

(** An [io.ReadCloser] as the HTTP client hands it out: the bytes not read
    yet, the error the stream ends with (none: a clean [io.EOF]), and whether
    [Close] was called. *)
Record Reader := mkReader {
  unread : string;
  failure : option string;
  closed : bool
}.

(** What the program does to the outside world. *)
Inductive event :=
| Sent (req : http.Request.t)   (* the HTTP client was given [req] to send *)
| Slept (d : Z).                (* [time.Sleep(d)], [d] in nanoseconds *)

Record state := mkState {
  urls : gmap loc URL.t;       (* the [url.URL] objects behind pointers *)
  bodies : gmap loc Reader;    (* the body streams *)
  trace : list event           (* the events so far, oldest first *)
}.

(** What running a piece of the program gives: a value, a Go run-time panic
    (a nil pointer is dereferenced), or [Beyond]: the program is defined
    there, but this development does not follow what it does. *)
Inductive outcome (A : Type) :=
| Ok (a : A)
| Panic
| Beyond.
Arguments Ok {A} a.
Arguments Panic {A}.
Arguments Beyond {A}.

(** Computations that read and write the state. *)
Definition M (A : Type) : Type := state → outcome (A * state).

Module M.

Definition ret {A} (a : A) : M A := λ σ, Ok (a, σ).

Definition bind {A B} (m : M A) (k : A → M B) : M B :=
  λ σ, match m σ with
       | Ok (a, σ') => k a σ'
       | Panic => Panic
       | Beyond => Beyond
       end.

Definition panic {A} : M A := λ _, Panic.
Definition beyond {A} : M A := λ _, Beyond.

(** A computation that has no use for the state. *)
Definition lift {A} (o : outcome A) : M A :=
  λ σ, match o with
       | Ok a => Ok (a, σ)
       | Panic => Panic
       | Beyond => Beyond
       end.

(** [*p] for a pointer to a value that is held by value *)
Definition deref {A} (p : option A) : M A :=
  λ σ, match p with
       | Some a => Ok (a, σ)
       | None => Panic
       end.

(** [*p] for a [*url.URL] *)
Definition load_url (p : option loc) : M URL.t :=
  λ σ, match p with
       | Some l => match urls σ !! l with
                   | Some u => Ok (u, σ)
                   | None => Panic
                   end
       | None => Panic
       end.

(** [*p = u] for a [*url.URL] *)
Definition store_url (p : option loc) (u : URL.t) : M unit :=
  λ σ, match p with
       | Some l => match urls σ !! l with
                   | Some _ => Ok (tt, mkState (<[l := u]> (urls σ)) (bodies σ) (trace σ))
                   | None => Panic
                   end
       | None => Panic
       end.

(** A pointer to a new [url.URL] that holds [u] *)
Definition alloc_url (u : URL.t) : M (option loc) :=
  λ σ, let l := fresh (dom (urls σ)) in
       Ok (Some l, mkState (<[l := u]> (urls σ)) (bodies σ) (trace σ)).

Definition load_body (p : option loc) : M Reader :=
  λ σ, match p with
       | Some l => match bodies σ !! l with
                   | Some r => Ok (r, σ)
                   | None => Panic
                   end
       | None => Panic
       end.

Definition store_body (p : option loc) (r : Reader) : M unit :=
  λ σ, match p with
       | Some l => match bodies σ !! l with
                   | Some _ => Ok (tt, mkState (urls σ) (<[l := r]> (bodies σ)) (trace σ))
                   | None => Panic
                   end
       | None => Panic
       end.

(** A pointer to a new stream *)
Definition alloc_body (r : Reader) : M (option loc) :=
  λ σ, let l := fresh (dom (bodies σ)) in
       Ok (Some l, mkState (urls σ) (<[l := r]> (bodies σ)) (trace σ)).

Definition emit (e : event) : M unit :=
  λ σ, Ok (tt, mkState (urls σ) (bodies σ) (trace σ ++ [e])).

End M.

Global Instance M_ret : MRet M := @M.ret.
Global Instance M_bind : MBind M := λ A B k m, M.bind m k.

(** ** io *)

Module io.

(** [io.ReadAll(r)]: everything up to the end of the stream or its first
    error.  The bytes are consumed: the stream is left at its end.  The
    slice returned is never nil. *)
Definition ReadAll (r : option loc) : M (string * option errors.t) :=
  b ← M.load_body r;
  if closed b then mret (EmptyString, Some (errors.New "http: read on closed response body"))
  else
    M.store_body r (mkReader EmptyString (failure b) (closed b));;
    mret (unread b, errors.New <$> failure b).

(** [r.Close()] *)
Definition Close (r : option loc) : M unit :=
  b ← M.load_body r;
  M.store_body r (mkReader (unread b) (failure b) true).

End io.

(** ** time *)

Module time.

(** [time.Second], in nanoseconds *)
Definition Second : Z := 1000000000.

(** [time.Sleep(d)] pauses for at least [d]; it returns at once when [d]
    is zero or negative. *)
Definition Sleep (d : Z) : M unit := M.emit (Slept d).

End time.

(** ** net/http: building a request *)

Section http_NewRequest.

Import Bytes http.

(** [url.Parse] is not modelled: whatever function it is, the properties
    below hold. *)
Variable url_Parse : string → URL.t + errors.t.

(** [http.NewRequest(method, url, body)]; [body] holds the bytes of the
    reader given, none for a nil reader.  The request owns a new URL and,
    for a reader, a new body stream. *)
Definition http_NewRequest (method url : string) (body : option string)
    : M (Request.t + errors.t) :=
  let method := if is_empty method then "GET" else method in
  if negb (validMethod method) then
    mret (inr (errors.New "net/http: invalid method"))
  else
    match url_Parse url with
    | inr err => mret (inr err)
    | inl u =>
        rc ← match body with
             | Some bytes => M.alloc_body (mkReader bytes None false)
             | None => mret None
             end;
        p ← M.alloc_url (URL.set_Host (removeEmptyPort (URL.Host u)) u);
        mret (inl (Request.mk method p ∅ rc))
    end.

End http_NewRequest.

(** ** Package librariesio *)

Module librariesio.

Import Bytes http.

Definition libraryVersion : string := "1".
Definition baseURL : string := "https://libraries.io/api/".
Definition userAgent : string := "go-librariesio/" +:+ libraryVersion.
Definition contentType : string := "application/json".
Definition mediaType : string := "application/json".

(** [Client] for communicating with the libraries.io API.  The fields
    [transport] and [client] are the HTTP client of the standard library:
    what it answers is given to [Do] from outside.  [BaseURL] is a pointer
    to a URL that this package only reads: it is held by value (none:
    nil). *)
Record Client := mkClient {
  apiKey : string;
  UserAgent : string;
  BaseURL : option URL.t;
  Retry : bool
}.

(** [ErrorResponse] holds information about an unsuccessful API request.
    The error message from the API response is stored to the [Message]
    field, which has the tag [json:"error"]; [Response] has no tag. *)
Module ErrorResponse.
Record t := mk {
  Response : option Response.t;
  Message : string
}.
End ErrorResponse.

(** The errors this package returns: those of the standard library and its
    own [*ErrorResponse]. *)
Inductive error :=
| Err (e : errors.t)
| ErrResponse (e : ErrorResponse.t).

(** [redactAPIKey] overwrites the secret api_key query param *)
Definition redactAPIKey (url : option loc) : M (option loc) :=
  u ← M.load_url url;
  let q := URL.Query u in
  let q := Values.Set' q "api_key" "REDACTED" in
  M.store_url url (URL.set_RawQuery (Values.Encode q) u);;
  mret url.

(** *** Decoding a body into an [ErrorResponse] *)

Inductive field := field_Response | field_Message.

(** The field a member of the JSON object goes to: the one with that
    name, or else the one whose name matches when case is ignored. *)
Definition select_field (key : string) : option field :=
  if String.eqb key "Response" then Some field_Response
  else if String.eqb key "error" then Some field_Message
  else if json.fold_matches "Response" key then Some field_Response
  else if json.fold_matches "error" key then Some field_Message
  else None.

(** One member of the object.  A string goes to [Message]; [null] leaves
    it as it is; any other value is a type error, which is saved while the
    decoding goes on.  [null] makes [Response] nil; a value that is no
    object is a type error, after a nil [Response] was made to point to a
    new zero value.  An object for [Response] is decoded into the
    [http.Response] that the field points to: this is not followed. *)
Definition decode_member (acc : ErrorResponse.t * option json.error)
    (member : string * json.value) : outcome (ErrorResponse.t * option json.error) :=
  let '(e, saved) := acc in
  let '(key, v) := member in
  match select_field key with
  | Some field_Message =>
      match v with
      | json.Str s => Ok (ErrorResponse.mk (ErrorResponse.Response e) s, saved)
      | json.Null => Ok (e, saved)
      | _ => Ok (e, json.saveError saved json.UnmarshalTypeError)
      end
  | Some field_Response =>
      match v with
      | json.Null => Ok (ErrorResponse.mk None (ErrorResponse.Message e), saved)
      | json.Object _ => Beyond
      | _ => Ok (ErrorResponse.mk (Some (default Response.zero (ErrorResponse.Response e)))
                   (ErrorResponse.Message e),
                 json.saveError saved json.UnmarshalTypeError)
      end
  | None => Ok (e, saved)
  end.

Fixpoint decode_members (acc : ErrorResponse.t * option json.error)
    (members : list (string * json.value)) : outcome (ErrorResponse.t * option json.error) :=
  match members with
  | [] => Ok acc
  | m :: members' =>
      match decode_member acc m with
      | Ok acc' => decode_members acc' members'
      | Panic => Panic
      | Beyond => Beyond
      end
  end.

(** [json.Unmarshal(data, errResp)] for [errResp *ErrorResponse]: what
    [errResp] points to afterwards, and the error returned.  A text that
    is not JSON changes nothing. *)
Definition Unmarshal_ErrorResponse (data : string) (errResp : ErrorResponse.t)
    : outcome (ErrorResponse.t * option json.error) :=
  match json.parse data with
  | None => Ok (errResp, Some json.SyntaxError)
  | Some (json.Object members) => decode_members (errResp, None) members
  | Some json.Null => Ok (errResp, None)
  | Some _ => Ok (errResp, Some json.UnmarshalTypeError)
  end.

(** [CheckResponse] checks the API response for errors and returns a
    [ErrorResponse].  Responses are considered unsuccessful for status
    code other than 2xx. *)
Definition CheckResponse (resp : option Response.t) : M (option ErrorResponse.t) :=
  r ← M.deref resp;
  let code := Response.StatusCode r in
  if (200 <=? code) && (code <=? 299) then mret None
  else
    let errResp := ErrorResponse.mk resp EmptyString in
    '(data, err) ← io.ReadAll (Response.Body r);
    match err with
    | None =>
        (* [data != nil] holds: [io.ReadAll] returns no nil slice *)
        '(errResp, _) ← M.lift (Unmarshal_ErrorResponse data errResp);
        mret (Some errResp)
    | Some _ => mret (Some errResp)
    end.

Section Error.

Variable IsPrint_table : Z → bool.

(** [Error] returns information about the [ErrorResponse]:
    [fmt.Sprintf("%v %v: %d %q", ...)] of the method, the redacted URL
    (the verb [%v] prints a [*url.URL] with its method [String]), the
    status code and the message. *)
Definition Error (r : ErrorResponse.t) : M string :=
  resp ← M.deref (ErrorResponse.Response r);
  req ← M.deref (Response.Request resp);
  let method := Request.Method req in
  url ← redactAPIKey (Request.URL req);
  let code := Response.StatusCode resp in
  let message := ErrorResponse.Message r in
  u ← M.load_url url;
  mret (method +:+ " " +:+ URL.String' u +:+ ": " +:+ strconv.Itoa code
          +:+ " " +:+ strconv.Quote IsPrint_table message).

End Error.

(** What the HTTP client answers to one call of [c.client.Do(req)]: a
    response, with its status code, its headers and its body stream, or an
    error. *)
Inductive exchange :=
| Received (StatusCode : Z) (Header : http.Header) (body : Reader)
| Failed (err : errors.t).

(** [c.client.Do(req)] when the client answers [x]: the request is sent;
    a response points to a new body stream and to the request. *)
Definition client_Do (x : exchange) (req : Request.t) : M (Response.t + errors.t) :=
  M.emit (Sent req);;
  match x with
  | Received code header body =>
      p ← M.alloc_body body;
      mret (inl (Response.mk code header p (Some req)))
  | Failed err => mret (inr err)
  end.

Section Client.

(** [url.Parse] and [URL.ResolveReference] are not modelled:
    whatever functions they are, the properties below hold. *)
Variable url_Parse : string → URL.t + errors.t.
Variable ResolveReference : URL.t → URL.t → URL.t.

(** [NewClient] returns a new libraries.io API client *)
Definition NewClient (apiKey : string) : Client :=
  let APIBaseURL := match url_Parse baseURL with
                    | inl u => Some u
                    | inr _ => None
                    end in
  mkClient apiKey userAgent APIBaseURL false.

(** [NewRequest] creates a new API request, that can be used for
    [client.Do()].  It creates an absolute URL from the given URL string
    and serialize the given payload, set the according headers and add
    the api_key query param. *)
Definition NewRequest `{Marshaler A} (c : Client) (method urlStr : string)
    (data : option A) : M (Request.t + errors.t) :=
  match url_Parse urlStr with
  | inr err => mret (inr err)
  | inl relativeURL =>
      base ← M.deref (BaseURL c);
      let absoluteURL := ResolveReference base relativeURL in
      let body :=
        match data with
        | Some d =>
            match Encode d with
            | inl bytes => inl (Some bytes)
            | inr err => inr err
            end
        | None => inl None
        end in
      match body with
      | inr err => mret (inr err)
      | inl body =>
          r ← http_NewRequest url_Parse method (URL.String' absoluteURL) body;
          match r with
          | inr err => mret (inr err)
          | inl req =>
              (* set api_key for auth *)
              u ← M.load_url (Request.URL req);
              let q := URL.Query u in
              let q := Values.Set' q "api_key" (apiKey c) in
              M.store_url (Request.URL req) (URL.set_RawQuery (Values.Encode q) u);;
              let h := Header_Set (Request.Header req) "Accept" mediaType in
              let h := Header_Set h "User-Agent" (UserAgent c) in
              let h := match data with
                       | Some _ => Header_Set h "Content-Type" "application/json"
                       | None => h
                       end in
              mret (inl (Request.set_Header h req))
          end
      end
  end.

(** [Do] sends an HTTP request.  It makes sure to redact the API secret
    key from any URL errors and load the body from the HTTP response
    into the given obj and return the response.

    [net] holds the answers of the HTTP client to this call of
    [c.client.Do] and to those of the calls of [Do] inside; [Do] needs
    one for each.  The context is not modelled: a request that is
    cancelled is a call the client answers with an error.  What is
    returned: the response, the error and what [obj] points to. *)
Fixpoint Do `{Unmarshaler A} (net : list exchange) (c : Client) (req : Request.t)
    (obj : option A) : M (option Response.t * option error * option A) :=
  match net with
  | [] => M.beyond
  | x :: net' =>
      r ← client_Do x req;
      match r with
      | inr err =>
          (* If we have encountered an url.Error make sure
             to redact the API secret key from the URL *)
          match err with
          | errors.url_Error op urlError_URL e =>
              match url_Parse urlError_URL with
              | inl u =>
                  url ← M.alloc_url u;
                  url ← redactAPIKey url;
                  u ← M.load_url url;
                  mret (None, Some (Err (errors.url_Error op (URL.String' u) e)), obj)
              | inr _ => mret (None, Some (Err err), obj)
              end
          | _ => mret (None, Some (Err err), obj)
          end
      | inl resp =>
          (* [defer resp.Body.Close()] *)
          M.load_body (Response.Body resp);;
          result ←
            (checked ← CheckResponse (Some resp);
             match checked with
             | Some errResp =>
                 (* If we got a 429 and want to retry, just execute again.
                    Note: only supported for GET requests. *)
                 if Retry c
                    && (Response.StatusCode resp =? StatusTooManyRequests)
                    && String.eqb (Request.Method req) MethodGet
                    && negb (is_empty (Header_Get (Response.Header resp) "X-RateLimit-Reset"))
                 then
                   match strconv.Atoi (Header_Get (Response.Header resp) "X-RateLimit-Reset") with
                   | inr e =>
                       mret (Some resp,
                             Some (Err (errors.NumError "Atoi"
                               (Header_Get (Response.Header resp) "X-RateLimit-Reset") e)), obj)
                   | inl timeToWait =>
                       (* Wait the reset time + 1 second before retrying. *)
                       time.Sleep (strconv.wrap64 (time.Second * strconv.wrap64 (timeToWait + 1)));;
                       Do net' c req obj
                   end
                 else mret (Some resp, Some (ErrResponse errResp), obj)
             | None =>
                 (* Always read the full body to prevent leaving the request open. *)
                 '(body, err) ← io.ReadAll (Response.Body resp);
                 match err with
                 | Some err => mret (None, Some (Err err), obj)
                 | None =>
                     (* Load body into the given obj *)
                     match obj with
                     | Some o =>
                         let '(o', err) := Unmarshal body o in
                         match err with
                         | Some err => mret (None, Some (Err err), Some o')
                         | None => mret (Some resp, None, Some o')
                         end
                     | None => mret (Some resp, None, obj)
                     end
                 end
             end);
          io.Close (Response.Body resp);;
          mret result
      end
  end.

End Client.

End librariesio.
(** ** Package librariesio: projects *)

Module project.

Import Bytes http librariesio.

(** A nil payload holds a value of no type: [NewRequest] is given none of
    the empty type, which has nothing to encode. *)
Definition no_payload : Marshaler Empty_set := λ data, match data with end.

Section Client.

Variable url_Parse : string → URL.t + errors.t.
Variable ResolveReference : URL.t → URL.t → URL.t.

(** The Go types [Project] and [[]*Project] come with their decoders.
    [new_Project] is what [new(Project)] points to, [nil_projects] the
    value of [var projects []*Project]. *)
Context {Project_t : Type} `{Unmarshaler Project_t} (new_Project : Project_t).
Context {Projects_t : Type} `{Unmarshaler Projects_t} (nil_projects : Projects_t).

(** [Project] returns information about a project and it's versions.

    GET https://libraries.io/api/:platform/:name

    [plat] is the platform/package manager of the project, [name] is the
    name of the project on the platform.  The project returned is a
    pointer (none: nil). *)
Definition Project (net : list exchange) (c : Client) (plat name : string)
    : M (option Project_t * option Response.t * option error) :=
  let urlStr := plat +:+ "/" +:+ name in
  r ← NewRequest url_Parse ResolveReference (H := no_payload) c "GET" urlStr None;
  match r with
  | inr err => mret (None, None, Some (Err err))
  | inl request =>
      let project := Some new_Project in
      '(response, err, project) ← Do url_Parse net c request project;
      match err with
      | Some err => mret (None, response, Some err)
      | None => mret (project, response, None)
      end
  end.

(** [ProjectDeps] returns information about a project and it's
    dependencies.

    GET https://libraries.io/api/:platform/:name/:version/dependencies

    [ver] is the version of the project - pass "latest" for current
    release. *)
Definition ProjectDeps (net : list exchange) (c : Client) (plat name ver : string)
    : M (option Project_t * option Response.t * option error) :=
  let urlStr := plat +:+ "/" +:+ name +:+ "/" +:+ ver +:+ "/dependencies" in
  r ← NewRequest url_Parse ResolveReference (H := no_payload) c "GET" urlStr None;
  match r with
  | inr err => mret (None, None, Some (Err err))
  | inl request =>
      let project := Some new_Project in
      '(response, err, project) ← Do url_Parse net c request project;
      match err with
      | Some err => mret (None, response, Some err)
      | None => mret (project, response, None)
      end
  end.

(** [Search] returns a slice of projects for the given search string

    GET https://libraries.io/api/search?q=amelia

    [Do] is given [&projects], which is not nil: what it points to in the
    end is the slice returned. *)
Definition Search (net : list exchange) (c : Client) (q : string)
    : M (Projects_t * option Response.t * option error) :=
  r ← NewRequest url_Parse ResolveReference (H := no_payload) c "GET" "search" None;
  match r with
  | inr err => mret (nil_projects, None, Some (Err err))
  | inl request =>
      (* Add query to request *)
      u ← M.load_url (Request.URL request);
      let query := URL.Query u in
      let query := Values.Set' query "q" q in
      M.store_url (Request.URL request) (URL.set_RawQuery (Values.Encode query) u);;
      let projects := nil_projects in
      '(response, err, projects') ← Do url_Parse net c request (Some projects);
      match err with
      | Some err => mret (nil_projects, response, Some err)
      | None => mret (default projects projects', response, None)
      end
  end.

End Client.

End project.

(** ** Specification vocabulary and the inputs of the examples *)

Module spec.

Import http librariesio.

(** The URL that [redactAPIKey] leaves in the object it is given. *)
Definition redacted (u : URL.t) : URL.t :=
  URL.set_RawQuery (Values.Encode (Values.Set' (URL.Query u) "api_key" "REDACTED")) u.

(** The state after [*l = u] for a [*url.URL] [l]. *)
Definition with_url (l : loc) (u : URL.t) (σ : state) : state :=
  mkState (<[l := u]> (urls σ)) (bodies σ) (trace σ).

(** A status code in the range 200 to 299. *)
Definition success (code : Z) : bool := (200 <=? code) && (code <=? 299).

(** The state after the stream at [l] became [b]. *)
Definition with_body (l : loc) (b : Reader) (σ : state) : state :=
  mkState (urls σ) (<[l := b]> (bodies σ)) (trace σ).

(** A stream after all its bytes were read. *)
Definition drained (b : Reader) : Reader := mkReader EmptyString (failure b) (closed b).

(** A stream that [io.ReadAll] reads to its end without an error. *)
Definition readable (b : Reader) : bool :=
  negb (closed b) && bool_decide (failure b = None).

(** The string of the last member that goes to the field [Message] and
    holds a string, [message] when there is none. *)
Fixpoint last_message (message : string) (members : list (string * json.value)) : string :=
  match members with
  | [] => message
  | (key, v) :: members' =>
      last_message
        (match select_field key, v with
         | Some field_Message, json.Str s => s
         | _, _ => message
         end) members'
  end.

(** The message a body holds: the string of the last member named
    [error], in whatever case, of the JSON object that the body is; empty
    when the body is not JSON, is no object or has no such member. *)
Definition message_of (data : string) : string :=
  match json.parse data with
  | Some (json.Object members) => last_message EmptyString members
  | _ => EmptyString
  end.

(** A member goes to the field [Response] and holds [null] or an
    object: decoding then writes to the pointer [Response] or through
    it. *)
Definition rewrites_Response (member : string * json.value) : bool :=
  match select_field member.1, member.2 with
  | Some field_Response, (json.Null | json.Object _) => true
  | _, _ => false
  end.

(** The body is a JSON object with such a member. *)
Definition reaches_Response (data : string) : bool :=
  match json.parse data with
  | Some (json.Object members) => existsb rewrites_Response members
  | _ => false
  end.

(** The value of the reset-time header of a response. *)
Definition reset (resp : Response.t) : string :=
  Header_Get (Response.Header resp) "X-RateLimit-Reset".

(** The condition under which [Do] goes for another attempt. *)
Definition eligible (c : Client) (resp : Response.t) (req : Request.t) : bool :=
  Retry c
  && (Response.StatusCode resp =? StatusTooManyRequests)
  && String.eqb (Request.Method req) MethodGet
  && negb (Bytes.is_empty (reset resp)).

(** Where the HTTP client puts the body of the next response. *)
Definition arrival (σ : state) : loc := fresh (dom (bodies σ)).

(** The response that [c.client.Do(req)] returns in state [σ] when the
    client answers with this status code and these headers, and the state
    it leaves when the body of the answer is [b]. *)
Definition received_response (σ : state) (code : Z) (header : Header) (req : Request.t)
    : Response.t :=
  Response.mk code header (Some (arrival σ)) (Some req).
Definition received_state (σ : state) (b : Reader) (req : Request.t) : state :=
  mkState (urls σ) (<[arrival σ := b]> (bodies σ)) (trace σ ++ [Sent req]).

(** The error [io.ReadAll] returns on a stream, if any. *)
Definition read_error (b : Reader) : option errors.t :=
  if closed b then Some (errors.New "http: read on closed response body")
  else errors.New <$> failure b.

(** The state after [io.ReadAll] on the stream at [l]. *)
Definition read_at (l : loc) (σ : state) : state :=
  match bodies σ !! l with
  | Some b => if closed b then σ else with_body l (drained b) σ
  | None => σ
  end.

(** The state after [time.Sleep(d)]. *)
Definition slept (d : Z) (σ : state) : state :=
  mkState (urls σ) (bodies σ) (trace σ ++ [Slept d]).

(** The state after the stream at [l] was closed. *)
Definition closed_at (l : loc) (σ : state) : state :=
  match bodies σ !! l with
  | Some b => with_body l (mkReader (unread b) (failure b) true) σ
  | None => σ
  end.

(** The time [Do] sleeps when the reset-time header holds the number
    [timeToWait]: a 64-bit product, in nanoseconds. *)
Definition pause (timeToWait : Z) : Z :=
  strconv.wrap64 (time.Second * strconv.wrap64 (timeToWait + 1)).

(** The bytes [NewRequest] gives to [http.NewRequest] as the body: none
    for a nil payload, else what the encoder wrote. *)
Definition payload `{Marshaler A} (data : option A) : option string + errors.t :=
  match data with
  | Some d =>
      match Encode d with
      | inl bytes => inl (Some bytes)
      | inr err => inr err
      end
  | None => inl None
  end.

(** The headers [NewRequest] sets, with a payload and without. *)
Definition request_headers (c : Client) (with_payload : bool) : Header :=
  let h := Header_Set ∅ "Accept" mediaType in
  let h := Header_Set h "User-Agent" (UserAgent c) in
  if with_payload then Header_Set h "Content-Type" "application/json" else h.

(** The URL of the request [NewRequest] builds, from the URL [u] that
    [http.NewRequest] parsed. *)
Definition authorised (apiKey : string) (u : URL.t) : URL.t :=
  let u := URL.set_Host (removeEmptyPort (URL.Host u)) u in
  URL.set_RawQuery (Values.Encode (Values.Set' (URL.Query u) "api_key" apiKey)) u.

End spec.

Module examples.

Import Bytes http librariesio.

Definition quoted (s : string) : string :=
  String dquote (s +:+ String dquote EmptyString).

(** [https://service/api/pypi/poyo?api_key=SECRET] *)
Definition secret_url : URL.t :=
  URL.mk "https" "" None "service" "/api/pypi/poyo" "" false false "api_key=SECRET" "" "".

(** [https://service/api/search?q=grpc], with no api_key *)
Definition plain_url : URL.t :=
  URL.mk "https" "" None "service" "/api/search" "" false false "q=grpc" "" "".

(** The body [{"error":"Nope Nope Nope"}] *)
Definition nope_body : string :=
  "{" +:+ quoted "error" +:+ ":" +:+ quoted "Nope Nope Nope" +:+ "}".

(** A GET request whose URL is the object at location 0. *)
Definition request : Request.t := Request.mk "GET" (Some 0%nat) ∅ None.

(** A response with the given status and headers, whose body is the stream
    at location 0, to [request]. *)
Definition response (code : Z) (header : Header) : Response.t :=
  Response.mk code header (Some 0%nat) (Some request).

(** A state where the URL at location 0 is [u] and the stream at
    location 0 still holds [body]. *)
Definition state_of (u : URL.t) (body : string) : state :=
  mkState {[ 0%nat := u ]} {[ 0%nat := mkReader body None false ]} [].

(** The body [{"error":"not found","response":404}] *)
Definition not_found_body : string :=
  "{" +:+ quoted "error" +:+ ":" +:+ quoted "not found" +:+ ","
      +:+ quoted "response" +:+ ":404}".

(** The body [{"Response":null}] *)
Definition null_body : string := "{" +:+ quoted "Response" +:+ ":null}".

(** A stand-in for [url.Parse] on the URLs of the examples, which are of
    the form [https://host/path?query#fragment] or [path?query#fragment]
    and hold no escapes. *)
Definition Parse (rawURL : string) : URL.t + errors.t :=
  let '(rest, fragment, _) := Cut "#" rawURL in
  let '(rest, query, _) := Cut "?" rest in
  match json.strip_prefix "https://" rest with
  | Some authority_path =>
      let '(host, path, rooted) := Cut "/" authority_path in
      inl (URL.mk "https" "" None host (if rooted then String "/" path else EmptyString)
             "" false false query fragment "")
  | None =>
      if contains ":" rest then inr (errors.New "missing protocol scheme")
      else inl (URL.mk "" "" None "" rest "" false false query fragment "")
  end.

(** The path up to its last slash. *)
Fixpoint directory (path : string) : string :=
  match path with
  | EmptyString => EmptyString
  | String c path' =>
      if contains "/" path then String c (directory path') else EmptyString
  end.

(** A stand-in for [ResolveReference] on those URLs, for references
    without dot segments. *)
Definition ResolveReference (base ref : URL.t) : URL.t :=
  if negb (is_empty (URL.Scheme ref)) then ref
  else
    URL.mk (URL.Scheme base) "" None (URL.Host base)
      (if URL.starts_with "/" (URL.Path ref) then URL.Path ref
       else directory (URL.Path base) +:+ URL.Path ref)
      "" false false (URL.RawQuery ref) (URL.Fragment ref) "".

(** [json.Marshal] and [json.Unmarshal] for the Go type [bool]. *)
Definition Marshal_bool : Marshaler bool :=
  λ b, inl (if b then "true" else "false").
Definition Unmarshal_bool : Unmarshaler bool :=
  λ data b,
    match json.parse data with
    | Some (json.Bool b') => (b', None)
    | Some json.Null => (b, None)
    | Some _ => (b, Some (errors.json_error json.UnmarshalTypeError))
    | None => (b, Some (errors.json_error json.SyntaxError))
    end.

(** The client [NewClient("1234")], and the same with [Retry] set. *)
Definition client : Client := NewClient Parse "1234".
Definition retrying_client : Client :=
  mkClient (apiKey client) (UserAgent client) (BaseURL client) true.

(** The reset-time header with the given value. *)
Definition reset_header (value : string) : Header :=
  {[ "X-Ratelimit-Reset" := [value] ]}.

(** A body stream that holds [data] and ends cleanly. *)
Definition stream (data : string) : Reader := mkReader data None false.

End examples.
(** ** Vocabulary of the engine, the builder and the project calls *)

(** The byte the JSON encoder writes after a value. *)
Definition newline : string := String "010" EmptyString.

(** With at least as much fuel, the parser reads from a text followed by
    a newline what it reads from the text. *)
Definition value_newline (n : nat) : Prop :=
  ∀ d s v rest m, json.parse_value n d s = Some (v, rest) → (n ≤ m)%nat →
    json.parse_value m d (s +:+ newline) = Some (v, rest +:+ newline).
Definition elements_newline (n : nat) : Prop :=
  ∀ d s vs rest m, json.parse_elements n d s = Some (vs, rest) → (n ≤ m)%nat →
    json.parse_elements m d (s +:+ newline) = Some (vs, rest +:+ newline).
Definition members_newline (n : nat) : Prop :=
  ∀ d s ms rest m, json.parse_members n d s = Some (ms, rest) → (n ≤ m)%nat →
    json.parse_members m d (s +:+ newline) = Some (ms, rest +:+ newline).

Module engine.

Import http librariesio spec.

(** What [n] attempts that end in a pause of [d] add to the trace. *)
Definition attempts (n : nat) (req : Request.t) (d : Z) : list event :=
  concat (replicate n [Sent req; Slept d]).

(** The store after one answer was handled without another attempt: the
    body was read, if the status asked for it, and closed. *)
Definition settled (σ : state) (b : Reader) (req : Request.t) : state :=
  closed_at (arrival σ) (read_at (arrival σ) (received_state σ b req)).

(** The stream behind the body of a response, if there is one. *)
Definition body_of (resp : Response.t) (σ : state) : option Reader :=
  l ← Response.Body resp; bodies σ !! l.

(** The error [Do] returns for the error [err] of the HTTP client: a
    [*url.Error] whose URL parses has it replaced by the redacted one. *)
Definition redacted_error (url_Parse : string → URL.t + errors.t) (err : errors.t)
    : errors.t :=
  match err with
  | errors.url_Error op u e =>
      match url_Parse u with
      | inl u' => errors.url_Error op (URL.String' (redacted u')) e
      | inr _ => err
      end
  | _ => err
  end.

(** The headers [NewRequest] sets on the headers [h] of a request. *)
Definition request_headers_on (h : Header) (c : Client) (with_payload : bool) : Header :=
  let h := Header_Set h "Accept" mediaType in
  let h := Header_Set h "User-Agent" (UserAgent c) in
  if with_payload then Header_Set h "Content-Type" "application/json" else h.

(** The string form of the URL of the request that was built, if one
    was. *)
Definition sent_URL (built : outcome ((Request.t + errors.t) * state)) : option string :=
  match built with
  | Ok (inl req, σ) => l ← Request.URL req; u ← urls σ !! l; Some (URL.String' u)
  | _ => None
  end.

(** The raw query that the URL object at [l] holds after a run, if the
    run returned. *)
Definition raw_query_at {B : Type} (l : loc) (run : outcome (B * state)) : option string :=
  match run with
  | Ok (_, σ) => URL.RawQuery <$> urls σ !! l
  | _ => None
  end.

(** The string form of the base URL of the client resolved against the
    relative URL, for the given parser and resolver. *)
Definition resolved (url_Parse : string → URL.t + errors.t)
    (ResolveReference : URL.t → URL.t → URL.t) (c : Client) (urlStr : string)
    : option string :=
  match BaseURL c, url_Parse urlStr with
  | Some base, inl relativeURL => Some (URL.String' (ResolveReference base relativeURL))
  | _, _ => None
  end.

(** The URL of the examples with a query of many kinds of segments. *)
Definition crowded_url : URL.t :=
  URL.set_RawQuery "zeta=1&api_key=S&a=1;b=2&%zz=1&flag&q=a%20b&api_key=T"
    examples.secret_url.

(** The GET request without a payload that [NewRequest] builds, with its
    URL object at [l]. *)
Definition get_request (c : Client) (l : loc) : Request.t :=
  Request.mk "GET" (Some l) (request_headers c false) None.

(** The pointer [Response] of an [ErrorResponse] after the members of a
    JSON object were decoded into it, for members that hold no object for
    that field: [null] makes it nil, any other value leaves it, pointing
    to a new zero value if it was nil. *)
Fixpoint last_Response (resp : option Response.t) (members : list (string * json.value))
    : option Response.t :=
  match members with
  | [] => resp
  | (key, v) :: members' =>
      last_Response
        (match select_field key, v with
         | Some field_Response, json.Null => None
         | Some field_Response, _ => Some (default Response.zero resp)
         | _, _ => resp
         end) members'
  end.

(** A member goes to the field [Response] and holds an object. *)
Definition object_for_Response (member : string * json.value) : bool :=
  match select_field member.1, member.2 with
  | Some field_Response, json.Object _ => true
  | _, _ => false
  end.

(** The body is a JSON object in which a member for the field [Response]
    holds an object.  The decoder writes such an object into the response
    that the field points to, the response [CheckResponse] was given:
    what the program does from there on is not followed here. *)
Definition object_in_Response (data : string) : bool :=
  match json.parse data with
  | Some (json.Object members) => existsb object_for_Response members
  | _ => false
  end.

(** An answer of the HTTP client that is followed to its end: an error, a
    response with a status from 200 to 299, or a response whose body
    cannot be read or holds no object for the field [Response]. *)
Definition plain (x : exchange) : bool :=
  match x with
  | Received code _ b =>
      success code || negb (readable b) || negb (object_in_Response (unread b))
  | Failed _ => true
  end.

(** An answer after which [Do] makes another attempt at a request with
    this method: status 429 for a client with [Retry] set and the method
    GET, with a reset-time header that holds a number. *)
Definition retried (c : Client) (method : string) (x : exchange) : bool :=
  match x with
  | Received code header _ =>
      Retry c
      && (code =? StatusTooManyRequests)
      && String.eqb method MethodGet
      && negb (Bytes.is_empty (Header_Get header "X-RateLimit-Reset"))
      && match strconv.Atoi (Header_Get header "X-RateLimit-Reset") with
         | inl _ => true
         | inr _ => false
         end
  | Failed _ => false
  end.

(** The answers are all followed, and one of them ends the attempts. *)
Definition settles (c : Client) (method : string) (net : list exchange) : bool :=
  forallb plain net && existsb (λ x, negb (retried c method x)) net.

(** The query made of these segments, an ampersand between them. *)
Fixpoint join (segments : list string) : string :=
  match segments with
  | [] => EmptyString
  | [segment] => segment
  | segment :: segments' => segment +:+ "&" +:+ join segments'
  end.

(** A segment of a query that [url.ParseQuery] passes over: it holds a
    semicolon, is empty, or its key or its value has a bad escape. *)
Definition skipped (segment : string) : bool :=
  Bytes.contains ";" segment || Bytes.is_empty segment
  || let '(key, value, _) := Bytes.Cut "=" segment in
     match url.QueryUnescape key, url.QueryUnescape value with
     | Some _, Some _ => false
     | _, _ => true
     end.

(** The segments that are read. *)
Definition kept (segments : list string) : list string :=
  List.filter (λ segment, negb (skipped segment)) segments.

(** A message with bytes that [%q] escapes: two double quotes, a newline,
    a tab, a backslash, the control byte 1, the byte 127 and the byte 255,
    which is no UTF-8. *)
Definition unruly_message : string :=
  "say " +:+ String Bytes.dquote ("hi" +:+ String Bytes.dquote
    (String "010" (String "009" (String "092" (String "001" (String "127"
       (String "255" "!"))))))).

(** The same message as [%q] prints it. *)
Definition unruly_quoted : string :=
  String Bytes.dquote ("say \" +:+ String Bytes.dquote ("hi\" +:+ String Bytes.dquote
    ("\n\t\\\x01\x7f\xff!" +:+ String Bytes.dquote EmptyString))).

End engine.

(** * Properties *)

(** ** Strings *)

Section strings.

Import Bytes.

Lemma app_nil_l (s : string) : EmptyString +:+ s = s.
Proof. reflexivity. Qed.

Lemma app_cons (c : ascii) (s t : string) : String c s +:+ t = String c (s +:+ t).
Proof. reflexivity. Qed.

Lemma app_nil_r (s : string) : s +:+ EmptyString = s.
Proof. induction s as [|c s IH]; [done|]. by rewrite app_cons, IH. Qed.

Lemma app_assoc (s t u : string) : (s +:+ t) +:+ u = s +:+ t +:+ u.
Proof. induction s as [|c s IH]; [done|]. by rewrite !app_cons, IH. Qed.

Lemma is_empty_true (s : string) : is_empty s = true ↔ s = EmptyString.
Proof. by destruct s. Qed.

Lemma is_empty_app (s t : string) : is_empty (s +:+ t) = is_empty s && is_empty t.
Proof. by destruct s. Qed.

Lemma all_app (p : ascii → bool) (s t : string) : all p (s +:+ t) = all p s && all p t.
Proof.
  induction s as [|c s IH]; [done|].
  rewrite app_cons. simpl. by rewrite IH, andb_assoc.
Qed.

Lemma contains_app (c : ascii) (s t : string) :
  contains c (s +:+ t) = contains c s || contains c t.
Proof. unfold contains. rewrite all_app. by destruct (all _ s), (all _ t). Qed.

Lemma contains_cons (c x : ascii) (s : string) :
  contains c (String x s) = Ascii.eqb x c || contains c s.
Proof. unfold contains. simpl. by destruct (Ascii.eqb x c). Qed.

(** A string without the separator is a single segment. *)
Lemma Split_without (sep : ascii) (s : string) :
  contains sep s = false → Split sep s = [s].
Proof.
  induction s as [|c s IH]; [done|].
  rewrite contains_cons. intros [Hc Hs]%orb_false_elim.
  simpl. rewrite Hc, (IH Hs). done.
Qed.

Lemma Split_nonempty (sep : ascii) (s : string) : ∃ x xs, Split sep s = x :: xs.
Proof.
  induction s as [|c s (x & xs & IH)]; simpl; [by eauto|].
  destruct (Ascii.eqb c sep); [by eauto|]. rewrite IH. by eauto.
Qed.

Lemma Split_app (sep : ascii) (s t : string) :
  Split sep (s +:+ String sep t) = Split sep s ++ Split sep t.
Proof.
  induction s as [|c s IH].
  - rewrite app_nil_l. simpl. by rewrite Ascii.eqb_refl.
  - rewrite app_cons. simpl. destruct (Ascii.eqb c sep); [by rewrite IH|].
    rewrite IH. by destruct (Split_nonempty sep s) as (x & xs & ->).
Qed.

Lemma Cut_app (sep : ascii) (s t : string) :
  contains sep s = false → Cut sep (s +:+ String sep t) = (s, t, true).
Proof.
  induction s as [|c s IH]; intros Hs.
  - rewrite app_nil_l. simpl. by rewrite Ascii.eqb_refl.
  - rewrite contains_cons in Hs. apply orb_false_elim in Hs as [Hc Hs].
    rewrite app_cons. simpl. by rewrite Hc, (IH Hs).
Qed.

End strings.

(** ** Query escaping *)

Section escaping.

Import Bytes url.

(** What [escape] writes for one byte of a query component: the byte
    itself (an unreserved one), a plus sign for a space, or a percent sign
    and two hexadecimal digits that decode to the byte. *)
Lemma escape_query_byte (c : ascii) (s : string) :
  (one_of "&=;%+" c = false
     ∧ QueryEscape (String c s) = String c (QueryEscape s))
  ∨ (c = " "%char ∧ QueryEscape (String c s) = String "+" (QueryEscape s))
  ∨ (∃ a b, QueryEscape (String c s) = String "%" (String a (String b (QueryEscape s)))
        ∧ ishex a = true ∧ ishex b = true ∧ chr (unhex a * 16 + unhex b) = c
        ∧ one_of "&=;" a = false ∧ one_of "&=;" b = false).
Proof.
  destruct c as [[] [] [] [] [] [] [] []];
    first [ left; split; reflexivity
          | right; left; split; reflexivity
          | right; right; eexists _, _; repeat split; reflexivity ].
Qed.

(** [QueryUnescape] undoes [QueryEscape]. *)
Lemma QueryUnescape_QueryEscape (s : string) :
  QueryUnescape (QueryEscape s) = Some s.
Proof.
  induction s as [|c s IH]; [done|].
  destruct (escape_query_byte c s) as [(Hc & ->)|[(-> & ->)|(a & b & -> & Ha & Hb & Hab & _)]].
  - unfold QueryUnescape in *. simpl.
    assert (Ascii.eqb c "%" = false ∧ Ascii.eqb c "+" = false) as [-> ->].
    { simpl in Hc. by destruct (Ascii.eqb c "%"), (Ascii.eqb c "+"), (Ascii.eqb c "&"),
        (Ascii.eqb c "="), (Ascii.eqb c ";"). }
    by rewrite IH.
  - unfold QueryUnescape in *. simpl. by rewrite IH.
  - unfold QueryUnescape in *. simpl. rewrite Ha, Hb. simpl. by rewrite IH, Hab.
Qed.

(** The escaped form holds no separator of the query syntax. *)
Lemma QueryEscape_clean (sep : ascii) (s : string) :
  one_of "&=;" sep = true → contains sep (QueryEscape s) = false.
Proof.
  intros Hsep. induction s as [|c s IH]; [done|].
  destruct (escape_query_byte c s) as [(Hc & ->)|[(-> & ->)|(a & b & -> & _ & _ & _ & Ha & Hb)]];
    rewrite ?contains_cons, IH, ?orb_false_r.
  - destruct (Ascii.eqb_spec c sep) as [->|]; [|done].
    simpl in Hc, Hsep. destruct (Ascii.eqb sep "&"), (Ascii.eqb sep "="), (Ascii.eqb sep ";");
      simpl in *; try done. all: by rewrite ?orb_true_r in Hc.
  - destruct (Ascii.eqb_spec "+" sep) as [<-|]; done.
  - destruct (Ascii.eqb_spec a sep) as [->|]; [congruence|].
    destruct (Ascii.eqb_spec b sep) as [->|]; [congruence|].
    destruct (Ascii.eqb_spec "%" sep) as [<-|]; done.
Qed.

End escaping.

(** ** Query values: parsing undoes encoding *)

Section values.

Import Bytes url Values.

Lemma segment_clean (k x : string) : contains "&" (segment k x) = false.
Proof.
  unfold segment. rewrite !contains_app, !QueryEscape_clean by done. done.
Qed.

Lemma parse_segment_empty (m : Values) : parse_segment m EmptyString = m.
Proof. done. Qed.

Lemma parse_segment_pair (m : Values) (k x : string) :
  parse_segment m (segment k x) = add_value k m x.
Proof.
  unfold parse_segment, segment.
  rewrite !contains_app, !QueryEscape_clean by done. simpl.
  rewrite is_empty_app; simpl. rewrite andb_false_r.
  change ("=" +:+ QueryEscape x) with (String "=" (QueryEscape x)).
  rewrite Cut_app by (by apply QueryEscape_clean).
  by rewrite !QueryUnescape_QueryEscape.
Qed.

(** Reading back the buffer after one more pair was written. *)
Lemma parse_write_pair (buf k x : string) :
  ParseQuery (write_pair (QueryEscape k) buf x) = add_value k (ParseQuery buf) x.
Proof.
  unfold ParseQuery, write_pair. fold (segment k x).
  destruct buf as [|c buf]; simpl is_empty; cbv iota.
  - rewrite app_nil_l, (Split_without _ _ (segment_clean k x)). simpl.
    by rewrite parse_segment_pair.
  - rewrite app_assoc. change ("&" +:+ segment k x) with (String "&" (segment k x)).
    rewrite Split_app, (Split_without _ _ (segment_clean k x)), foldl_app. simpl.
    by rewrite parse_segment_pair.
Qed.

Lemma parse_write_values (buf k : string) (xs : list string) :
  ParseQuery (foldl (write_pair (QueryEscape k)) buf xs)
  = foldl (add_value k) (ParseQuery buf) xs.
Proof.
  revert buf. induction xs as [|x xs IH]; intros buf; simpl; [done|].
  by rewrite IH, parse_write_pair.
Qed.

Lemma parse_write_keys (v : Values) (buf : string) (ks : list string) :
  ParseQuery (foldl (λ buf k, foldl (write_pair (QueryEscape k)) buf (index v k)) buf ks)
  = foldl (λ m k, foldl (add_value k) m (index v k)) (ParseQuery buf) ks.
Proof.
  revert buf. induction ks as [|k ks IH]; intros buf; simpl; [done|].
  by rewrite IH, parse_write_values.
Qed.

Lemma index_insert (m : Values) (k : string) (xs : list string) :
  index (<[k := xs]> m) k = xs.
Proof. unfold index. by rewrite lookup_insert_eq. Qed.

Lemma add_values (k : string) (m : Values) (xs : list string) :
  xs ≠ [] → foldl (add_value k) m xs = <[k := index m k ++ xs]> m.
Proof.
  revert m. induction xs as [|x xs IH]; intros m Hxs; [done|]. simpl.
  destruct xs as [|y xs]; [done|].
  rewrite IH by done. unfold add_value at 1 2.
  by rewrite index_insert, insert_insert_eq, <- (assoc_L (++)).
Qed.

Lemma lookup_add_keys (v m : Values) (ks : list string) (i : string) :
  NoDup ks → populated v →
  foldl (λ m k, foldl (add_value k) m (index v k)) m ks !! i
  = if decide (i ∈ ks ∧ is_Some (v !! i)) then Some (index m i ++ index v i) else m !! i.
Proof.
  intros Hks Hv. revert m. induction Hks as [|k ks Hk Hks IH]; intros m; cbn [foldl].
  { rewrite decide_False; [done|]. intros [H _]. by apply elem_of_nil in H. }
  rewrite IH. destruct (v !! k) as [xs|] eqn:Hvk.
  - assert (xs ≠ []) as Hxs by (intros ->; by apply (Hv k)).
    assert (index v k = xs) as Hik by (unfold index; by rewrite Hvk).
    rewrite Hik, add_values by done.
    destruct (decide (i = k)) as [->|Hne].
    + rewrite lookup_insert_eq, Hik, Hvk.
      rewrite decide_False by (intros [? _]; done).
      rewrite decide_True by (split; [left|eauto]). done.
    + rewrite lookup_insert_ne by done. unfold index at 1. rewrite lookup_insert_ne by done.
      fold (index m i).
      apply decide_ext. rewrite elem_of_cons. tauto.
  - assert (index v k = []) as -> by (unfold index; by rewrite Hvk). cbn [foldl].
    apply decide_ext. rewrite elem_of_cons. split; [tauto|].
    intros [[->|?] [? ?]]; [congruence|eauto].
Qed.

Lemma elem_of_sorted_keys (v : Values) (k : string) :
  k ∈ sorted_keys v ↔ is_Some (v !! k).
Proof.
  unfold sorted_keys. rewrite merge_sort_Permutation, list_elem_of_fmap. split.
  - intros ([k' xs] & -> & H%elem_of_map_to_list). eauto.
  - intros [xs H]. exists (k, xs). split; [done|]. by apply elem_of_map_to_list.
Qed.

Lemma NoDup_sorted_keys (v : Values) : NoDup (sorted_keys v).
Proof. unfold sorted_keys. rewrite merge_sort_Permutation. apply NoDup_fst_map_to_list. Qed.

(** [ParseQuery] reads back what [Encode] wrote. *)
Lemma ParseQuery_Encode (v : Values) : populated v → ParseQuery (Encode v) = v.
Proof.
  intros Hv. unfold Encode. rewrite parse_write_keys. apply map_eq. intros i.
  rewrite lookup_add_keys by (by auto using NoDup_sorted_keys).
  change (ParseQuery EmptyString) with (∅ : Values).
  case_decide as H.
  - destruct H as [_ [xs Hxs]]. unfold index. by rewrite lookup_empty, Hxs.
  - rewrite lookup_empty. destruct (v !! i) eqn:Hvi; [|done].
    destruct H. split; [|by eauto]. apply elem_of_sorted_keys. by eauto.
Qed.

Lemma populated_empty : populated ∅.
Proof. intros k. by rewrite lookup_empty. Qed.

Lemma populated_insert (v : Values) (k : string) (xs : list string) :
  xs ≠ [] → populated v → populated (<[k := xs]> v).
Proof.
  intros Hxs Hv i. destruct (decide (k = i)) as [->|Hne].
  - rewrite lookup_insert_eq. congruence.
  - rewrite lookup_insert_ne by done. apply Hv.
Qed.

Lemma populated_parse_segment (m : Values) (key : string) :
  populated m → populated (parse_segment m key).
Proof.
  intros Hm. unfold parse_segment.
  destruct (contains ";" key); [done|]. destruct (is_empty key); [done|].
  destruct (Cut "=" key) as [[k x] ?].
  destruct (QueryUnescape k); [|done]. destruct (QueryUnescape x); [|done].
  apply populated_insert; [|done]. by destruct (index m _).
Qed.

Lemma populated_ParseQuery (query : string) : populated (ParseQuery query).
Proof.
  unfold ParseQuery. generalize (Split "&" query). intros l.
  assert (∀ m, populated m → populated (foldl parse_segment m l)) as H.
  { induction l as [|x l IH]; intros m Hm; simpl; [done|].
    by apply IH, populated_parse_segment. }
  apply H, populated_empty.
Qed.

Lemma populated_Set (v : Values) (key value : string) :
  populated v → populated (Set' v key value).
Proof. intros Hv. by apply populated_insert. Qed.

End values.

(** ** JSON: a newline after a text *)

Section json_newline.

Import Bytes json.

Lemma skip_space_newline (s : string) :
  skip_space (s +:+ newline)
  = match skip_space s with
    | EmptyString => EmptyString
    | String c r => String c (r +:+ newline)
    end.
Proof.
  induction s as [|c s IH]; [reflexivity|].
  rewrite app_cons. simpl. destruct (isSpace c); [exact IH|reflexivity].
Qed.

Lemma push_Some (c : ascii) (r : option (string * string)) (lit rest : string) :
  push c r = Some (lit, rest) →
  ∃ lit', lit = String c lit' ∧ r = Some (lit', rest).
Proof. destruct r as [[lit' rest']|]; [|done]. intros [= <- <-]. by eauto. Qed.

Lemma scan_string_cons (c : ascii) (rest : string) :
  scan_string (String c rest)
  = if Ascii.eqb c dquote then Some (EmptyString, rest)
    else if Ascii.eqb c "\" then
      match rest with
      | String e rest' =>
          if one_of "bfnrt\/" e || Ascii.eqb e dquote then push c (push e (scan_string rest'))
          else if Ascii.eqb e "u" then
            match rest' with
            | String h1 (String h2 (String h3 (String h4 rest''))) =>
                if is_hex h1 && is_hex h2 && is_hex h3 && is_hex h4
                then push c (push e (push h1 (push h2 (push h3 (push h4 (scan_string rest''))))))
                else None
            | _ => None
            end
          else None
      | EmptyString => None
      end
    else if code c <? 32 then None
    else push c (scan_string rest).
Proof. reflexivity. Qed.

Lemma scan_string_app_bounded (n : nat) (s lit rest t : string) :
  (String.length s < n)%nat →
  scan_string s = Some (lit, rest) →
  scan_string (s +:+ t) = Some (lit, rest +:+ t).
Proof.
  revert s lit rest. induction n as [|n IH]; intros s lit rest Hn; [lia|].
  destruct s as [|c s]; [done|]. rewrite app_cons, !scan_string_cons. simpl in Hn.
  destruct (Ascii.eqb c dquote); [by intros [= <- <-]|].
  destruct (Ascii.eqb c "\").
  - destruct s as [|e s]; [done|]. rewrite app_cons. simpl in Hn.
    destruct (one_of "bfnrt\/" e || Ascii.eqb e dquote).
    + intros (l1 & -> & (l2 & -> & Hs)%push_Some)%push_Some.
      rewrite (IH s l2 rest) by (done || lia). reflexivity.
    + destruct (Ascii.eqb e "u"); [|done].
      destruct s as [|h1 [|h2 [|h3 [|h4 s]]]]; try done. rewrite !app_cons. simpl in Hn.
      destruct (is_hex h1 && is_hex h2 && is_hex h3 && is_hex h4); [|done].
      intros (l1 & -> & (l2 & -> & (l3 & -> & (l4 & -> & (l5 & -> & (l6 & -> & Hs)
        %push_Some)%push_Some)%push_Some)%push_Some)%push_Some)%push_Some.
      rewrite (IH s l6 rest) by (done || lia). reflexivity.
  - destruct (code c <? 32); [done|].
    intros (l1 & -> & Hs)%push_Some.
    rewrite (IH s l1 rest) by (done || lia). reflexivity.
Qed.

Lemma scan_string_app (s lit rest t : string) :
  scan_string s = Some (lit, rest) → scan_string (s +:+ t) = Some (lit, rest +:+ t).
Proof. apply (scan_string_app_bounded (S (String.length s))). lia. Qed.

Lemma span_digits_newline (s : string) :
  span_digits (s +:+ newline) = ((span_digits s).1, (span_digits s).2 +:+ newline).
Proof.
  induction s as [|c s IH]; [reflexivity|].
  rewrite app_cons. simpl. destruct (is_digit c); [|reflexivity].
  rewrite IH. by destruct (span_digits s).
Qed.

Lemma strip_prefix_app (p s r t : string) :
  strip_prefix p s = Some r → strip_prefix p (s +:+ t) = Some (r +:+ t).
Proof.
  revert s. induction p as [|a p IH]; intros s; simpl.
  - by intros [= ->].
  - destruct s as [|b s]; [done|]. rewrite app_cons.
    destruct (Ascii.eqb a b); [apply IH|done].
Qed.

Lemma scan_fraction_newline (s part rest : string) :
  scan_fraction s = Some (part, rest) →
  scan_fraction (s +:+ newline) = Some (part, rest +:+ newline).
Proof.
  unfold scan_fraction. destruct s as [|c s]; [by intros [= <- <-]|].
  rewrite app_cons. destruct (Ascii.eqb c "."); [|by intros [= <- <-]].
  rewrite span_digits_newline. destruct (span_digits s) as [ds r]. simpl.
  destruct (is_empty ds); [done|]. by intros [= <- <-].
Qed.

Lemma scan_exponent_newline (s part rest : string) :
  scan_exponent s = Some (part, rest) →
  scan_exponent (s +:+ newline) = Some (part, rest +:+ newline).
Proof.
  unfold scan_exponent. destruct s as [|c s]; [by intros [= <- <-]|].
  rewrite app_cons. destruct (Ascii.eqb c "e" || Ascii.eqb c "E"); [|by intros [= <- <-]].
  destruct s as [|x s]; [done|]. rewrite app_cons.
  destruct (Ascii.eqb x "+" || Ascii.eqb x "-").
  - rewrite span_digits_newline. destruct (span_digits s) as [ds r]. simpl.
    destruct (is_empty ds); [done|]. by intros [= <- <-].
  - rewrite <- app_cons, span_digits_newline.
    destruct (span_digits (String x s)) as [ds r]. simpl.
    destruct (is_empty ds); [done|]. by intros [= <- <-].
Qed.

Lemma scan_unsigned_newline (sign s lit rest : string) :
  scan_unsigned sign s = Some (lit, rest) →
  scan_unsigned sign (s +:+ newline) = Some (lit, rest +:+ newline).
Proof.
  unfold scan_unsigned. destruct s as [|d s]; [done|]. rewrite app_cons.
  destruct (is_digit d); [|done].
  assert (∀ int_part s2,
    match scan_fraction s2 with
    | None => None
    | Some (frac_part, s3) =>
        match scan_exponent s3 with
        | None => None
        | Some (exp_part, rest) => Some (sign +:+ int_part +:+ frac_part +:+ exp_part, rest)
        end
    end = Some (lit, rest) →
    match scan_fraction (s2 +:+ newline) with
    | None => None
    | Some (frac_part, s3) =>
        match scan_exponent s3 with
        | None => None
        | Some (exp_part, rest) => Some (sign +:+ int_part +:+ frac_part +:+ exp_part, rest)
        end
    end = Some (lit, rest +:+ newline)) as Hparts.
  { intros int_part s2.
    destruct (scan_fraction s2) as [[frac_part s3]|] eqn:Hf; [|done].
    rewrite (scan_fraction_newline _ _ _ Hf).
    destruct (scan_exponent s3) as [[exp_part r]|] eqn:He; [|done].
    rewrite (scan_exponent_newline _ _ _ He). by intros [= <- <-]. }
  destruct (Ascii.eqb d "0"); [apply Hparts|].
  rewrite span_digits_newline. destruct (span_digits s) as [ds r]. apply Hparts.
Qed.

Lemma scan_number_newline (s lit rest : string) :
  scan_number s = Some (lit, rest) →
  scan_number (s +:+ newline) = Some (lit, rest +:+ newline).
Proof.
  unfold scan_number. destruct s as [|c s]; [done|]. rewrite app_cons.
  destruct (Ascii.eqb c "-"); [apply scan_unsigned_newline|].
  intros Hs. exact (scan_unsigned_newline EmptyString (String c s) _ _ Hs).
Qed.

Lemma strip_prefix_newline_None (p s : string) :
  contains "010" p = false →
  strip_prefix p s = None → strip_prefix p (s +:+ newline) = None.
Proof.
  revert s. induction p as [|a p IH]; intros s Hp; simpl; [done|].
  rewrite contains_cons in Hp. apply orb_false_elim in Hp as [Ha Hp].
  destruct s as [|b s].
  - intros _. simpl. by rewrite Ha.
  - rewrite app_cons. destruct (Ascii.eqb a b); [by apply IH|done].
Qed.

Lemma skip_space_empty_newline (s : string) :
  is_empty (skip_space s) = true → is_empty (skip_space (s +:+ newline)) = true.
Proof. rewrite skip_space_newline. by destruct (skip_space s). Qed.

Local Opaque skip_space scan_string scan_number strip_prefix unquote.

Lemma parse_newline (n : nat) : value_newline n ∧ elements_newline n ∧ members_newline n.
Proof.
  induction n as [|n (IHv & IHe & IHm)]; [by repeat split; intros ??????|].
  repeat split.
  - intros d s v rest [|m] Hp Hm; [lia|]. simpl in Hp |- *.
    rewrite skip_space_newline. destruct (skip_space s) as [|c r]; [done|].
    destruct (Ascii.eqb c "{").
    { destruct (maxNestingDepth <? d + 1); [done|].
      rewrite skip_space_newline. destruct (skip_space r) as [|c' r']; [done|].
      destruct (Ascii.eqb c' "}"); [by injection Hp as <- <-|].
      destruct (parse_members n (d + 1) r) as [[ms r'']|] eqn:Hms; [|done].
      rewrite (IHm _ _ _ _ m Hms) by lia. by injection Hp as <- <-. }
    destruct (Ascii.eqb c "[").
    { destruct (maxNestingDepth <? d + 1); [done|].
      rewrite skip_space_newline. destruct (skip_space r) as [|c' r']; [done|].
      destruct (Ascii.eqb c' "]"); [by injection Hp as <- <-|].
      destruct (parse_elements n (d + 1) r) as [[vs r'']|] eqn:Hvs; [|done].
      rewrite (IHe _ _ _ _ m Hvs) by lia. by injection Hp as <- <-. }
    destruct (Ascii.eqb c dquote).
    { destruct (scan_string r) as [[lit r']|] eqn:Hlit; [|done].
      rewrite (scan_string_app _ _ _ newline Hlit). by injection Hp as <- <-. }
    destruct (Ascii.eqb c "-" || is_digit c).
    { destruct (scan_number (String c r)) as [[lit r']|] eqn:Hlit; [|done].
      rewrite <- app_cons, (scan_number_newline _ _ _ Hlit). by injection Hp as <- <-. }
    rewrite <- !app_cons.
    destruct (strip_prefix "true" (String c r)) as [r'|] eqn:Ht.
    { rewrite (strip_prefix_app _ _ _ newline Ht). by injection Hp as <- <-. }
    rewrite (strip_prefix_newline_None "true" _ eq_refl Ht).
    destruct (strip_prefix "false" (String c r)) as [r'|] eqn:Hf.
    { rewrite (strip_prefix_app _ _ _ newline Hf). by injection Hp as <- <-. }
    rewrite (strip_prefix_newline_None "false" _ eq_refl Hf).
    destruct (strip_prefix "null" (String c r)) as [r'|] eqn:Hn; [|done].
    rewrite (strip_prefix_app _ _ _ newline Hn). by injection Hp as <- <-.
  - intros d s vs rest [|m] Hp Hm; [lia|]. simpl in Hp |- *.
    destruct (parse_value n d s) as [[v r]|] eqn:Hv; [|done].
    rewrite (IHv _ _ _ _ m Hv) by lia.
    rewrite skip_space_newline. destruct (skip_space r) as [|c r']; [done|].
    destruct (Ascii.eqb c ",").
    { destruct (parse_elements n d r') as [[vs' r'']|] eqn:Hvs; [|done].
      rewrite (IHe _ _ _ _ m Hvs) by lia. by injection Hp as <- <-. }
    destruct (Ascii.eqb c "]"); [|done]. by injection Hp as <- <-.
  - intros d s ms rest [|m] Hp Hm; [lia|]. simpl in Hp |- *.
    rewrite skip_space_newline. destruct (skip_space s) as [|q r]; [done|].
    destruct (Ascii.eqb q dquote); [|done].
    destruct (scan_string r) as [[lit r1]|] eqn:Hlit; [|done].
    rewrite (scan_string_app _ _ _ newline Hlit).
    rewrite skip_space_newline. destruct (skip_space r1) as [|colon r2]; [done|].
    destruct (Ascii.eqb colon ":"); [|done].
    destruct (parse_value n d r2) as [[v r3]|] eqn:Hv; [|done].
    rewrite (IHv _ _ _ _ m Hv) by lia.
    rewrite skip_space_newline. destruct (skip_space r3) as [|c r4]; [done|].
    destruct (Ascii.eqb c ",").
    { destruct (parse_members n d r4) as [[ms' r5]|] eqn:Hms; [|done].
      rewrite (IHm _ _ _ _ m Hms) by lia. by injection Hp as <- <-. }
    destruct (Ascii.eqb c "}"); [|done]. by injection Hp as <- <-.
Qed.

Lemma length_app (s t : string) :
  String.length (s +:+ t) = (String.length s + String.length t)%nat.
Proof. induction s as [|c s IH]; [done|]. rewrite app_cons. simpl. by rewrite IH. Qed.

(** A text followed by a newline is the JSON text of the same value. *)
Lemma parse_then_newline (data : string) (v : value) :
  parse data = Some v → parse (data +:+ newline) = Some v.
Proof.
  unfold parse.
  destruct (parse_value _ 0 data) as [[v' rest]|] eqn:Hv; [|done].
  destruct (parse_newline (2 * String.length data + 2)) as [Hn _].
  rewrite (Hn _ _ _ _ (2 * String.length (data +:+ newline) + 2)%nat Hv)
    by (rewrite length_app; lia).
  destruct (is_empty (skip_space rest)) eqn:He; [|done].
  by rewrite (skip_space_empty_newline _ He).
Qed.

End json_newline.
(** ** The segments of a query *)

Section segments.

Import Bytes url librariesio spec engine.

Lemma parse_segment_skipped (m : Values) (segment : string) :
  skipped segment = true → Values.parse_segment m segment = m.
Proof.
  unfold skipped, Values.parse_segment.
  destruct (contains ";" segment); [done|]. destruct (is_empty segment); [done|]. simpl.
  destruct (Cut "=" segment) as [[key value] found].
  destruct (QueryUnescape key); [|done]. by destruct (QueryUnescape value).
Qed.

Lemma foldl_parse_kept (m : Values) (segments : list string) :
  foldl Values.parse_segment m (kept segments) = foldl Values.parse_segment m segments.
Proof.
  revert m. induction segments as [|segment segments IH]; intros m; [done|].
  unfold kept. simpl. destruct (skipped segment) eqn:Hs; simpl.
  - rewrite (parse_segment_skipped _ _ Hs). apply IH.
  - apply IH.
Qed.

Lemma Split_join (segments : list string) :
  segments ≠ [] →
  Forall (λ segment, contains "&" segment = false) segments →
  Split "&" (join segments) = segments.
Proof.
  intros Hne Hall. induction Hall as [|segment segments Hseg Hall IH]; [done|].
  destruct segments as [|segment' segments'].
  - simpl. by apply Split_without.
  - change (join (segment :: segment' :: segments'))
      with (segment +:+ String "&" (join (segment' :: segments'))).
    rewrite Split_app, IH by done. by rewrite (Split_without _ _ Hseg).
Qed.

Lemma ParseQuery_join (segments : list string) :
  Forall (λ segment, contains "&" segment = false) segments →
  Values.ParseQuery (join segments) = foldl Values.parse_segment ∅ segments.
Proof.
  intros Hall. unfold Values.ParseQuery. destruct segments as [|segment segments]; [done|].
  by rewrite Split_join.
Qed.

(** What [URL.Query] reads: the segments that are kept. *)
Lemma Query_kept (u : URL.t) :
  URL.Query u = foldl Values.parse_segment ∅ (kept (Split "&" (URL.RawQuery u))).
Proof. unfold URL.Query, Values.ParseQuery. by rewrite foldl_parse_kept. Qed.

End segments.


(** ** The secret redactor *)

(** Unfolds the operations of the state monad. *)
Ltac unfold_M :=
  unfold mbind, mret, M_bind, M_ret, M.bind, M.ret, M.lift, M.deref, M.panic, M.beyond,
    M.load_url, M.store_url, M.alloc_url, M.load_body, M.store_body, M.alloc_body, M.emit in *.

Section redactor.

Import librariesio spec engine.

Lemma redactAPIKey_run (σ : state) (l : loc) (u : URL.t) :
  urls σ !! l = Some u →
  redactAPIKey (Some l) σ = Ok (Some l, with_url l (redacted u) σ).
Proof.
  intros Hl. unfold redactAPIKey. unfold_M. rewrite Hl. simpl. by rewrite Hl.
Qed.

Lemma Query_redacted (u : URL.t) :
  URL.Query (redacted u) = <["api_key" := ["REDACTED"]]> (URL.Query u).
Proof.
  unfold redacted, URL.Query at 1. simpl.
  apply ParseQuery_Encode, populated_Set, populated_ParseQuery.
Qed.

Lemma redacted_idemp (u : URL.t) : redacted (redacted u) = redacted u.
Proof.
  unfold redacted at 1. rewrite Query_redacted.
  unfold Values.Set'. rewrite insert_insert_eq. by destruct u.
Qed.

Lemma with_url_with_url (l : loc) (u v : URL.t) (σ : state) :
  with_url l v (with_url l u σ) = with_url l v σ.
Proof. unfold with_url. simpl. by rewrite insert_insert_eq. Qed.

Lemma lookup_with_url (l : loc) (u : URL.t) (σ : state) :
  urls (with_url l u σ) !! l = Some u.
Proof. apply lookup_insert_eq. Qed.

(** C3, amended.  For every URL whose query holds an api_key parameter,
    [redactAPIKey] leaves REDACTED as the one value of api_key, whatever
    values and however many it held, and leaves scheme, opaque part, user,
    host, path and fragment as they were.  The query is written anew, not
    patched: it is the encoding, sorted by key and escaped afresh, of what
    [URL.Query] read, with api_key set.  Every other parameter that was
    read keeps its values; what was read is what the segments give that
    are kept, so that a segment that does not parse, for a semicolon or a
    bad escape, and an empty segment are gone.  Redaction is idempotent:
    redacting the redacted URL again leaves the state as it is. *)
Theorem redactAPIKey_replaces_only_api_key (σ : state) (l : loc) (u : URL.t) :
  urls σ !! l = Some u →
  is_Some (URL.Query u !! "api_key") →
  ∃ σ' u',
    redactAPIKey (Some l) σ = Ok (Some l, σ') ∧ urls σ' !! l = Some u'
    ∧ URL.Query u' !! "api_key" = Some ["REDACTED"]
    ∧ (∀ k, k ≠ "api_key" → URL.Query u' !! k = URL.Query u !! k)
    ∧ URL.Scheme u' = URL.Scheme u ∧ URL.Opaque u' = URL.Opaque u
    ∧ URL.User u' = URL.User u ∧ URL.Host u' = URL.Host u
    ∧ URL.Path u' = URL.Path u ∧ URL.RawPath u' = URL.RawPath u
    ∧ URL.OmitHost u' = URL.OmitHost u ∧ URL.ForceQuery u' = URL.ForceQuery u
    ∧ URL.Fragment u' = URL.Fragment u ∧ URL.RawFragment u' = URL.RawFragment u
    ∧ redactAPIKey (Some l) σ' = Ok (Some l, σ')
    ∧ URL.RawQuery u' = Values.Encode (<["api_key" := ["REDACTED"]]> (URL.Query u))
    ∧ URL.Query u' = <["api_key" := ["REDACTED"]]> (URL.Query u)
    ∧ URL.Query u
      = foldl Values.parse_segment ∅ (kept (Bytes.Split "&" (URL.RawQuery u)))
    ∧ (∀ segments,
         URL.RawQuery u = join segments →
         Forall (λ segment, Bytes.contains "&" segment = false) segments →
         u' = redacted (URL.set_RawQuery (join (kept segments)) u)).
Proof.
  intros Hl _. exists (with_url l (redacted u) σ), (redacted u).
  split; [by apply redactAPIKey_run|]. split; [by apply lookup_with_url|].
  rewrite Query_redacted. split; [by apply lookup_insert_eq|].
  split; [by intros k Hk; apply lookup_insert_ne|].
  repeat (split; [done|]).
  split.
  { rewrite (redactAPIKey_run _ l (redacted u)) by apply lookup_with_url.
    by rewrite redacted_idemp, with_url_with_url. }
  split; [done|]. split; [done|]. split; [apply Query_kept|].
  intros segments Hraw Hall.
  assert (Forall (λ segment, Bytes.contains "&" segment = false) (kept segments)) as Hkept.
  { clear -Hall. unfold kept. induction Hall as [|segment segments' Hseg Hall IH]; [done|].
    simpl. destruct (skipped segment); simpl; [done|]. by constructor. }
  unfold redacted. unfold URL.Query at 2. cbn [URL.RawQuery URL.set_RawQuery].
  rewrite (ParseQuery_join _ Hkept), foldl_parse_kept, <- (ParseQuery_join _ Hall), <- Hraw.
  fold (URL.Query u). by destruct u.
Qed.

(** C9.  For every URL whose query holds no api_key parameter at all,
    [redactAPIKey] inserts one: the query of the result holds
    api_key=REDACTED, so neither the parsed query nor [RawQuery] is what it
    was in the input. *)
Theorem redactAPIKey_inserts_api_key (σ : state) (l : loc) (u : URL.t) :
  urls σ !! l = Some u →
  URL.Query u !! "api_key" = None →
  ∃ σ' u',
    redactAPIKey (Some l) σ = Ok (Some l, σ') ∧ urls σ' !! l = Some u'
    ∧ URL.Query u' !! "api_key" = Some ["REDACTED"]
    ∧ URL.Query u' ≠ URL.Query u
    ∧ URL.RawQuery u' ≠ URL.RawQuery u.
Proof.
  intros Hl Hnone. exists (with_url l (redacted u) σ), (redacted u).
  split; [by apply redactAPIKey_run|]. split; [by apply lookup_with_url|].
  assert (URL.Query (redacted u) !! "api_key" = Some ["REDACTED"]) as Hq.
  { rewrite Query_redacted. by apply lookup_insert_eq. }
  split; [done|].
  assert (URL.Query (redacted u) ≠ URL.Query u) as Hne.
  { intros Heq. rewrite Heq in Hq. congruence. }
  split; [done|]. intros Heq. apply Hne. unfold URL.Query. by rewrite Heq.
Qed.

End redactor.

(** C3, counterexample.  The query
    [zeta=1&api_key=S&a=1;b=2&%zz=1&flag&q=a%20b&api_key=T] holds api_key.
    After [redactAPIKey] it is [api_key=REDACTED&flag=&q=a+b&zeta=1]: the
    segments with the semicolon and with the bad escape are gone, the
    second api_key is gone, and what is left is sorted and escaped anew.
    More than the value of api_key has changed. *)
Lemma redactAPIKey_rewrites_the_query :
  URL.RawQuery engine.crowded_url = "zeta=1&api_key=S&a=1;b=2&%zz=1&flag&q=a%20b&api_key=T"
  ∧ URL.Query engine.crowded_url !! "api_key" = Some ["S"; "T"]
  ∧ engine.raw_query_at 0%nat
      (librariesio.redactAPIKey (Some 0%nat)
         (examples.state_of engine.crowded_url EmptyString))
    = Some "api_key=REDACTED&flag=&q=a+b&zeta=1".
Proof. split; [reflexivity|]. split; vm_compute; reflexivity. Qed.

(** ** Rendering an error *)

Section rendering.

Import http librariesio spec engine.

Variable IsPrint_table : Z → bool.

(** The rendering of an error whose pointers are not nil. *)
Lemma Error_run (r : ErrorResponse.t) (resp : Response.t) (req : Request.t)
    (l : loc) (u : URL.t) (σ : state) :
  ErrorResponse.Response r = Some resp →
  Response.Request resp = Some req →
  Request.URL req = Some l →
  urls σ !! l = Some u →
  Error IsPrint_table r σ
  = Ok (Request.Method req +:+ " " +:+ URL.String' (redacted u) +:+ ": "
          +:+ strconv.Itoa (Response.StatusCode resp) +:+ " "
          +:+ strconv.Quote IsPrint_table (ErrorResponse.Message r),
        with_url l (redacted u) σ).
Proof.
  intros Hresp Hreq Hurl Hl. unfold Error.
  unfold mbind at 1, M_bind, M.bind at 1, M.deref. rewrite Hresp.
  unfold mbind at 1, M.bind at 1. rewrite Hreq.
  unfold mbind at 1, M.bind at 1. rewrite Hurl, (redactAPIKey_run _ _ _ Hl).
  unfold mbind, M.bind, M.load_url. rewrite lookup_with_url. reflexivity.
Qed.

(** [Error] panics, or all its pointers lead somewhere. *)
Lemma Error_outcome (r : ErrorResponse.t) (σ : state) :
  Error IsPrint_table r σ = Panic
  ∨ ∃ resp req l u,
      ErrorResponse.Response r = Some resp ∧ Response.Request resp = Some req
      ∧ Request.URL req = Some l ∧ urls σ !! l = Some u.
Proof.
  unfold Error, redactAPIKey. unfold_M.
  destruct (ErrorResponse.Response r) as [resp|] eqn:Hresp; [|by left].
  destruct (Response.Request resp) as [req|] eqn:Hreq; [|by left].
  destruct (Request.URL req) as [l|] eqn:Hurl; [|by left].
  destruct (urls σ !! l) as [u|] eqn:Hl; [|by left].
  right. by exists resp, req, l, u.
Qed.

(** C7, amended.  The text of an [ErrorResponse] whose response, the
    request of that response and the URL of that request are not nil is
    the method, a space, the redacted URL, a colon and a space, the status
    code in decimal, a space and the message as [%q] quotes it; the
    redacted URL holds api_key=REDACTED.  When one of the three pointers
    is nil, and only then, [Error] panics and there is no text.  In
    particular the error with status 400 and message Nope Nope Nope for
    the request GET https://service/api/pypi/poyo?api_key=SECRET reads
    [GET https://service/api/pypi/poyo?api_key=REDACTED: 400 "Nope Nope Nope"],
    and a message with double quotes, a newline, a tab, a backslash and
    bytes that do not print comes out with its escapes. *)
Theorem Error_renders (r : ErrorResponse.t) (σ : state) :
  (∀ resp req l u,
     ErrorResponse.Response r = Some resp →
     Response.Request resp = Some req →
     Request.URL req = Some l →
     urls σ !! l = Some u →
     Error IsPrint_table r σ
     = Ok (Request.Method req +:+ " " +:+ URL.String' (redacted u) +:+ ": "
             +:+ strconv.Itoa (Response.StatusCode resp) +:+ " "
             +:+ strconv.Quote IsPrint_table (ErrorResponse.Message r),
           with_url l (redacted u) σ)
     ∧ URL.Query (redacted u) !! "api_key" = Some ["REDACTED"])
  ∧ (Error IsPrint_table r σ = Panic
     ↔ ¬ ∃ resp req l u,
           ErrorResponse.Response r = Some resp ∧ Response.Request resp = Some req
           ∧ Request.URL req = Some l ∧ urls σ !! l = Some u)
  ∧ (∃ σ', Error IsPrint_table
             (ErrorResponse.mk (Some (examples.response 400 ∅)) "Nope Nope Nope")
             (examples.state_of examples.secret_url EmptyString)
     = Ok ("GET https://service/api/pypi/poyo?api_key=REDACTED: 400 "
             +:+ examples.quoted "Nope Nope Nope", σ'))
  ∧ (∃ σ', Error IsPrint_table
             (ErrorResponse.mk (Some (examples.response 404 ∅)) unruly_message)
             (examples.state_of examples.secret_url EmptyString)
     = Ok ("GET https://service/api/pypi/poyo?api_key=REDACTED: 404 "
             +:+ unruly_quoted, σ')).
Proof.
  split; [|split; [|split]].
  - intros resp req l u Hresp Hreq Hurl Hl. split; [by apply Error_run|].
    rewrite Query_redacted. apply lookup_insert_eq.
  - split.
    + intros Hpanic (resp & req & l & u & Hresp & Hreq & Hurl & Hl).
      by rewrite (Error_run _ _ _ _ _ _ Hresp Hreq Hurl Hl) in Hpanic.
    + intros Hno. destruct (Error_outcome r σ) as [Hp|Hall]; [done|]. by destruct Hno.
  - exists (with_url 0%nat (redacted examples.secret_url)
              (examples.state_of examples.secret_url EmptyString)).
    erewrite Error_run by reflexivity.
    apply (f_equal (λ s : string, Ok (s, _))). vm_compute. reflexivity.
  - exists (with_url 0%nat (redacted examples.secret_url)
              (examples.state_of examples.secret_url EmptyString)).
    erewrite Error_run by reflexivity.
    apply (f_equal (λ s : string, Ok (s, _))).
    assert (strconv.Quote IsPrint_table unruly_message = unruly_quoted) as Hq.
    { unfold strconv.Quote, unruly_message, unruly_quoted. vm_compute. reflexivity. }
    cbn [ErrorResponse.Message]. rewrite Hq. vm_compute. reflexivity.
Qed.

(** C2, amended.  [redactAPIKey] has one side effect: it overwrites the
    field [RawQuery] of the URL object it is given, and returns that same
    object.  Every other field of that URL, every other URL, the body
    streams and the trace are as they were.  Rendering an [ErrorResponse]
    leaves the state in just that way: the URL of the originating request
    then holds the redacted query. *)
Theorem redactAPIKey_overwrites_RawQuery (σ : state) (l : loc) (u : URL.t)
    (r : ErrorResponse.t) (resp : Response.t) (req : Request.t) :
  urls σ !! l = Some u →
  ErrorResponse.Response r = Some resp →
  Response.Request resp = Some req →
  Request.URL req = Some l →
  ∃ σ',
    redactAPIKey (Some l) σ = Ok (Some l, σ')
    ∧ (∃ s, Error IsPrint_table r σ = Ok (s, σ'))
    ∧ urls σ' !! l = Some (URL.set_RawQuery (URL.RawQuery (redacted u)) u)
    ∧ (∀ l', l' ≠ l → urls σ' !! l' = urls σ !! l')
    ∧ bodies σ' = bodies σ
    ∧ trace σ' = trace σ.
Proof.
  intros Hl Hresp Hreq Hurl. exists (with_url l (redacted u) σ).
  split; [by apply redactAPIKey_run|].
  split; [eexists; by apply Error_run|].
  split; [by apply lookup_with_url|].
  split; [|done]. intros l' Hne. unfold with_url. simpl. by apply lookup_insert_ne.
Qed.

End rendering.

(** C2, counterexample.  The URL object
    https://service/api/pypi/poyo?api_key=SECRET is not the same after
    [redactAPIKey] was given it, nor after an [ErrorResponse] of a request
    with that URL was rendered. *)
Lemma redactAPIKey_mutates :
  urls (examples.state_of examples.secret_url EmptyString) !! 0%nat = Some examples.secret_url
  ∧ (∃ σ', librariesio.redactAPIKey (Some 0%nat) (examples.state_of examples.secret_url EmptyString)
           = Ok (Some 0%nat, σ')
           ∧ urls σ' !! 0%nat ≠ Some examples.secret_url)
  ∧ (∃ s σ', librariesio.Error (λ _, false)
               (librariesio.ErrorResponse.mk (Some (examples.response 400 ∅)) "nope")
               (examples.state_of examples.secret_url EmptyString)
             = Ok (s, σ')
             ∧ urls σ' !! 0%nat ≠ Some examples.secret_url).
Proof.
  assert (Some (spec.redacted examples.secret_url) ≠ Some examples.secret_url) as Hne.
  { intros Heq.
    assert (URL.RawQuery (spec.redacted examples.secret_url)
            = URL.RawQuery examples.secret_url) as H by congruence.
    vm_compute in H. discriminate. }
  split; [reflexivity|]. split.
  - eexists. split; [apply redactAPIKey_run; reflexivity|]. by rewrite lookup_with_url.
  - eexists _, _. split; [apply Error_run; reflexivity|]. by rewrite lookup_with_url.
Qed.

(** C7, counterexample.  A response with status 400 has the body
    [{"Response":null}].  The error that [CheckResponse] returns for it
    holds a nil response, and [Error] panics on it: this error has no
    text. *)
Lemma Error_panics_on_checked_response :
  match librariesio.CheckResponse (Some (examples.response 400 ∅))
          (examples.state_of examples.secret_url examples.null_body) with
  | Ok (Some e, σ') =>
      Some (librariesio.ErrorResponse.Response e, librariesio.Error (λ _, false) e σ')
  | _ => None
  end = Some (None, Panic).
Proof. vm_compute. reflexivity. Qed.
(** ** Decoding a body into an error *)

Section decoder.

Import http librariesio spec engine.

Lemma decode_member_Ok (acc : ErrorResponse.t * option json.error)
    (member : string * json.value) :
  object_for_Response member = false →
  ∃ acc', decode_member acc member = Ok acc'.
Proof.
  destruct acc as [e saved], member as [key v]. unfold object_for_Response, decode_member.
  simpl. destruct (select_field key) as [[]|]; [| |by eauto].
  - destruct v; by eauto.
  - destruct v; by eauto.
Qed.

Lemma decode_members_no_Panic (acc : ErrorResponse.t * option json.error)
    (members : list (string * json.value)) :
  decode_members acc members ≠ Panic.
Proof.
  revert acc. induction members as [|[key v] members IH]; intros [e saved]; [done|].
  simpl. destruct (select_field key) as [[]|]; [| |by apply IH].
  - destruct v; try done; by apply IH.
  - destruct v; by apply IH.
Qed.

Lemma Unmarshal_ErrorResponse_no_Panic (data : string) (errResp : ErrorResponse.t) :
  Unmarshal_ErrorResponse data errResp ≠ Panic.
Proof.
  unfold Unmarshal_ErrorResponse. destruct (json.parse data) as [[]|]; try done.
  apply decode_members_no_Panic.
Qed.

(** Decoding the members of an object of which none holds an object for
    the field [Response]. *)
Lemma decode_members_fields (resp : option Response.t) (message : string)
    (saved : option json.error) (members : list (string * json.value)) :
  existsb object_for_Response members = false →
  ∃ saved',
    decode_members (ErrorResponse.mk resp message, saved) members
    = Ok (ErrorResponse.mk (last_Response resp members) (last_message message members),
          saved').
Proof.
  revert resp message saved.
  induction members as [|[key v] members IH]; intros resp message saved Hex; [by eauto|].
  simpl in Hex. apply orb_false_elim in Hex as [Hm Hex].
  unfold object_for_Response in Hm. simpl in Hm |- *.
  destruct (select_field key) as [[]|]; [| |by apply IH].
  - destruct v; try done; simpl; by apply IH.
  - destruct v; simpl; by apply IH.
Qed.

Lemma last_Response_app (resp : option Response.t) (ms ms' : list (string * json.value)) :
  last_Response resp (ms ++ ms') = last_Response (last_Response resp ms) ms'.
Proof.
  revert resp. induction ms as [|[key v] ms IH]; intros resp; [done|]. simpl. apply IH.
Qed.

End decoder.


(** ** The response validator *)

Section validator.

Import http librariesio spec engine.

Lemma ReadAll_run (σ : state) (l : loc) (b : Reader) :
  bodies σ !! l = Some b →
  io.ReadAll (Some l) σ
  = if closed b
    then Ok ((EmptyString, Some (errors.New "http: read on closed response body")), σ)
    else Ok ((unread b, errors.New <$> failure b), with_body l (drained b) σ).
Proof.
  intros Hl. unfold io.ReadAll. unfold_M. rewrite Hl.
  destruct (closed b) eqn:Hc; [done|]. rewrite Hl. unfold with_body, drained. by rewrite Hc.
Qed.

Lemma lookup_with_body (l : loc) (b : Reader) (σ : state) :
  bodies (with_body l b σ) !! l = Some b.
Proof. apply lookup_insert_eq. Qed.

(** Decoding the members of an object that leaves the pointer [Response]
    alone: the message is the last string that went to [Message]. *)
Lemma decode_members_message (resp : Response.t) (members : list (string * json.value))
    (message : string) (saved : option json.error) :
  existsb rewrites_Response members = false →
  ∃ saved',
    decode_members (ErrorResponse.mk (Some resp) message, saved) members
    = Ok (ErrorResponse.mk (Some resp) (last_message message members), saved').
Proof.
  revert message saved.
  induction members as [|[key v] members IH]; intros message saved Hex; [by eauto|].
  simpl in Hex. apply orb_false_elim in Hex as [Hm Hex].
  unfold rewrites_Response in Hm. simpl in Hm |- *.
  destruct (select_field key) as [[]|]; [| |by apply IH].
  - destruct v; try done; simpl; by apply IH.
  - destruct v; simpl; by apply IH.
Qed.

Lemma Unmarshal_message (resp : Response.t) (data : string) :
  reaches_Response data = false →
  ∃ err,
    Unmarshal_ErrorResponse data (ErrorResponse.mk (Some resp) EmptyString)
    = Ok (ErrorResponse.mk (Some resp) (message_of data), err).
Proof.
  unfold reaches_Response, Unmarshal_ErrorResponse, message_of.
  destruct (json.parse data) as [[]|]; intros H; eauto.
  by apply decode_members_message.
Qed.

(** What [CheckResponse] does with a response whose body is the stream
    [b] at [l]. *)
Lemma CheckResponse_run (resp : Response.t) (σ : state) (l : loc) (b : Reader) :
  Response.Body resp = Some l →
  bodies σ !! l = Some b →
  CheckResponse (Some resp) σ
  = if success (Response.StatusCode resp) then Ok (None, σ)
    else if closed b then Ok (Some (ErrorResponse.mk (Some resp) EmptyString), σ)
    else
      match failure b with
      | Some _ => Ok (Some (ErrorResponse.mk (Some resp) EmptyString), with_body l (drained b) σ)
      | None =>
          match Unmarshal_ErrorResponse (unread b) (ErrorResponse.mk (Some resp) EmptyString) with
          | Ok (e, _) => Ok (Some e, with_body l (drained b) σ)
          | Panic => Panic
          | Beyond => Beyond
          end
      end.
Proof.
  intros Hbody Hl. unfold CheckResponse, success.
  unfold mbind at 1, M_bind, M.bind at 1, M.deref.
  destruct (_ && _); [done|].
  unfold mbind at 1, M.bind at 1. rewrite Hbody, (ReadAll_run _ _ _ Hl).
  destruct (closed b); [done|]. destruct (failure b); [done|]. simpl.
  unfold mbind, M.bind, M.lift.
  destruct (Unmarshal_ErrorResponse _ _) as [[e err]| |]; done.
Qed.

Lemma CheckResponse_success (resp : Response.t) (σ : state) :
  success (Response.StatusCode resp) = true → CheckResponse (Some resp) σ = Ok (None, σ).
Proof.
  intros H. unfold CheckResponse, success in *.
  unfold mbind, M_bind, M.bind, M.deref. by rewrite H.
Qed.

(** A response that is rejected has a body stream, or the program
    panics. *)
Lemma CheckResponse_failure_body (resp : Response.t) (σ : state)
    (e : option ErrorResponse.t) (σ' : state) :
  success (Response.StatusCode resp) = false →
  CheckResponse (Some resp) σ = Ok (e, σ') →
  ∃ l b, Response.Body resp = Some l ∧ bodies σ !! l = Some b.
Proof.
  intros Hs. unfold CheckResponse, success in *.
  unfold mbind at 1, M_bind, M.bind at 1, M.deref. rewrite Hs.
  unfold mbind at 1, M.bind at 1, io.ReadAll.
  unfold mbind at 1, M_bind, M.bind at 1, M.load_body.
  destruct (Response.Body resp) as [l|]; [|intros ?; discriminate].
  destruct (bodies σ !! l) as [b|] eqn:Hl; [|intros ?; discriminate].
  intros _. by exists l, b.
Qed.

Lemma parse_empty : json.parse EmptyString = None.
Proof. reflexivity. Qed.

(** The second of two calls finds nothing left to read. *)
Lemma CheckResponse_drained (resp : Response.t) (σ : state) (l : loc) (b : Reader) :
  Response.Body resp = Some l →
  bodies σ !! l = Some b →
  success (Response.StatusCode resp) = false →
  closed b = true ∨ unread b = EmptyString →
  ∃ σ', CheckResponse (Some resp) σ = Ok (Some (ErrorResponse.mk (Some resp) EmptyString), σ').
Proof.
  intros Hbody Hl Hs Hb. rewrite (CheckResponse_run _ _ _ _ Hbody Hl), Hs.
  destruct (closed b); [by eauto|]. destruct Hb as [|Hb]; [done|].
  destruct (failure b); [by eauto|].
  rewrite Hb. unfold Unmarshal_ErrorResponse. rewrite parse_empty. by eauto.
Qed.

(** A second call of [CheckResponse] after a first that returned. *)
Lemma CheckResponse_again (resp : Response.t) (σ σ1 : state) (e1 : option ErrorResponse.t) :
  CheckResponse (Some resp) σ = Ok (e1, σ1) →
  ∃ e2 σ2,
    CheckResponse (Some resp) σ1 = Ok (e2, σ2)
    ∧ (success (Response.StatusCode resp) = true → e1 = None ∧ e2 = None)
    ∧ (success (Response.StatusCode resp) = false →
         e2 = Some (ErrorResponse.mk (Some resp) EmptyString)
         ∧ (e1 = e2 ↔ e1 = Some (ErrorResponse.mk (Some resp) EmptyString))).
Proof.
  intros H1. destruct (success (Response.StatusCode resp)) eqn:Hs.
  - rewrite CheckResponse_success in H1 by done. injection H1 as <- <-.
    exists None, σ. rewrite CheckResponse_success by done. done.
  - destruct (CheckResponse_failure_body _ _ _ _ Hs H1) as (l & b & Hbody & Hl).
    assert (∃ b1, bodies σ1 !! l = Some b1 ∧ (closed b1 = true ∨ unread b1 = EmptyString))
      as (b1 & Hl1 & Hb1).
    { rewrite (CheckResponse_run _ _ _ _ Hbody Hl), Hs in H1.
      destruct (closed b) eqn:Hc.
      - injection H1 as <- <-. by eauto.
      - exists (drained b). destruct (failure b).
        + injection H1 as <- <-. split; [apply lookup_with_body|by right].
        + destruct (Unmarshal_ErrorResponse _ _) as [[e err]| |]; [|done..].
          injection H1 as <- <-. split; [apply lookup_with_body|by right]. }
    destruct (CheckResponse_drained _ _ _ _ Hbody Hl1 Hs Hb1) as [σ2 H2].
    eexists _, σ2. split; [done|]. split; [done|]. intros _. split; [done|]. done.
Qed.

(** [CheckResponse] returns when the response has a body stream, unless it
    has to decode an object for the field [Response]. *)
Lemma CheckResponse_followed (resp : Response.t) (σ : state) (l : loc) (b : Reader) :
  Response.Body resp = Some l →
  bodies σ !! l = Some b →
  success (Response.StatusCode resp) || negb (readable b)
    || negb (object_in_Response (unread b)) = true →
  ∃ e,
    CheckResponse (Some resp) σ
    = Ok (e, if success (Response.StatusCode resp) then σ else read_at l σ)
    ∧ (e = None ↔ success (Response.StatusCode resp) = true)
    ∧ (success (Response.StatusCode resp) = false → readable b = false →
         e = Some (ErrorResponse.mk (Some resp) EmptyString))
    ∧ (success (Response.StatusCode resp) = false → readable b = true →
         e = Some match json.parse (unread b) with
                  | Some (json.Object members) =>
                      ErrorResponse.mk (last_Response (Some resp) members)
                        (last_message EmptyString members)
                  | _ => ErrorResponse.mk (Some resp) EmptyString
                  end).
Proof.
  intros Hbody Hl Hplain. rewrite (CheckResponse_run _ _ _ _ Hbody Hl).
  destruct (success (Response.StatusCode resp)) eqn:Hs; [by exists None|].
  unfold read_at, readable in *. rewrite Hl. simpl in Hplain.
  destruct (closed b); [by eexists|]. destruct (failure b); [by eexists|].
  simpl in Hplain. apply negb_true_iff in Hplain. unfold object_in_Response in Hplain.
  unfold Unmarshal_ErrorResponse.
  destruct (json.parse (unread b)) as [[| | | | |members]|]; try by eexists.
  destruct (decode_members_fields (Some resp) EmptyString None members Hplain) as [saved' ->].
  by eexists.
Qed.

(** C1, amended.  [CheckResponse] is called twice on the same response,
    which has a body stream; when the status is outside 200 to 299 and the
    body can be read, the body holds no object for a member named
    Response (the decoder would write that object into the response
    itself).  Both calls return.  A status from 200 to 299 gives nil both
    times.  For any other status the second call finds the body consumed
    by the first: it returns the error that holds the response and an
    empty message, which is the first error exactly when that one held
    the response and an empty message too.  The first error holds the
    message and the pointer that the members of the body leave. *)
Theorem CheckResponse_twice (resp : Response.t) (σ : state) (l : loc) (b : Reader) :
  Response.Body resp = Some l →
  bodies σ !! l = Some b →
  success (Response.StatusCode resp) || negb (readable b)
    || negb (object_in_Response (unread b)) = true →
  ∃ e1 σ1 e2 σ2,
    CheckResponse (Some resp) σ = Ok (e1, σ1)
    ∧ CheckResponse (Some resp) σ1 = Ok (e2, σ2)
    ∧ (success (Response.StatusCode resp) = true → e1 = None ∧ e2 = None)
    ∧ (success (Response.StatusCode resp) = false →
         e2 = Some (ErrorResponse.mk (Some resp) EmptyString)
         ∧ (e1 = e2 ↔ e1 = Some (ErrorResponse.mk (Some resp) EmptyString)))
    ∧ (success (Response.StatusCode resp) = false → readable b = false → e1 = e2)
    ∧ (success (Response.StatusCode resp) = false → readable b = true →
         e1 = Some match json.parse (unread b) with
                   | Some (json.Object members) =>
                       ErrorResponse.mk (last_Response (Some resp) members)
                         (last_message EmptyString members)
                   | _ => ErrorResponse.mk (Some resp) EmptyString
                   end).
Proof.
  intros Hbody Hl Hplain.
  destruct (CheckResponse_followed _ _ _ _ Hbody Hl Hplain) as (e1 & H1 & _ & Hunread & Hread).
  destruct (CheckResponse_again _ _ _ _ H1) as (e2 & σ2 & H2 & Hs & Hf).
  eexists e1, _, e2, σ2. split; [exact H1|]. split; [exact H2|]. split; [exact Hs|].
  split; [exact Hf|]. split; [|exact Hread].
  intros Hfalse Hno. rewrite (Hunread Hfalse Hno). by destruct (Hf Hfalse) as [-> _].
Qed.

(** C6, amended.  [CheckResponse] returns nil exactly when the status
    code is in the range 200 to 299.  For any other status, and a body in
    which no member named Response holds null or an object, it returns an
    [ErrorResponse] that holds the response, hence its status.  Its message
    is the string of the last member named error, in whatever case, of the
    JSON object that the body is, also when [json.Unmarshal] reports a type
    error for another member; the message is empty when the body cannot be
    read, is not JSON, is no object, or has no such member.  The error of
    the decoder is dropped. *)
Theorem CheckResponse_classifies (resp : Response.t) (σ : state) (l : loc) (b : Reader) :
  Response.Body resp = Some l →
  bodies σ !! l = Some b →
  reaches_Response (unread b) = false →
  (∀ e σ', CheckResponse (Some resp) σ = Ok (e, σ') →
     (e = None ↔ success (Response.StatusCode resp) = true))
  ∧ (success (Response.StatusCode resp) = true → CheckResponse (Some resp) σ = Ok (None, σ))
  ∧ (success (Response.StatusCode resp) = false →
       ∃ σ', CheckResponse (Some resp) σ
             = Ok (Some (ErrorResponse.mk (Some resp)
                           (if readable b then message_of (unread b) else EmptyString)), σ'))
  ∧ (json.parse (unread b) = None → message_of (unread b) = EmptyString)
  ∧ (∀ members, json.parse (unread b) = Some (json.Object members) →
       message_of (unread b) = last_message EmptyString members).
Proof.
  intros Hbody Hl Hr.
  assert (success (Response.StatusCode resp) = false →
       ∃ σ', CheckResponse (Some resp) σ
             = Ok (Some (ErrorResponse.mk (Some resp)
                           (if readable b then message_of (unread b) else EmptyString)), σ')) as Hf.
  { intros Hs. rewrite (CheckResponse_run _ _ _ _ Hbody Hl), Hs. unfold readable.
    destruct (closed b); [by eauto|]. destruct (failure b); [by eauto|]. simpl.
    destruct (Unmarshal_message resp _ Hr) as [err ->]. by eauto. }
  split; [|split; [by apply CheckResponse_success|split; [done|]]].
  - intros e σ' H. destruct (success (Response.StatusCode resp)) eqn:Hs.
    + rewrite CheckResponse_success in H by done. by injection H as <- <-.
    + destruct (Hf eq_refl) as [σ'' H']. rewrite H' in H. by injection H as <- <-.
  - unfold message_of. split; [by intros ->|]. by intros members ->.
Qed.

End validator.

(** C1, counterexample.  For the response with status 400 and the body
    [{"error":"Nope Nope Nope"}], the first call of [CheckResponse] returns
    the message Nope Nope Nope, the second an empty message: the two errors
    differ. *)
Lemma CheckResponse_twice_differs :
  ∃ σ1 σ2,
    librariesio.CheckResponse (Some (examples.response 400 ∅))
      (examples.state_of examples.secret_url examples.nope_body)
    = Ok (Some (librariesio.ErrorResponse.mk (Some (examples.response 400 ∅)) "Nope Nope Nope"), σ1)
    ∧ librariesio.CheckResponse (Some (examples.response 400 ∅)) σ1
      = Ok (Some (librariesio.ErrorResponse.mk (Some (examples.response 400 ∅)) EmptyString), σ2)
    ∧ Some (librariesio.ErrorResponse.mk (Some (examples.response 400 ∅)) "Nope Nope Nope")
      ≠ Some (librariesio.ErrorResponse.mk (Some (examples.response 400 ∅)) EmptyString).
Proof.
  eexists _, _. split; [|split].
  - erewrite CheckResponse_run by reflexivity.
    change (spec.success _) with false. cbv iota. change (closed _) with false. cbv iota.
    change (failure _) with (@None string). cbv iota.
    assert (librariesio.Unmarshal_ErrorResponse examples.nope_body
              (librariesio.ErrorResponse.mk (Some (examples.response 400 ∅)) EmptyString)
            = Ok (librariesio.ErrorResponse.mk (Some (examples.response 400 ∅)) "Nope Nope Nope", None))
      as H by (vm_compute; reflexivity).
    change (unread _) with examples.nope_body. rewrite H. reflexivity.
  - erewrite CheckResponse_run by (first [reflexivity | apply lookup_with_body]).
    reflexivity.
  - intros H. congruence.
Qed.


(** C6, counterexample.  For the body
    [{"error":"not found","response":404}] decoding fails with a type error,
    yet the message of the error is not empty: it is not found.  For the
    body [{"Response":null}] the error returned holds no response, hence no
    status. *)
Lemma CheckResponse_partial_decode :
  (librariesio.Unmarshal_ErrorResponse examples.not_found_body
     (librariesio.ErrorResponse.mk (Some (examples.response 404 ∅)) EmptyString)
   = Ok (librariesio.ErrorResponse.mk (Some (examples.response 404 ∅)) "not found",
         Some json.UnmarshalTypeError)
   ∧ ∃ σ', librariesio.CheckResponse (Some (examples.response 404 ∅))
             (examples.state_of examples.secret_url examples.not_found_body)
           = Ok (Some (librariesio.ErrorResponse.mk (Some (examples.response 404 ∅)) "not found"), σ'))
  ∧ (∃ σ', librariesio.CheckResponse (Some (examples.response 400 ∅))
             (examples.state_of examples.secret_url examples.null_body)
           = Ok (Some (librariesio.ErrorResponse.mk None EmptyString), σ')).
Proof.
  assert (librariesio.Unmarshal_ErrorResponse examples.not_found_body
     (librariesio.ErrorResponse.mk (Some (examples.response 404 ∅)) EmptyString)
   = Ok (librariesio.ErrorResponse.mk (Some (examples.response 404 ∅)) "not found",
         Some json.UnmarshalTypeError)) as H1 by (vm_compute; reflexivity).
  assert (librariesio.Unmarshal_ErrorResponse examples.null_body
     (librariesio.ErrorResponse.mk (Some (examples.response 400 ∅)) EmptyString)
   = Ok (librariesio.ErrorResponse.mk None EmptyString, None)) as H2 by (vm_compute; reflexivity).
  split; [split; [exact H1|]|].
  - eexists. erewrite CheckResponse_run by reflexivity.
    change (spec.success _) with false. cbv iota. change (closed _) with false. cbv iota.
    change (failure _) with (@None string). cbv iota.
    change (unread _) with examples.not_found_body. rewrite H1. reflexivity.
  - eexists. erewrite CheckResponse_run by reflexivity.
    change (spec.success _) with false. cbv iota. change (closed _) with false. cbv iota.
    change (failure _) with (@None string). cbv iota.
    change (unread _) with examples.null_body. rewrite H2. reflexivity.
Qed.

(** ** The dispatch engine *)

Section dispatch.

Import http librariesio spec.

Variable url_Parse : string → URL.t + errors.t.
Context `{Unmarshaler A}.

Lemma client_Do_received (code : Z) (header : Header) (b : Reader) (req : Request.t) (σ : state) :
  client_Do (Received code header b) req σ
  = Ok (inl (received_response σ code header req), received_state σ b req).
Proof. reflexivity. Qed.

Lemma lookup_received (σ : state) (b : Reader) (req : Request.t) :
  bodies (received_state σ b req) !! arrival σ = Some b.
Proof. apply lookup_insert_eq. Qed.

Lemma Close_run (l : loc) (b : Reader) (σ : state) :
  bodies σ !! l = Some b →
  io.Close (Some l) σ = Ok (tt, closed_at l σ).
Proof.
  intros Hl. unfold io.Close, closed_at. unfold_M. rewrite Hl. simpl. by rewrite Hl.
Qed.

Lemma ReadAll_read_at (σ : state) (l : loc) (b : Reader) :
  bodies σ !! l = Some b →
  io.ReadAll (Some l) σ
  = Ok ((if closed b then EmptyString else unread b, read_error b), read_at l σ).
Proof.
  intros Hl. rewrite (ReadAll_run _ _ _ Hl). unfold read_at, read_error. rewrite Hl.
  by destruct (closed b).
Qed.

Lemma lookup_read_at (σ : state) (l : loc) (b : Reader) :
  bodies σ !! l = Some b → is_Some (bodies (read_at l σ) !! l).
Proof.
  intros Hl. unfold read_at. rewrite Hl. destruct (closed b); [by rewrite Hl|].
  rewrite lookup_with_body. by eauto.
Qed.

(** [CheckResponse] leaves the state as it is or as [io.ReadAll] leaves
    it. *)
Lemma CheckResponse_state (resp : Response.t) (σ σ' : state) (l : loc) (b : Reader)
    (e : option ErrorResponse.t) :
  Response.Body resp = Some l →
  bodies σ !! l = Some b →
  CheckResponse (Some resp) σ = Ok (e, σ') →
  σ' = if success (Response.StatusCode resp) then σ else read_at l σ.
Proof.
  intros Hbody Hl. rewrite (CheckResponse_run _ _ _ _ Hbody Hl). unfold read_at. rewrite Hl.
  destruct (success _); [by intros [= _ <-]|].
  destruct (closed b); [by intros [= _ <-]|].
  destruct (failure b); [by intros [= _ <-]|].
  destruct (Unmarshal_ErrorResponse _ _) as [[? ?]| |]; [|done..]. by intros [= _ <-].
Qed.

(** A response in the range 200 to 299: the body is read to its end and,
    when there is something to decode into, decoded. *)
Lemma Do_accepted (net : list exchange) (c : Client) (req : Request.t) (obj : option A)
    (code : Z) (header : Header) (b : Reader) (σ : state) :
  success code = true →
  Do url_Parse (Received code header b :: net) c req obj σ
  = Ok (match read_error b with
        | Some err => (None, Some (Err err), obj)
        | None =>
            match obj with
            | Some o =>
                match Unmarshal (unread b) o with
                | (o', Some err) => (None, Some (Err err), Some o')
                | (o', None) => (Some (received_response σ code header req), None, Some o')
                end
            | None => (Some (received_response σ code header req), None, None)
            end
        end,
        closed_at (arrival σ) (read_at (arrival σ) (received_state σ b req))).
Proof.
  intros Hs. cbn [Do]. unfold mbind at 1, M_bind, M.bind at 1. rewrite client_Do_received.
  set (resp := received_response σ code header req).
  set (σ1 := received_state σ b req).
  assert (bodies σ1 !! arrival σ = Some b) as Hl by apply lookup_received.
  unfold mbind at 1, M.bind at 1, M.load_body.
  change (Response.Body resp) with (Some (arrival σ)). cbv beta iota. rewrite Hl.
  unfold mbind at 1, M.bind at 1. unfold mbind at 1, M.bind at 1.
  rewrite CheckResponse_success by done.
  unfold mbind at 1, M.bind at 1. rewrite (ReadAll_read_at _ _ _ Hl).
  destruct (lookup_read_at _ _ _ Hl) as [b' Hl'].
  unfold read_error at 1. unfold read_error.
  destruct (closed b) eqn:Hc.
  { unfold mret, M_ret, M.ret, mbind, M.bind. by rewrite (Close_run _ _ _ Hl'). }
  destruct (failure b) eqn:Hf; simpl.
  { unfold mret, M_ret, M.ret, mbind, M.bind. by rewrite (Close_run _ _ _ Hl'). }
  destruct obj as [o|].
  - destruct (Unmarshal (unread b) o) as [o' [err|]];
      unfold mret, M_ret, M.ret, mbind, M.bind; by rewrite (Close_run _ _ _ Hl').
  - unfold mret, M_ret, M.ret, mbind, M.bind. by rewrite (Close_run _ _ _ Hl').
Qed.

(** A response that [CheckResponse] rejects. *)
Lemma Do_rejected (net : list exchange) (c : Client) (req : Request.t) (obj : option A)
    (code : Z) (header : Header) (b : Reader) (σ σ2 : state) (errResp : ErrorResponse.t) :
  CheckResponse (Some (received_response σ code header req)) (received_state σ b req)
  = Ok (Some errResp, σ2) →
  σ2 = read_at (arrival σ) (received_state σ b req)
  ∧ Do url_Parse (Received code header b :: net) c req obj σ
    = if eligible c (received_response σ code header req) req then
        match strconv.Atoi (reset (received_response σ code header req)) with
        | inl timeToWait =>
            (r ← Do url_Parse net c req obj; io.Close (Some (arrival σ));; mret r)
              (slept (pause timeToWait) σ2)
        | inr e =>
            Ok ((Some (received_response σ code header req),
                 Some (Err (errors.NumError "Atoi" (reset (received_response σ code header req)) e)),
                 obj),
                closed_at (arrival σ) σ2)
        end
      else
        Ok ((Some (received_response σ code header req), Some (ErrResponse errResp), obj),
            closed_at (arrival σ) σ2).
Proof.
  intros Hcheck.
  set (resp := received_response σ code header req) in *.
  set (σ1 := received_state σ b req) in *.
  assert (bodies σ1 !! arrival σ = Some b) as Hl by apply lookup_received.
  assert (success (Response.StatusCode resp) = false) as Hs.
  { destruct (success _) eqn:Hs; [|done]. rewrite CheckResponse_success in Hcheck by done.
    by injection Hcheck. }
  assert (σ2 = read_at (arrival σ) σ1) as Hσ2.
  { pose proof (CheckResponse_state resp σ1 σ2 (arrival σ) b _ eq_refl Hl Hcheck) as Hst.
    by rewrite Hs in Hst. }
  split; [done|].
  destruct (lookup_read_at _ _ _ Hl) as [b' Hl']. rewrite <- Hσ2 in Hl'.
  cbn [Do]. unfold mbind at 1, M_bind, M.bind at 1. rewrite client_Do_received.
  fold resp σ1.
  unfold mbind at 1, M.bind at 1, M.load_body.
  change (Response.Body resp) with (Some (arrival σ)). cbv beta iota. rewrite Hl.
  unfold mbind at 1, M.bind at 1. unfold mbind at 1, M.bind at 1.
  rewrite Hcheck. fold (reset resp). fold (eligible c resp req).
  destruct (eligible c resp req).
  - destruct (strconv.Atoi (reset resp)) as [t|e].
    + reflexivity.
    + unfold mret, M_ret, M.ret, mbind, M.bind. by rewrite (Close_run _ _ _ Hl').
  - unfold mret, M_ret, M.ret, mbind, M.bind. by rewrite (Close_run _ _ _ Hl').
Qed.

Lemma trace_read_at (l : loc) (σ : state) : trace (read_at l σ) = trace σ.
Proof. unfold read_at. destruct (bodies σ !! l) as [b|]; [|done]. by destruct (closed b). Qed.

Lemma trace_closed_at (l : loc) (σ : state) : trace (closed_at l σ) = trace σ.
Proof. unfold closed_at. by destruct (bodies σ !! l). Qed.

Lemma Close_trace (p : option loc) (σ σ' : state) (u : unit) :
  io.Close p σ = Ok (u, σ') → trace σ' = trace σ.
Proof.
  unfold io.Close. unfold_M. destruct p as [l|]; [|done].
  destruct (bodies σ !! l) as [b|] eqn:Hl; [|done]. rewrite Hl. by intros [= _ <-].
Qed.

(** What [Do] returns when the HTTP client answers with an error: the
    error, with the API key redacted from the URL of a [*url.Error]. *)
Lemma Do_failed (net : list exchange) (c : Client) (req : Request.t) (obj : option A)
    (err : errors.t) (σ : state) :
  ∃ σ',
    Do url_Parse (Failed err :: net) c req obj σ
    = Ok ((None,
           Some (Err match err with
                     | errors.url_Error op u e =>
                         match url_Parse u with
                         | inl u' => errors.url_Error op (URL.String' (redacted u')) e
                         | inr _ => err
                         end
                     | _ => err
                     end),
           obj), σ')
    ∧ trace σ' = trace σ ++ [Sent req].
Proof.
  cbn [Do]. unfold mbind at 1, M_bind, M.bind at 1, client_Do.
  unfold mbind at 1, M_bind, M.bind at 1, M.emit.
  unfold mret at 1, M_ret, M.ret at 1. cbv beta iota.
  destruct err as [op u e| | |]; try (eexists; split; reflexivity).
  destruct (url_Parse u) as [u'|]; [|eexists; split; reflexivity].
  unfold mbind at 1, M.bind at 1, M.alloc_url. cbv beta iota zeta.
  unfold mbind at 1, M.bind at 1.
  erewrite redactAPIKey_run by apply lookup_insert_eq.
  unfold mbind, M.bind, M.load_url. rewrite lookup_with_url.
  eexists. split; reflexivity.
Qed.

Lemma CheckResponse_accepts (resp : Response.t) (σ σ' : state) :
  CheckResponse (Some resp) σ = Ok (None, σ') → success (Response.StatusCode resp) = true.
Proof.
  destruct (success _) eqn:Hs; [done|]. intros Hc.
  destruct (CheckResponse_failure_body _ _ _ _ Hs Hc) as (l & b & Hbody & Hl).
  rewrite (CheckResponse_run _ _ _ _ Hbody Hl), Hs in Hc.
  destruct (closed b); [done|]. destruct (failure b); [done|].
  by destruct (Unmarshal_ErrorResponse _ _) as [[? ?]| |].
Qed.

(** When [CheckResponse] gives no result, neither does [Do]. *)
Lemma Do_received_stuck (net : list exchange) (c : Client) (req : Request.t) (obj : option A)
    (code : Z) (header : Header) (b : Reader) (σ : state) :
  (∀ e σ2, CheckResponse (Some (received_response σ code header req)) (received_state σ b req)
           ≠ Ok (e, σ2)) →
  ∀ r σ', Do url_Parse (Received code header b :: net) c req obj σ ≠ Ok (r, σ').
Proof.
  intros Hstuck r σ'.
  cbn [Do]. unfold mbind at 1, M_bind, M.bind at 1. rewrite client_Do_received.
  unfold mbind at 1, M.bind at 1, M.load_body.
  change (Response.Body (received_response σ code header req)) with (Some (arrival σ)).
  cbv beta iota. rewrite lookup_received.
  unfold mbind at 1, M.bind at 1. unfold mbind at 1, M.bind at 1.
  destruct (CheckResponse _ _) as [[e σ2]| |] eqn:Hc; [|done..].
  by destruct (Hstuck e σ2).
Qed.

(** [Do] first sends the request, and only adds to the trace. *)
Lemma Do_trace (net : list exchange) (c : Client) (req : Request.t) (obj : option A)
    (σ σ' : state) (r : option Response.t * option error * option A) :
  Do url_Parse net c req obj σ = Ok (r, σ') →
  ∃ events, trace σ' = trace σ ++ Sent req :: events.
Proof.
  revert σ σ' r. induction net as [|x net IH]; intros σ σ' r HDo; [done|].
  destruct x as [code header b|err].
  - destruct (CheckResponse (Some (received_response σ code header req))
                (received_state σ b req)) as [[[errResp|] σ2]| |] eqn:Hc.
    + destruct (Do_rejected net c req obj _ _ _ _ _ _ Hc) as [Hσ2 Heq].
      rewrite Heq in HDo. clear Heq.
      assert (trace σ2 = trace σ ++ [Sent req]) as Ht by (by rewrite Hσ2, trace_read_at).
      destruct (eligible _ _ _).
      * destruct (strconv.Atoi _) as [t|e].
        -- unfold mbind at 1, M_bind, M.bind at 1 in HDo.
           destruct (Do url_Parse net c req obj _) as [[r3 σ3]| |] eqn:Hrec; [|done..].
           apply IH in Hrec as [events Hrec]. simpl in Hrec.
           unfold mbind, M.bind in HDo.
           destruct (io.Close _ σ3) as [[[] σ4]| |] eqn:Hclose; [|done..].
           apply Close_trace in Hclose. injection HDo as <- <-.
           rewrite Hclose, Hrec, Ht, <- !(assoc_L (++)). simpl. by eauto.
        -- injection HDo as <- <-. rewrite trace_closed_at, Ht. by exists [].
      * injection HDo as <- <-. rewrite trace_closed_at, Ht. by exists [].
    + apply CheckResponse_accepts in Hc. simpl in Hc.
      rewrite Do_accepted in HDo by done. injection HDo as <- <-.
      rewrite trace_closed_at, trace_read_at. by exists [].
    + exfalso. eapply Do_received_stuck; [|exact HDo]. intros ??. by rewrite Hc.
    + exfalso. eapply Do_received_stuck; [|exact HDo]. intros ??. by rewrite Hc.
  - destruct (Do_failed net c req obj err σ) as (σ'' & Heq & Ht).
    rewrite Heq in HDo. injection HDo as <- <-. rewrite Ht. by exists [].
Qed.

Lemma wrap64_small (z : Z) : - 2 ^ 63 ≤ z < 2 ^ 63 → strconv.wrap64 z = z.
Proof. intros Hz. unfold strconv.wrap64. rewrite Z.mod_small; lia. Qed.

(** Within 9223372036 seconds the pause is the reset time and one
    second. *)
Lemma pause_seconds (t : Z) :
  - 9223372036 ≤ t + 1 ≤ 9223372036 → pause t = (t + 1) * time.Second.
Proof.
  intros Ht. unfold pause, time.Second.
  rewrite (wrap64_small (t + 1)) by lia. rewrite wrap64_small by lia. lia.
Qed.

Lemma eligible_iff (c : Client) (resp : Response.t) (req : Request.t) :
  eligible c resp req = true
  ↔ Retry c = true ∧ Response.StatusCode resp = 429 ∧ Request.Method req = "GET"
     ∧ Header_Get (Response.Header resp) "X-RateLimit-Reset" ≠ EmptyString.
Proof.
  unfold eligible, reset, StatusTooManyRequests, MethodGet.
  rewrite !andb_true_iff, Z.eqb_eq, String.eqb_eq, negb_true_iff.
  rewrite <- not_true_iff_false, is_empty_true. tauto.
Qed.

(** C10.  For a response with a status from 200 to 299, [Do] returns a
    nil response together with the error when the body cannot be read and,
    when a container is given, when the body cannot be decoded into it.
    For a response that [CheckResponse] rejects and that is not eligible
    for a retry, [Do] returns the response received together with the
    [ErrorResponse]. *)
Theorem Do_nil_response_after_success (net : list exchange) (c : Client) (req : Request.t)
    (obj : option A) (code : Z) (header : Header) (b : Reader) (σ : state) :
  (success code = true →
     ∃ r σ',
       Do url_Parse (Received code header b :: net) c req obj σ = Ok (r, σ')
       ∧ (∀ err, read_error b = Some err → r = (None, Some (Err err), obj))
       ∧ (∀ o o' err, read_error b = None → obj = Some o →
            Unmarshal (unread b) o = (o', Some err) →
            r = (None, Some (Err err), Some o')))
  ∧ (∀ errResp σ2,
       CheckResponse (Some (received_response σ code header req)) (received_state σ b req)
       = Ok (Some errResp, σ2) →
       eligible c (received_response σ code header req) req = false →
       ∃ σ', Do url_Parse (Received code header b :: net) c req obj σ
             = Ok ((Some (received_response σ code header req),
                    Some (ErrResponse errResp), obj), σ')).
Proof.
  split.
  - intros Hs. eexists _, _. split; [by apply Do_accepted|]. split.
    + by intros err ->.
    + by intros o o' err -> -> ->.
  - intros errResp σ2 Hcheck Hel.
    destruct (Do_rejected net c req obj _ _ _ _ _ _ Hcheck) as [_ Heq].
    rewrite Hel in Heq. by eauto.
Qed.

End dispatch.

(** ** The request builder *)

Section builder.

Import Bytes http librariesio spec engine.

Variable url_Parse : string → URL.t + errors.t.
Variable ResolveReference : URL.t → URL.t → URL.t.
Context `{Marshaler A}.

(** What a call of [NewRequest] that returns a request went through. *)
Lemma NewRequest_inv (c : Client) (method urlStr : string) (data : option A)
    (σ σ' : state) (req : Request.t) :
  NewRequest url_Parse ResolveReference c method urlStr data σ = Ok (inl req, σ') →
  ∃ relativeURL base u body,
    url_Parse urlStr = inl relativeURL
    ∧ BaseURL c = Some base
    ∧ url_Parse (URL.String' (ResolveReference base relativeURL)) = inl u
    ∧ payload data = inl body
    ∧ validMethod (if is_empty method then "GET" else method) = true
    ∧ req = Request.mk (if is_empty method then "GET" else method)
              (Some (fresh (dom (urls σ))))
              (request_headers c (bool_decide (is_Some data)))
              (match body with Some _ => Some (fresh (dom (bodies σ))) | None => None end)
    ∧ urls σ' = <[fresh (dom (urls σ)) := authorised (apiKey c) u]> (urls σ)
    ∧ bodies σ' = match body with
                  | Some bytes => <[fresh (dom (bodies σ)) := mkReader bytes None false]> (bodies σ)
                  | None => bodies σ
                  end
    ∧ trace σ' = trace σ.
Proof.
  unfold NewRequest. destruct (url_Parse urlStr) as [relativeURL|] eqn:Hrel; [|done].
  unfold mbind at 1, M_bind, M.bind at 1, M.deref.
  destruct (BaseURL c) as [base|] eqn:Hbase; [|done].
  fold (payload data). destruct (payload data) as [body|] eqn:Hpay; [|done].
  unfold mbind at 1, M.bind at 1, http_NewRequest.
  destruct (validMethod _) eqn:Hm; [|done]. cbv iota. simpl negb. cbv iota.
  destruct (url_Parse (URL.String' _)) as [u|] eqn:Hu; [|done].
  intros HDo. exists relativeURL, base, u, body. repeat (split; [done|]).
  revert HDo. unfold_M. unfold request_headers.
  destruct body as [bytes|]; simpl.
  - rewrite lookup_insert_eq. simpl. rewrite lookup_insert_eq, insert_insert_eq.
    intros [= <- <-]. by destruct data.
  - rewrite lookup_insert_eq. simpl. rewrite lookup_insert_eq, insert_insert_eq.
    intros [= <- <-]. by destruct data.
Qed.

Lemma Query_authorised (apiKey : string) (u : URL.t) :
  URL.Query (authorised apiKey u) = <["api_key" := [apiKey]]> (URL.Query u).
Proof.
  unfold authorised, URL.Query at 1. simpl.
  apply ParseQuery_Encode, populated_Set, populated_ParseQuery.
Qed.

(** The ways through [NewRequest], for a client with a base URL. *)
Lemma NewRequest_cases (c : Client) (method urlStr : string) (data : option A)
    (σ : state) (base : URL.t) :
  BaseURL c = Some base →
  match url_Parse urlStr with
  | inr err => NewRequest url_Parse ResolveReference c method urlStr data σ = Ok (inr err, σ)
  | inl relativeURL =>
      match payload data with
      | inr err =>
          NewRequest url_Parse ResolveReference c method urlStr data σ = Ok (inr err, σ)
      | inl body =>
          if validMethod (if is_empty method then "GET" else method) then
            match url_Parse (URL.String' (ResolveReference base relativeURL)) with
            | inr err =>
                NewRequest url_Parse ResolveReference c method urlStr data σ
                = Ok (inr err, σ)
            | inl u =>
                ∃ req σ',
                  NewRequest url_Parse ResolveReference c method urlStr data σ
                  = Ok (inl req, σ')
            end
          else
            ∃ err,
              NewRequest url_Parse ResolveReference c method urlStr data σ
              = Ok (inr err, σ)
      end
  end.
Proof.
  intros Hbase.
  assert (NewRequest url_Parse ResolveReference c method urlStr data σ
          = match url_Parse urlStr with
              | inr err => Ok (inr err, σ)
              | inl relativeURL =>
                  match payload data with
                  | inr err => Ok (inr err, σ)
                  | inl body =>
                      (r ← http_NewRequest url_Parse method
                             (URL.String' (ResolveReference base relativeURL)) body;
                       match r with
                       | inr err => mret (inr err)
                       | inl req =>
                           u ← M.load_url (Request.URL req);
                           M.store_url (Request.URL req)
                             (URL.set_RawQuery
                                (Values.Encode
                                   (Values.Set' (URL.Query u) "api_key" (apiKey c))) u);;
                           mret (inl (Request.set_Header
                                        (request_headers_on (Request.Header req) c
                                           (bool_decide (is_Some data))) req))
                       end) σ
                  end
              end) as Hrun.
  { unfold NewRequest. destruct (url_Parse urlStr) as [relativeURL|err]; [|done].
    unfold mbind at 1, M_bind, M.bind at 1, M.deref. rewrite Hbase.
    fold (payload data). destruct (payload data) as [body|err]; [|done].
    unfold request_headers_on. by destruct data. }
  rewrite Hrun. clear Hrun.
  destruct (url_Parse urlStr) as [relativeURL|err]; [|done].
  destruct (payload data) as [body|err]; [|done].
  unfold mbind at 1, M_bind, M.bind at 1, http_NewRequest.
  destruct (validMethod _); [|by eexists]. cbv iota. simpl negb. cbv iota.
  destruct (url_Parse (URL.String' _)) as [u|err]; [|done].
  unfold_M. destruct body as [bytes|]; simpl; rewrite lookup_insert_eq; simpl;
    rewrite lookup_insert_eq; by eexists _, _.
Qed.

(** C4, amended.  For a client with a base URL, [NewRequest] returns a
    request when the relative path parses, the payload can be encoded, the
    method is valid and the string form of the resolved URL parses.  The
    request that it returns has the URL that [http.NewRequest] read from
    the string form of the base URL resolved against the relative path,
    with a colon and no port after it dropped from the host, but for its
    query.  The query is written anew: it is
    the encoding, sorted by key and escaped afresh, of what [URL.Query]
    read of that URL with api_key set.  There api_key holds exactly one
    value, the API key of the client, whatever the caller's path held for
    it, and every other parameter that was read is as the path gave it;
    what was read is what the segments give that are kept, so that a
    segment of the caller's query that does not parse, for a semicolon or
    a bad escape, and an empty segment are not sent.  For the client of
    the API key 1234 the path pypi/cookiecutter?b=2&api_key=mine gives the
    URL https://libraries.io/api/pypi/cookiecutter?api_key=1234&b=2. *)
Theorem NewRequest_resolves_and_authorises (c : Client) (method urlStr : string)
    (data : option A) (σ σ' : state) (req : Request.t) (base : URL.t) :
  (BaseURL c = Some base →
   NewRequest url_Parse ResolveReference c method urlStr data σ = Ok (inl req, σ') →
   ∃ relativeURL u l final,
     url_Parse urlStr = inl relativeURL
     ∧ url_Parse (URL.String' (ResolveReference base relativeURL)) = inl u
     ∧ Request.URL req = Some l ∧ urls σ' !! l = Some final
     ∧ URL.Scheme final = URL.Scheme u ∧ URL.Opaque final = URL.Opaque u
     ∧ URL.User final = URL.User u ∧ URL.Host final = removeEmptyPort (URL.Host u)
     ∧ URL.Path final = URL.Path u ∧ URL.RawPath final = URL.RawPath u
     ∧ URL.Fragment final = URL.Fragment u ∧ URL.RawFragment final = URL.RawFragment u
     ∧ URL.Query final !! "api_key" = Some [apiKey c]
     ∧ Values.Get (URL.Query final) "api_key" = apiKey c
     ∧ (∀ k, k ≠ "api_key" → URL.Query final !! k = URL.Query u !! k)
     ∧ final = authorised (apiKey c) u
     ∧ URL.RawQuery final = Values.Encode (<["api_key" := [apiKey c]]> (URL.Query u))
     ∧ URL.Query u = foldl Values.parse_segment ∅ (kept (Split "&" (URL.RawQuery u))))
  ∧ (BaseURL c = Some base →
     ∀ relativeURL body u,
       url_Parse urlStr = inl relativeURL →
       payload data = inl body →
       validMethod (if is_empty method then "GET" else method) = true →
       url_Parse (URL.String' (ResolveReference base relativeURL)) = inl u →
       ∃ request σ1,
         NewRequest url_Parse ResolveReference c method urlStr data σ = Ok (inl request, σ1))
  ∧ sent_URL (NewRequest examples.Parse examples.ResolveReference examples.client "GET"
                "pypi/cookiecutter?b=2&api_key=mine" (@None A) (mkState ∅ ∅ []))
    = Some "https://libraries.io/api/pypi/cookiecutter?api_key=1234&b=2".
Proof.
  split; [|split].
  - intros Hbase HNew.
    destruct (NewRequest_inv _ _ _ _ _ _ _ HNew)
      as (relativeURL & base' & u & body & Hrel & Hbase' & Hu & _ & _ & -> & Hurls & _ & _).
    assert (base' = base) as -> by congruence.
    exists relativeURL, u, (fresh (dom (urls σ))), (authorised (apiKey c) u).
    repeat (split; [done|]). split; [by rewrite Hurls, lookup_insert_eq|].
    repeat (split; [done|]). rewrite Query_authorised.
    split; [by apply lookup_insert_eq|].
    split; [unfold Values.Get, Values.index; by rewrite lookup_insert_eq|].
    split; [intros k Hk; by apply lookup_insert_ne|].
    split; [done|]. split; [|apply Query_kept].
    unfold authorised. cbn [URL.RawQuery URL.set_RawQuery].
    assert (URL.Query (URL.set_Host (removeEmptyPort (URL.Host u)) u) = URL.Query u) as ->
      by done.
    done.
  - intros Hbase relativeURL body u Hrel Hpay Hm Hu.
    pose proof (NewRequest_cases c method urlStr data σ base Hbase) as Hcases.
    by rewrite Hrel, Hpay, Hm, Hu in Hcases.
  - vm_compute. reflexivity.
Qed.

Lemma Header_Get_request_headers (c : Client) (with_payload : bool) :
  Header_Get (request_headers c with_payload) "Accept" = "application/json"
  ∧ Header_Get (request_headers c with_payload) "User-Agent" = UserAgent c
  ∧ request_headers c with_payload !! "Content-Type"
    = (if with_payload then Some ["application/json"] else None)
  ∧ Header_Get (request_headers c with_payload) "Content-Type"
    = (if with_payload then "application/json" else EmptyString).
Proof.
  unfold request_headers, Header_Get, Header_Set.
  change (CanonicalMIMEHeaderKey "Accept") with "Accept".
  change (CanonicalMIMEHeaderKey "User-Agent") with "User-Agent".
  change (CanonicalMIMEHeaderKey "Content-Type") with "Content-Type".
  destruct with_payload.
  - rewrite !lookup_insert_eq, !(lookup_insert_ne _ "Content-Type") by done.
    rewrite lookup_insert_eq, (lookup_insert_ne _ "User-Agent") by done.
    by rewrite lookup_insert_eq.
  - rewrite lookup_insert_eq, !(lookup_insert_ne _ "User-Agent") by done.
    rewrite lookup_insert_eq, (lookup_insert_ne _ "Accept") by done.
    by rewrite lookup_empty.
Qed.

(** C5.  The request that [NewRequest] returns has the headers Accept:
    application/json and User-Agent: the client's.  For a nil payload it has
    no body and no Content-Type header, and no stream was made.  For any
    other payload its body is a new stream that holds what the JSON encoder
    wrote for the payload, the encoding and a newline, and Content-Type is
    application/json. *)
Theorem NewRequest_body_and_headers (c : Client) (method urlStr : string)
    (data : option A) (σ σ' : state) (req : Request.t) :
  NewRequest url_Parse ResolveReference c method urlStr data σ = Ok (inl req, σ') →
  Header_Get (Request.Header req) "Accept" = "application/json"
  ∧ Header_Get (Request.Header req) "User-Agent" = UserAgent c
  ∧ match data with
    | None =>
        Request.Body req = None
        ∧ Request.Header req !! "Content-Type" = None
        ∧ bodies σ' = bodies σ
    | Some d =>
        ∃ bytes l,
          Marshal d = inl bytes
          ∧ Request.Body req = Some l
          ∧ bodies σ' !! l = Some (mkReader (bytes +:+ String "010" EmptyString) None false)
          ∧ Request.Header req !! "Content-Type" = Some ["application/json"]
          ∧ Header_Get (Request.Header req) "Content-Type" = "application/json"
    end.
Proof.
  intros HNew.
  destruct (NewRequest_inv _ _ _ _ _ _ _ HNew)
    as (relativeURL & base & u & body & _ & _ & _ & Hpay & _ & -> & _ & Hbodies & _).
  simpl Request.Header. simpl Request.Body.
  assert (match data with
          | Some d => ∃ bytes, Marshal d = inl bytes
                       ∧ body = Some (bytes +:+ String "010" EmptyString)
          | None => body = None
          end) as Hbody.
  { destruct data as [d|]; simpl in Hpay; [|by injection Hpay].
    unfold Encode in Hpay. destruct (Marshal d) as [bytes|]; [|discriminate].
    injection Hpay as <-. by exists bytes. }
  clear Hpay.
  destruct (Header_Get_request_headers c (bool_decide (is_Some data))) as (Ha & Hu & Hc & Hc').
  split; [exact Ha|]. split; [exact Hu|].
  destruct data as [d|].
  - destruct Hbody as (bytes & Hm & ->). exists bytes, (fresh (dom (bodies σ))).
    rewrite Hbodies, lookup_insert_eq.
    rewrite bool_decide_true in Hc, Hc' by eauto.
    split; [exact Hm|]. split; [reflexivity|]. split; [reflexivity|].
    split; [exact Hc|exact Hc'].
  - rewrite Hbody in Hbodies |- *. rewrite bool_decide_false in Hc by (by intros [? ?]).
    split; [reflexivity|]. split; [exact Hc|exact Hbodies].
Qed.

End builder.

(** C4, counterexample.  For the client of the API key 1234 and the path
    [search?zeta=1&q=a;b&flag&api_key=mine], the base URL resolved against
    the path is [https://libraries.io/api/search?zeta=1&q=a;b&flag&api_key=mine],
    and the URL of the request is
    [https://libraries.io/api/search?api_key=1234&flag=&zeta=1]: the
    caller's parameter q is not sent.  The URL of the request is not the
    resolved URL with the API key set. *)
Lemma NewRequest_drops_a_parameter :
  engine.resolved examples.Parse examples.ResolveReference examples.client
    "search?zeta=1&q=a;b&flag&api_key=mine"
  = Some "https://libraries.io/api/search?zeta=1&q=a;b&flag&api_key=mine"
  ∧ engine.sent_URL
      (librariesio.NewRequest examples.Parse examples.ResolveReference
         (H := examples.Marshal_bool) examples.client "GET"
         "search?zeta=1&q=a;b&flag&api_key=mine" None (mkState ∅ ∅ []))
    = Some "https://libraries.io/api/search?api_key=1234&flag=&zeta=1".
Proof. split; vm_compute; reflexivity. Qed.
(** ** The redactor and the parameters that do not parse *)

Section query.

Import Bytes url librariesio spec engine.

(** X18.  [redactAPIKey] writes the query back from what [URL.Query]
    read of it, and [URL.Query] drops the parse error: every segment of
    the query that does not parse, because it holds a semicolon or a bad
    escape, is gone from the URL afterwards, as if it had not been there,
    and so are empty segments.  The URL object keeps only the parameters
    that were read. *)
Theorem redactAPIKey_drops_malformed (σ : state) (l : loc) (u : URL.t)
    (segments : list string) :
  urls σ !! l = Some u →
  URL.RawQuery u = join segments →
  Forall (λ segment, contains "&" segment = false) segments →
  redactAPIKey (Some l) σ
  = Ok (Some l, with_url l (redacted (URL.set_RawQuery (join (kept segments)) u)) σ)
  ∧ URL.Query (redacted u)
    = <["api_key" := ["REDACTED"]]> (foldl Values.parse_segment ∅ (kept segments)).
Proof.
  intros Hl Hraw Hall.
  assert (Forall (λ segment, contains "&" segment = false) (kept segments)) as Hkept.
  { clear -Hall. unfold kept. induction Hall as [|segment segments' Hseg Hall IH]; [done|]. simpl.
    destruct (skipped segment); simpl; [done|]. by constructor. }
  assert (URL.Query u = foldl Values.parse_segment ∅ (kept segments)) as Hq.
  { unfold URL.Query. by rewrite Hraw, ParseQuery_join, foldl_parse_kept. }
  assert (redacted (URL.set_RawQuery (join (kept segments)) u) = redacted u) as Hsame.
  { unfold redacted. unfold URL.Query at 1. cbn [URL.RawQuery URL.set_RawQuery].
    rewrite ParseQuery_join, <- Hq by done. by destruct u. }
  split.
  - by rewrite (redactAPIKey_run _ _ _ Hl), Hsame.
  - by rewrite Query_redacted, Hq.
Qed.

End query.
(** ** The dispatch engine and the store *)

Section store.

Import http librariesio spec engine.

Variable url_Parse : string → URL.t + errors.t.
Context `{Unmarshaler A}.

Lemma arrival_fresh (σ : state) : bodies σ !! arrival σ = None.
Proof. unfold arrival. apply (not_elem_of_dom (D := gset loc)), is_fresh. Qed.

Lemma bodies_read_at (l l' : loc) (σ : state) :
  bodies (read_at l σ) !! l'
  = if decide (l' = l)
    then (λ b, if closed b then b else drained b) <$> bodies σ !! l
    else bodies σ !! l'.
Proof.
  unfold read_at. destruct (decide (l' = l)) as [->|Hne].
  - destruct (bodies σ !! l) as [b|] eqn:Hl; [|by rewrite Hl].
    destruct (closed b) eqn:Hc.
    + rewrite Hl. simpl. by rewrite Hc.
    + rewrite lookup_with_body. simpl. by rewrite Hc.
  - destruct (bodies σ !! l) as [b|]; [|done].
    destruct (closed b); [done|]. by apply lookup_insert_ne.
Qed.

Lemma bodies_closed_at (l l' : loc) (σ : state) :
  bodies (closed_at l σ) !! l'
  = if decide (l' = l)
    then (λ b, mkReader (unread b) (failure b) true) <$> bodies σ !! l
    else bodies σ !! l'.
Proof.
  unfold closed_at. destruct (decide (l' = l)) as [->|Hne].
  - destruct (bodies σ !! l) as [b|] eqn:Hl; [|by rewrite Hl]. apply lookup_insert_eq.
  - destruct (bodies σ !! l) as [b|]; [|done]. by apply lookup_insert_ne.
Qed.

Lemma urls_read_at (l : loc) (σ : state) : urls (read_at l σ) = urls σ.
Proof. unfold read_at. destruct (bodies σ !! l) as [b|]; [|done]. by destruct (closed b). Qed.

Lemma urls_closed_at (l : loc) (σ : state) : urls (closed_at l σ) = urls σ.
Proof. unfold closed_at. by destruct (bodies σ !! l). Qed.

Lemma Close_inv (l : loc) (σ σ' : state) (u : unit) :
  io.Close (Some l) σ = Ok (u, σ') → σ' = closed_at l σ ∧ is_Some (bodies σ !! l).
Proof.
  destruct (bodies σ !! l) as [b|] eqn:Hl.
  - rewrite (Close_run _ _ _ Hl). intros [= _ <-]. by eauto.
  - unfold io.Close. unfold_M. by rewrite Hl.
Qed.

Lemma urls_settled (σ : state) (b : Reader) (req : Request.t) :
  urls (settled σ b req) = urls σ.
Proof. unfold settled. by rewrite urls_closed_at, urls_read_at. Qed.

Lemma bodies_settled_old (σ : state) (b : Reader) (req : Request.t) (l : loc) (b' : Reader) :
  bodies σ !! l = Some b' → bodies (settled σ b req) !! l = Some b'.
Proof.
  intros Hl. unfold settled.
  assert (l ≠ arrival σ) as Hne by (intros ->; by rewrite arrival_fresh in Hl).
  rewrite bodies_closed_at, decide_False, bodies_read_at, decide_False by done.
  unfold received_state. cbn [bodies]. by rewrite lookup_insert_ne.
Qed.

Lemma bodies_settled_new (σ : state) (b : Reader) (req : Request.t) (l : loc) (b' : Reader) :
  bodies σ !! l = None → bodies (settled σ b req) !! l = Some b' → closed b' = true.
Proof.
  unfold settled. rewrite bodies_closed_at. destruct (decide (l = arrival σ)) as [->|Hne].
  - intros _. destruct (bodies _ !! _); [|done]. by intros [= <-].
  - rewrite bodies_read_at, decide_False by done. unfold received_state. cbn [bodies].
    rewrite lookup_insert_ne by done. by intros ->.
Qed.

(** The HTTP client answered with an error: the store keeps what it
    held. *)
Lemma Do_failed_store (net : list exchange) (c : Client) (req : Request.t) (obj : option A)
    (err : errors.t) (σ : state) :
  ∃ σ',
    Do url_Parse (Failed err :: net) c req obj σ
    = Ok ((None, Some (Err (redacted_error url_Parse err)), obj), σ')
    ∧ trace σ' = trace σ ++ [Sent req]
    ∧ bodies σ' = bodies σ
    ∧ (∀ l u, urls σ !! l = Some u → urls σ' !! l = Some u).
Proof.
  cbn [Do]. unfold mbind at 1, M_bind, M.bind at 1, client_Do.
  unfold mbind at 1, M_bind, M.bind at 1, M.emit.
  unfold mret at 1, M_ret, M.ret at 1. cbv beta iota.
  destruct err as [op u e| | |]; try (eexists; repeat split; [reflexivity..|done]).
  unfold redacted_error.
  destruct (url_Parse u) as [u'|]; [|eexists; repeat split; [reflexivity..|done]].
  unfold mbind at 1, M.bind at 1, M.alloc_url. cbv beta iota zeta.
  unfold mbind at 1, M.bind at 1.
  erewrite redactAPIKey_run by apply lookup_insert_eq.
  unfold mbind, M.bind, M.load_url. rewrite lookup_with_url.
  eexists. split; [reflexivity|]. split; [reflexivity|]. split; [reflexivity|].
  intros l u0 Hl. simpl.
  assert (l ≠ fresh (dom (urls σ))) as Hne.
  { intros ->. apply (is_fresh (dom (urls σ))). apply elem_of_dom. by eauto. }
  by rewrite !lookup_insert_ne.
Qed.

(** What a call of [Do] leaves of the store: the URL objects and the
    streams it found are as they were, and every stream that it received
    is closed. *)
Lemma Do_store (net : list exchange) (c : Client) (req : Request.t) (obj : option A)
    (σ σ' : state) (r : option Response.t * option error * option A) :
  Do url_Parse net c req obj σ = Ok (r, σ') →
  (∀ l u, urls σ !! l = Some u → urls σ' !! l = Some u)
  ∧ (∀ l b, bodies σ !! l = Some b → bodies σ' !! l = Some b)
  ∧ (∀ l b, bodies σ !! l = None → bodies σ' !! l = Some b → closed b = true).
Proof.
  revert σ σ' r. induction net as [|x net IH]; intros σ σ' r HDo; [done|].
  assert (∀ b, (∀ l u, urls σ !! l = Some u → urls (settled σ b req) !! l = Some u)
    ∧ (∀ l b', bodies σ !! l = Some b' → bodies (settled σ b req) !! l = Some b')
    ∧ (∀ l b', bodies σ !! l = None → bodies (settled σ b req) !! l = Some b'
         → closed b' = true)) as Hsettled.
  { intros b. split; [by intros l u; rewrite urls_settled|].
    split; [apply bodies_settled_old|apply bodies_settled_new]. }
  destruct x as [code header b|err].
  - destruct (CheckResponse (Some (received_response σ code header req))
                (received_state σ b req)) as [[[errResp|] σ2]| |] eqn:Hc.
    + destruct (Do_rejected url_Parse net c req obj _ _ _ _ _ _ Hc) as [Hσ2 Heq].
      rewrite Heq in HDo. clear Heq.
      destruct (eligible _ _ _).
      * destruct (strconv.Atoi _) as [t|e].
        -- unfold mbind at 1, M_bind, M.bind at 1 in HDo.
           destruct (Do url_Parse net c req obj _) as [[r3 σ3]| |] eqn:Hrec; [|done..].
           apply IH in Hrec as (Hu & Hold & Hnew).
           unfold mbind, M.bind in HDo.
           destruct (io.Close _ σ3) as [[[] σ4]| |] eqn:Hclose; [|done..].
           apply Close_inv in Hclose as [-> Hl0]. injection HDo as <- <-.
           assert (∀ l, l ≠ arrival σ →
                     bodies (slept (pause t) σ2) !! l = bodies σ !! l) as Hsame.
           { intros l Hne. rewrite Hσ2. cbn [slept bodies].
             rewrite bodies_read_at, decide_False by done.
             unfold received_state. cbn [bodies]. by rewrite lookup_insert_ne. }
           split; [|split].
           ++ intros l u Hl. rewrite urls_closed_at. apply Hu.
              rewrite Hσ2. simpl. by rewrite urls_read_at.
           ++ intros l b' Hl.
              assert (l ≠ arrival σ) as Hne by (intros ->; by rewrite arrival_fresh in Hl).
              rewrite bodies_closed_at, decide_False by done.
              apply Hold. by rewrite Hsame.
           ++ intros l b' Hl. rewrite bodies_closed_at.
              destruct (decide (l = arrival σ)) as [->|Hne].
              ** destruct (bodies σ3 !! arrival σ); [|done]. by intros [= <-].
              ** apply Hnew. by rewrite Hsame.
        -- injection HDo as <- <-. rewrite Hσ2. apply Hsettled.
      * injection HDo as <- <-. rewrite Hσ2. apply Hsettled.
    + apply CheckResponse_accepts in Hc. simpl in Hc.
      rewrite Do_accepted in HDo by done. injection HDo as <- <-. apply Hsettled.
    + exfalso. eapply Do_received_stuck; [|exact HDo]. intros ??. by rewrite Hc.
    + exfalso. eapply Do_received_stuck; [|exact HDo]. intros ??. by rewrite Hc.
  - destruct (Do_failed_store net c req obj err σ) as (σ'' & Heq & _ & Hb & Hu).
    rewrite Heq in HDo. injection HDo as <- <-.
    split; [exact Hu|]. rewrite Hb. split; [done|]. by intros l b' ->.
Qed.

(** [Do] returns when every answer is followed and one of them ends the
    attempts. *)
Lemma Do_returns (net : list exchange) (c : Client) (req : Request.t) (obj : option A)
    (σ : state) :
  settles c (Request.Method req) net = true →
  ∃ r σ', Do url_Parse net c req obj σ = Ok (r, σ').
Proof.
  unfold settles. intros [Hplain Hends]%andb_true_iff. revert σ.
  induction net as [|x net IH]; intros σ; [done|].
  cbn [forallb existsb] in Hplain, Hends. apply andb_true_iff in Hplain as [Hx Hplain].
  destruct x as [code header b|err].
  - destruct (success code) eqn:Hs; [rewrite Do_accepted by done; by eauto|].
    destruct (CheckResponse_followed (received_response σ code header req)
                (received_state σ b req) (arrival σ) b eq_refl (lookup_received _ _ _))
      as (e & Hc & Hnone & _).
    { cbn [Response.StatusCode received_response]. unfold plain in Hx. done. }
    cbn [Response.StatusCode received_response] in Hc, Hnone. rewrite Hs in Hc, Hnone.
    destruct e as [errResp|]; [|by destruct Hnone as [Hnone _]; specialize (Hnone eq_refl)].
    destruct (Do_rejected url_Parse net c req obj _ _ _ _ _ _ Hc) as [_ Heq].
    rewrite Heq. clear Heq.
    destruct (eligible c (received_response σ code header req) req) eqn:Hel; [|by eauto].
    destruct (strconv.Atoi (reset (received_response σ code header req))) as [t|e] eqn:Hatoi;
      [|by eauto].
    assert (retried c (Request.Method req) (Received code header b) = true) as Hretried.
    { unfold retried. unfold eligible, reset in Hel. unfold reset in Hatoi.
      cbn [Response.StatusCode Response.Header received_response] in Hel, Hatoi.
      by rewrite Hel, Hatoi. }
    rewrite Hretried in Hends. simpl in Hends.
    destruct (IH Hplain Hends (slept (pause t) (read_at (arrival σ) (received_state σ b req))))
      as (r & σ3 & Hrec).
    unfold mbind at 1, M_bind, M.bind at 1. rewrite Hrec.
    destruct (Do_store _ _ _ _ _ _ _ Hrec) as (_ & Hold & _).
    assert (is_Some (bodies (slept (pause t) (read_at (arrival σ) (received_state σ b req)))
                       !! arrival σ)) as [b0 Hb0].
    { cbn [slept bodies]. rewrite bodies_read_at, decide_True, lookup_received by done.
      by eauto. }
    unfold mbind, M.bind. rewrite (Close_run _ _ _ (Hold _ _ Hb0)). by eauto.
  - destruct (Do_failed_store net c req obj err σ) as (σ' & Heq & _). by eauto.
Qed.

Lemma CheckResponse_rejects (resp : Response.t) (σ σ' : state) (e : ErrorResponse.t) :
  CheckResponse (Some resp) σ = Ok (Some e, σ') → success (Response.StatusCode resp) = false.
Proof.
  destruct (success _) eqn:Hs; [|done]. by rewrite CheckResponse_success.
Qed.

Lemma bodies_settled_arrival (σ : state) (b : Reader) (req : Request.t) :
  ∃ b', bodies (settled σ b req) !! arrival σ = Some b' ∧ closed b' = true
        ∧ (read_error b = None → unread b' = EmptyString).
Proof.
  unfold settled. rewrite bodies_closed_at, decide_True, bodies_read_at, decide_True by done.
  rewrite lookup_received. simpl. eexists. split; [done|]. split; [done|].
  unfold read_error. by destruct (closed b).
Qed.

(** What [Do] returns.  A container is still there.  A response returned
    is one that the HTTP client gave to this call for the request; its
    status is in the range 200 to 299 exactly when no error comes with it;
    its body was received in this call and is closed, after it was read to
    its end when there is no error.  Without an error there is a
    response. *)
Lemma Do_shape (net : list exchange) (c : Client) (req : Request.t) (obj : option A)
    (σ σ' : state) (resp : option Response.t) (err : option error) (o : option A) :
  Do url_Parse net c req obj σ = Ok ((resp, err, o), σ') →
  (is_Some obj ↔ is_Some o)
  ∧ (err = None → is_Some resp)
  ∧ (∀ r, resp = Some r →
       Response.Request r = Some req
       ∧ (success (Response.StatusCode r) = true ↔ err = None)
       ∧ ∃ l b, Response.Body r = Some l ∧ bodies σ !! l = None
                ∧ bodies σ' !! l = Some b ∧ closed b = true
                ∧ (err = None → unread b = EmptyString)).
Proof.
  revert σ σ' resp err o. induction net as [|x net IH]; intros σ σ' resp err o HDo; [done|].
  destruct x as [code header b|e0].
  - destruct (bodies_settled_arrival σ b req) as (b' & Hb' & Hcl & Hun).
    destruct (CheckResponse (Some (received_response σ code header req))
                (received_state σ b req)) as [[[errResp|] σ2]| |] eqn:Hc.
    + pose proof (CheckResponse_rejects _ _ _ _ Hc) as Hs. simpl in Hs.
      destruct (Do_rejected url_Parse net c req obj _ _ _ _ _ _ Hc) as [Hσ2 Heq].
      rewrite Heq in HDo. clear Heq.
      destruct (eligible _ _ _).
      * destruct (strconv.Atoi _) as [t|e].
        -- unfold mbind at 1, M_bind, M.bind at 1 in HDo.
           destruct (Do url_Parse net c req obj _) as [[[[resp3 err3] o3] σ3]| |] eqn:Hrec;
             [|done..].
           apply IH in Hrec as (Ho & Herr & Hresp).
           unfold mbind, M.bind in HDo.
           destruct (io.Close _ σ3) as [[[] σ4]| |] eqn:Hclose; [|done..].
           apply Close_inv in Hclose as [-> Hl0]. injection HDo as <- <- <- <-.
           split; [done|]. split; [done|]. intros r Hr.
           destruct (Hresp r Hr) as (Hreq & Hiff & l & b3 & Hbody & Hnone & Hsome & Hcl3 & Hun3).
           split; [done|]. split; [done|]. exists l, b3.
           assert (l ≠ arrival σ) as Hne.
           { intros ->. rewrite Hσ2 in Hnone. cbn [slept bodies] in Hnone.
             rewrite bodies_read_at, decide_True, lookup_received in Hnone by done. done. }
           split; [done|]. split.
           { rewrite Hσ2 in Hnone. cbn [slept bodies] in Hnone.
             rewrite bodies_read_at, decide_False in Hnone by done.
             unfold received_state in Hnone. cbn [bodies] in Hnone.
             by rewrite lookup_insert_ne in Hnone. }
           split; [by rewrite bodies_closed_at, decide_False|]. done.
        -- injection HDo as <- <- <- <-. split; [done|]. split; [done|].
           intros r [= <-]. split; [done|]. simpl. rewrite Hs. split; [done|].
           exists (arrival σ), b'. rewrite Hσ2. fold (settled σ b req).
           split; [done|]. split; [apply arrival_fresh|]. done.
      * injection HDo as <- <- <- <-. split; [done|]. split; [done|].
        intros r [= <-]. split; [done|]. simpl. rewrite Hs. split; [done|].
        exists (arrival σ), b'. rewrite Hσ2. fold (settled σ b req).
        split; [done|]. split; [apply arrival_fresh|]. done.
    + apply CheckResponse_accepts in Hc. simpl in Hc.
      rewrite Do_accepted in HDo by done. fold (settled σ b req) in HDo.
      assert (∀ r, Some (received_response σ code header req) = Some r →
                read_error b = None →
                Response.Request r = Some req
                ∧ (success (Response.StatusCode r) = true ↔ @None error = None)
                ∧ ∃ l b0, Response.Body r = Some l ∧ bodies σ !! l = None
                    ∧ bodies (settled σ b req) !! l = Some b0 ∧ closed b0 = true
                    ∧ (@None error = None → unread b0 = EmptyString)) as Hgood.
      { intros r [= <-] Hre. split; [done|]. split; [done|]. exists (arrival σ), b'.
        split; [done|]. split; [apply arrival_fresh|]. split; [done|]. split; [done|].
        intros _. by apply Hun. }
      destruct (read_error b) as [e|] eqn:Hre.
      { injection HDo as <- <- <- <-. done. }
      destruct obj as [o0|].
      * destruct (Unmarshal (unread b) o0) as [o' [e|]]; injection HDo as <- <- <- <-.
        -- split; [by split; eauto|]. done.
        -- split; [by split; eauto|]. split; [by eauto|]. intros r Hr. by apply Hgood.
      * injection HDo as <- <- <- <-.
        split; [done|]. split; [by eauto|]. intros r Hr. by apply Hgood.
    + exfalso. eapply Do_received_stuck; [|exact HDo]. intros ??. by rewrite Hc.
    + exfalso. eapply Do_received_stuck; [|exact HDo]. intros ??. by rewrite Hc.
  - destruct (Do_failed_store net c req obj e0 σ) as (σ'' & Heq & _).
    rewrite Heq in HDo. injection HDo as <- <- <- <-. done.
Qed.

End store.
(** ** The dispatch engine: what a call sends, keeps and returns *)

Section engine_properties.

Import http librariesio spec engine.

Variable url_Parse : string → URL.t + errors.t.
Context `{Unmarshaler A}.

Lemma CheckResponse_rejected (resp : Response.t) (σ : state) (l : loc) (b : Reader) :
  Response.Body resp = Some l →
  bodies σ !! l = Some b →
  success (Response.StatusCode resp) = false →
  reaches_Response (unread b) = false →
  ∃ errResp, CheckResponse (Some resp) σ = Ok (Some errResp, read_at l σ).
Proof.
  intros Hbody Hl Hs Hr. rewrite (CheckResponse_run _ _ _ _ Hbody Hl), Hs.
  unfold read_at. rewrite Hl. destruct (closed b); [by eauto|].
  destruct (failure b); [by eauto|].
  destruct (Unmarshal_message resp _ Hr) as [err ->]. by eauto.
Qed.

Lemma trace_settled (σ : state) (b : Reader) (req : Request.t) :
  trace (settled σ b req) = trace σ ++ [Sent req].
Proof. unfold settled. by rewrite trace_closed_at, trace_read_at. Qed.

(** X1.  When the HTTP client answers with an error, [Do] returns a nil
    response and that error, and leaves the container as it is.  In a
    [*url.Error] whose URL parses, the URL is replaced by the string form
    of the redacted URL, whose query holds REDACTED for api_key; when that
    URL does not parse, the error is returned as it came, and so is any
    other error.  The request was sent once; no stream and no URL object
    that was there has changed: the URL of the request keeps its key. *)
Theorem Do_redacts_transport_error (net : list exchange) (c : Client) (req : Request.t)
    (obj : option A) (err : errors.t) (σ : state) :
  ∃ σ',
    Do url_Parse (Failed err :: net) c req obj σ
    = Ok ((None, Some (Err (redacted_error url_Parse err)), obj), σ')
    ∧ trace σ' = trace σ ++ [Sent req]
    ∧ bodies σ' = bodies σ
    ∧ (∀ l u, urls σ !! l = Some u → urls σ' !! l = Some u)
    ∧ (∀ op u e u', err = errors.url_Error op u e → url_Parse u = inl u' →
         redacted_error url_Parse err = errors.url_Error op (URL.String' (redacted u')) e
         ∧ URL.Query (redacted u') !! "api_key" = Some ["REDACTED"]
         ∧ ∀ k, k ≠ "api_key" → URL.Query (redacted u') !! k = URL.Query u' !! k)
    ∧ (∀ op u e e', err = errors.url_Error op u e → url_Parse u = inr e' →
         redacted_error url_Parse err = err)
    ∧ ((∀ op u e, err ≠ errors.url_Error op u e) → redacted_error url_Parse err = err).
Proof.
  destruct (Do_failed_store url_Parse net c req obj err σ) as (σ' & HDo & Ht & Hb & Hu).
  exists σ'. repeat (split; [assumption|]). split; [|split].
  - intros op u e u' -> Hp. unfold redacted_error. rewrite Hp. split; [done|].
    rewrite Query_redacted. split; [apply lookup_insert_eq|].
    intros k Hk. by apply lookup_insert_ne.
  - intros op u e e' -> Hp. unfold redacted_error. by rewrite Hp.
  - intros Hother. destruct err as [op u e| | |]; try done. by destruct (Hother op u e).
Qed.

(** X2.  The answers of the HTTP client are followed, none of them a
    rejected response whose body holds an object for a member named
    Response (the decoder would write it into the response and, through
    its request, could reach the URL of the request), and one of them ends
    the attempts.  Then [Do] returns and has written to no URL object:
    every URL object that was there before the call holds what it held,
    however often the request was sent, so that the URL of the request
    still holds the API key, also when the error that [Do] returns shows a
    redacted URL. *)
Theorem Do_keeps_the_URLs (net : list exchange) (c : Client) (req : Request.t)
    (obj : option A) (σ : state) :
  settles c (Request.Method req) net = true →
  ∃ r σ',
    Do url_Parse net c req obj σ = Ok (r, σ')
    ∧ (∀ l u, urls σ !! l = Some u → urls σ' !! l = Some u)
    ∧ (∀ l u, Request.URL req = Some l → urls σ !! l = Some u → urls σ' !! l = Some u).
Proof.
  intros Hnet. destruct (Do_returns url_Parse net c req obj σ Hnet) as (r & σ' & HDo).
  exists r, σ'. split; [exact HDo|].
  destruct (Do_store url_Parse _ _ _ _ _ _ _ HDo) as (Hu & _ & _).
  split; [exact Hu|]. intros l u _. apply Hu.
Qed.

(** X3.  The answers are followed, none of them a rejected response whose
    body holds an object for a member named Response (which could make
    the body of the response nil), and one of them ends the attempts.
    Then [Do] returns, and every body stream that the HTTP client handed
    out during the call is closed, those of the attempts that were
    repeated too.  So the body of a response that [Do] returns is closed:
    it was read to its end before when no error comes with the
    response. *)
Theorem Do_closes_every_body (net : list exchange) (c : Client) (req : Request.t)
    (obj : option A) (σ : state) :
  settles c (Request.Method req) net = true →
  ∃ resp err o σ',
    Do url_Parse net c req obj σ = Ok ((resp, err, o), σ')
    ∧ (∀ l b, bodies σ !! l = None → bodies σ' !! l = Some b → closed b = true)
    ∧ (∀ r, resp = Some r →
         ∃ l b, Response.Body r = Some l ∧ bodies σ !! l = None
                ∧ bodies σ' !! l = Some b ∧ closed b = true
                ∧ (err = None → unread b = EmptyString)).
Proof.
  intros Hnet.
  destruct (Do_returns url_Parse net c req obj σ Hnet) as ([[resp err] o] & σ' & HDo).
  exists resp, err, o, σ'. split; [exact HDo|]. split.
  - by destruct (Do_store url_Parse _ _ _ _ _ _ _ HDo) as (_ & _ & Hnew).
  - intros r Hr. destruct (Do_shape url_Parse _ _ _ _ _ _ _ _ _ HDo) as (_ & _ & Hresp).
    by destruct (Hresp r Hr) as (_ & _ & Hbody).
Qed.

(** X4.  The answers are followed, none of them a rejected response whose
    body holds an object for a member named Response (which could change
    the status of the response), and one of them ends the attempts.  Then
    [Do] returns, and what it returns fits together.  Without an error
    there is a response.  The status of a response returned is in the
    range 200 to 299 exactly when no error comes with it: a response with
    an error is one that [CheckResponse] rejected.  A container that was
    given is still there, and none appears when none was given. *)
Theorem Do_result_shape (net : list exchange) (c : Client) (req : Request.t)
    (obj : option A) (σ : state) :
  settles c (Request.Method req) net = true →
  ∃ resp err o σ',
    Do url_Parse net c req obj σ = Ok ((resp, err, o), σ')
    ∧ (err = None → ∃ r, resp = Some r ∧ success (Response.StatusCode r) = true)
    ∧ (∀ r, resp = Some r → (success (Response.StatusCode r) = true ↔ err = None))
    ∧ (is_Some obj ↔ is_Some o).
Proof.
  intros Hnet.
  destruct (Do_returns url_Parse net c req obj σ Hnet) as ([[resp err] o] & σ' & HDo).
  exists resp, err, o, σ'. split; [exact HDo|].
  destruct (Do_shape url_Parse _ _ _ _ _ _ _ _ _ HDo) as (Ho & Herr & Hresp).
  split; [|split; [|exact Ho]].
  - intros He. destruct (Herr He) as [r ->]. exists r. split; [done|].
    destruct (Hresp r eq_refl) as (_ & Hiff & _). by apply Hiff.
  - intros r Hr. destruct (Hresp r Hr) as (_ & Hiff & _). done.
Qed.

(** X5.  A client as [NewClient] returns it has [Retry] off.  With
    [Retry] off, or for a request whose method is not GET, [Do] sends the
    request once, never sleeps and returns, on every answer that is
    followed: an error, a response with a status from 200 to 299, or a
    response whose body cannot be read or holds no object for a member
    named Response (an object there is decoded into the response and its
    request, and could turn the answer into one that is repeated). *)
Theorem Do_sends_once (apiKey : string) (x : exchange) (net : list exchange) (c : Client)
    (req : Request.t) (obj : option A) (σ : state) :
  Retry (NewClient url_Parse apiKey) = false
  ∧ (Retry c = false ∨ Request.Method req ≠ "GET" →
     plain x = true →
     ∃ r σ',
       Do url_Parse (x :: net) c req obj σ = Ok (r, σ')
       ∧ trace σ' = trace σ ++ [Sent req]).
Proof.
  split; [done|]. intros Hoff Hx.
  assert (retried c (Request.Method req) x = false) as Hno.
  { destruct x as [code header b|err]; [|done]. unfold retried, MethodGet.
    destruct Hoff as [->|Hm]; [done|].
    apply String.eqb_neq in Hm. rewrite Hm. by rewrite !andb_false_r. }
  assert (∀ resp, eligible c resp req = false) as Hel.
  { intros resp. apply not_true_iff_false. rewrite eligible_iff. intros (? & _ & ? & _).
    destruct Hoff; congruence. }
  destruct x as [code header b|err].
  - destruct (success code) eqn:Hs.
    { rewrite Do_accepted by done. eexists _, _. split; [done|].
      by rewrite trace_closed_at, trace_read_at. }
    destruct (CheckResponse_followed (received_response σ code header req)
                (received_state σ b req) (arrival σ) b eq_refl (lookup_received _ _ _))
      as (e & Hc & Hnone & _).
    { cbn [Response.StatusCode received_response]. exact Hx. }
    cbn [Response.StatusCode received_response] in Hc, Hnone. rewrite Hs in Hc, Hnone.
    destruct e as [errResp|]; [|by destruct Hnone as [Hnone _]; specialize (Hnone eq_refl)].
    destruct (Do_rejected url_Parse net c req obj _ _ _ _ _ _ Hc) as [_ Heq].
    rewrite Heq, Hel. eexists _, _. split; [done|].
    by rewrite trace_closed_at, trace_read_at.
  - destruct (Do_failed_store url_Parse net c req obj err σ) as (σ'' & Heq & Ht & _).
    by eauto.
Qed.

(** X6.  [Do] repeats a GET request as often as the answer is 429 with a
    reset-time header that holds a number: there is no bound on the
    attempts.  When [n] such answers are followed by an answer in the
    range 200 to 299, [Do] returns after it has sent the request [n + 1]
    times and slept [n] times, each time for the pause that the header
    asks for. *)
Theorem Do_retries_unbounded (n : nat) (c : Client) (req : Request.t) (obj : option A)
    (header header' : Header) (b b' : Reader) (code' t : Z) (σ : state) :
  Retry c = true →
  Request.Method req = "GET" →
  strconv.Atoi (Header_Get header "X-RateLimit-Reset") = inl t →
  reaches_Response (unread b) = false →
  success code' = true →
  ∃ r σ',
    Do url_Parse (replicate n (Received 429 header b) ++ [Received code' header' b'])
      c req obj σ = Ok (r, σ')
    ∧ trace σ' = trace σ ++ attempts n req (pause t) ++ [Sent req].
Proof.
  intros Hretry Hget Hatoi Hreach Hok. revert σ.
  induction n as [|n IH]; intros σ.
  - cbn [replicate app]. rewrite Do_accepted by done. eexists _, _. split; [done|].
    by rewrite trace_closed_at, trace_read_at.
  - cbn [replicate app].
    assert (eligible c (received_response σ 429 header req) req = true) as Hel.
    { apply eligible_iff. repeat split; [done..|]. simpl. intros Hempty.
      by rewrite Hempty in Hatoi. }
    destruct (CheckResponse_rejected (received_response σ 429 header req)
                (received_state σ b req) (arrival σ) b eq_refl
                (lookup_received _ _ _) eq_refl Hreach) as [errResp Hc].
    destruct (Do_rejected url_Parse
                (replicate n (Received 429 header b) ++ [Received code' header' b'])
                c req obj _ _ _ _ _ _ Hc) as [_ Heq].
    rewrite Heq, Hel. unfold reset. cbn [Response.Header received_response]. rewrite Hatoi.
    set (σs := slept (pause t) _).
    destruct (IH σs) as (r & σ3 & Hrec & Ht).
    unfold mbind at 1, M_bind, M.bind at 1. rewrite Hrec.
    destruct (Do_store url_Parse _ _ _ _ _ _ _ Hrec) as (_ & Hold & _).
    assert (is_Some (bodies σs !! arrival σ)) as [b0 Hb0].
    { unfold σs. cbn [slept bodies].
      rewrite bodies_read_at, decide_True, lookup_received by done. by eauto. }
    unfold mbind, M.bind. rewrite (Close_run _ _ _ (Hold _ _ Hb0)).
    eexists _, _. split; [done|].
    rewrite trace_closed_at, Ht. unfold σs. cbn [slept trace].
    rewrite trace_read_at. unfold received_state. cbn [trace].
    unfold attempts. cbn [replicate concat]. by rewrite <- !(assoc_L (++)).
Qed.

(** X17.  A response with a status from 200 to 299 whose body can be
    read: [Do] reads the body to its end, closes it, and sends nothing
    more, whatever the client would answer next.  Without a container it
    returns the response and no error.  With one it decodes the body into
    it: when that succeeds it returns the response, and when it fails a
    nil response with the decoder's error; either way the container holds
    what the decoder left in it. *)
Theorem Do_loads_the_body (net : list exchange) (c : Client) (req : Request.t)
    (obj : option A) (code : Z) (header : Header) (b : Reader) (σ : state) :
  success code = true →
  read_error b = None →
  ∃ σ' b',
    Do url_Parse (Received code header b :: net) c req obj σ
    = Ok (match obj with
          | None => (Some (received_response σ code header req), None, None)
          | Some o =>
              match Unmarshal (unread b) o with
              | (o', None) => (Some (received_response σ code header req), None, Some o')
              | (o', Some err) => (None, Some (Err err), Some o')
              end
          end, σ')
    ∧ trace σ' = trace σ ++ [Sent req]
    ∧ bodies σ' !! arrival σ = Some b'
    ∧ unread b' = EmptyString ∧ closed b' = true.
Proof.
  intros Hs Hre. exists (settled σ b req).
  destruct (bodies_settled_arrival σ b req) as (b' & Hb' & Hcl & Hun). exists b'.
  rewrite Do_accepted, Hre by done. fold (settled σ b req).
  split; [by destruct obj|]. split; [apply trace_settled|]. by eauto.
Qed.

(** X19.  The retry policy of [Do], for a response with a status outside
    200 to 299 whose body cannot be read or holds no object for a member
    named Response (an object there is decoded into the response, and
    could change the status and the headers that the policy looks at).
    [CheckResponse] rejects the response.  Another attempt is made exactly
    when the response is eligible, [Retry] set, status 429, method GET and
    a reset-time header that is not empty, and that header is a number:
    [Do] then sleeps, for the reset time and one second as long as that
    fits 64 bits of nanoseconds, and calls itself with the same request
    and the same container; when the answers that remain are followed and
    one of them ends the attempts, [Do] returns after it has sent, slept
    and sent again.  When the header is no number, [Do] returns the
    response and the error of [strconv.Atoi]; when the response is not
    eligible, the response and the [ErrorResponse]: both times it has
    sent once and not slept, whatever the client would answer next. *)
Theorem Do_retry_policy (net : list exchange) (c : Client) (req : Request.t) (obj : option A)
    (code : Z) (header : Header) (b : Reader) (σ : state) :
  success code = false →
  negb (readable b) || negb (object_in_Response (unread b)) = true →
  ∃ errResp σ2,
    CheckResponse (Some (received_response σ code header req)) (received_state σ b req)
    = Ok (Some errResp, σ2)
    ∧ (∀ t, eligible c (received_response σ code header req) req = true →
          strconv.Atoi (reset (received_response σ code header req)) = inl t →
          Do url_Parse (Received code header b :: net) c req obj σ
          = (r ← Do url_Parse net c req obj; io.Close (Some (arrival σ));; mret r)
              (slept (pause t) σ2)
          ∧ trace (slept (pause t) σ2) = trace σ ++ [Sent req; Slept (pause t)]
          ∧ (settles c (Request.Method req) net = true →
               ∃ r σ' events,
                 Do url_Parse (Received code header b :: net) c req obj σ = Ok (r, σ')
                 ∧ trace σ'
                   = trace σ ++ Sent req :: Slept (pause t) :: Sent req :: events)
          ∧ (- 9223372036 ≤ t + 1 ≤ 9223372036 → pause t = (t + 1) * time.Second))
    ∧ (∀ e, eligible c (received_response σ code header req) req = true →
          strconv.Atoi (reset (received_response σ code header req)) = inr e →
          ∃ σ', trace σ' = trace σ ++ [Sent req]
            ∧ ∀ net', Do url_Parse (Received code header b :: net') c req obj σ
                = Ok ((Some (received_response σ code header req),
                       Some (Err (errors.NumError "Atoi"
                                    (reset (received_response σ code header req)) e)),
                       obj), σ'))
    ∧ (eligible c (received_response σ code header req) req = false →
          ∃ σ', trace σ' = trace σ ++ [Sent req]
            ∧ ∀ net', Do url_Parse (Received code header b :: net') c req obj σ
                = Ok ((Some (received_response σ code header req),
                       Some (ErrResponse errResp), obj), σ')).
Proof.
  intros Hs Hplain.
  destruct (CheckResponse_followed (received_response σ code header req)
              (received_state σ b req) (arrival σ) b eq_refl (lookup_received _ _ _))
    as (e0 & Hcheck & Hnone & _).
  { cbn [Response.StatusCode received_response]. by rewrite Hs. }
  cbn [Response.StatusCode received_response] in Hcheck, Hnone. rewrite Hs in Hcheck, Hnone.
  destruct e0 as [errResp|]; [|by destruct Hnone as [Hnone _]; specialize (Hnone eq_refl)].
  exists errResp, (read_at (arrival σ) (received_state σ b req)).
  split; [exact Hcheck|].
  set (σ2 := read_at (arrival σ) (received_state σ b req)) in *.
  assert (trace σ2 = trace σ ++ [Sent req]) as Ht by (unfold σ2; by rewrite trace_read_at).
  split; [|split].
  - intros t Hel Hatoi.
    destruct (Do_rejected url_Parse net c req obj _ _ _ _ _ _ Hcheck) as [_ Heq].
    rewrite Hel, Hatoi in Heq. split; [exact Heq|].
    split; [simpl; by rewrite Ht, <- (assoc_L (++))|].
    split; [|apply pause_seconds].
    intros Hnet. rewrite Heq.
    destruct (Do_returns url_Parse net c req obj (slept (pause t) σ2) Hnet)
      as (r3 & σ3 & Hrec).
    unfold mbind at 1, M_bind, M.bind at 1. rewrite Hrec.
    destruct (Do_store url_Parse _ _ _ _ _ _ _ Hrec) as (_ & Hold & _).
    assert (is_Some (bodies (slept (pause t) σ2) !! arrival σ)) as [b0 Hb0].
    { unfold σ2. cbn [slept bodies].
      rewrite bodies_read_at, decide_True, lookup_received by done. by eauto. }
    unfold mbind, M.bind. rewrite (Close_run _ _ _ (Hold _ _ Hb0)).
    apply Do_trace in Hrec as [events Hrec]. simpl in Hrec.
    eexists r3, _, events. split; [done|].
    rewrite trace_closed_at, Hrec, Ht, <- !(assoc_L (++)). done.
  - intros e Hel Hatoi. exists (closed_at (arrival σ) σ2).
    split; [by rewrite trace_closed_at|]. intros net'.
    destruct (Do_rejected url_Parse net' c req obj _ _ _ _ _ _ Hcheck) as [_ Heq].
    by rewrite Hel, Hatoi in Heq.
  - intros Hel. exists (closed_at (arrival σ) σ2).
    split; [by rewrite trace_closed_at|]. intros net'.
    destruct (Do_rejected url_Parse net' c req obj _ _ _ _ _ _ Hcheck) as [_ Heq].
    by rewrite Hel in Heq.
Qed.

End engine_properties.
(** ** Nil pointers, and what the validator leaves alone *)

Section pointers.

Import http librariesio spec engine.

Variable IsPrint_table : Z → bool.

(** X7.  [CheckResponse] dereferences the response and, for a status
    outside 200 to 299, reads from its body: it panics exactly when the
    response is nil, or when the status is outside that range and there is
    no body stream to read.  A response with a status from 200 to 299 and
    a nil body is accepted. *)
Theorem CheckResponse_nil_pointers (resp : option Response.t) (σ : state) :
  (CheckResponse resp σ = Panic
   ↔ resp = None
     ∨ ∃ r, resp = Some r ∧ success (Response.StatusCode r) = false ∧ body_of r σ = None)
  ∧ (∀ r, resp = Some r → success (Response.StatusCode r) = true →
       CheckResponse resp σ = Ok (None, σ)).
Proof.
  split; [|by intros r -> Hs; apply CheckResponse_success].
  destruct resp as [r|]; [|split; [by left|done]].
  destruct (success (Response.StatusCode r)) eqn:Hs.
  { rewrite CheckResponse_success by done. split; [done|].
    intros [|(r' & [= <-] & Hs' & _)]; [done|congruence]. }
  unfold body_of. destruct (Response.Body r) as [l|] eqn:Hbody.
  - simpl. destruct (bodies σ !! l) as [b|] eqn:Hl.
    + rewrite (CheckResponse_run _ _ _ _ Hbody Hl), Hs. split.
      * destruct (closed b); [done|]. destruct (failure b); [done|].
        pose proof (Unmarshal_ErrorResponse_no_Panic (unread b)
                      (ErrorResponse.mk (Some r) EmptyString)) as Hno.
        by destruct (Unmarshal_ErrorResponse _ _) as [[? ?]| |].
      * intros [|(r' & [= <-] & _ & Hnone)]; [done|].
        rewrite Hbody in Hnone. simpl in Hnone. congruence.
    + split; [intros _; right; exists r; by rewrite Hbody|]. intros _.
      unfold CheckResponse, success in *.
      unfold mbind at 1, M_bind, M.bind at 1, M.deref. rewrite Hs.
      unfold mbind at 1, M.bind at 1, io.ReadAll.
      unfold mbind at 1, M_bind, M.bind at 1, M.load_body. by rewrite Hbody, Hl.
  - split; [intros _; right; exists r; by rewrite Hbody|]. intros _.
    unfold CheckResponse, success in *.
    unfold mbind at 1, M_bind, M.bind at 1, M.deref. rewrite Hs.
    unfold mbind at 1, M.bind at 1, io.ReadAll.
    unfold mbind at 1, M_bind, M.bind at 1, M.load_body. by rewrite Hbody.
Qed.

(** X8.  The response has a status from 200 to 299, or it has a body
    stream that cannot be read or holds no object for a member named
    Response (the decoder would write such an object into the response
    and what it points to).  Then [CheckResponse] returns, and it has sent
    nothing, slept never, written to no URL object and closed no stream.
    The one thing it may change is the body of the response, which it
    reads to its end when the status is outside 200 to 299: that stream
    keeps its error and is as open or closed as it was, every other stream
    is as it was.  For a status from 200 to 299 nothing changes at all,
    so that the body is left for the caller to read. *)
Theorem CheckResponse_touches_only_the_body (resp : Response.t) (σ : state) :
  success (Response.StatusCode resp) = true
  ∨ (∃ l b, Response.Body resp = Some l ∧ bodies σ !! l = Some b
            ∧ negb (readable b) || negb (object_in_Response (unread b)) = true) →
  ∃ e σ',
    CheckResponse (Some resp) σ = Ok (e, σ')
    ∧ urls σ' = urls σ
    ∧ trace σ' = trace σ
    ∧ (∀ l, Response.Body resp ≠ Some l → bodies σ' !! l = bodies σ !! l)
    ∧ (∀ l b, bodies σ !! l = Some b →
         ∃ b', bodies σ' !! l = Some b' ∧ closed b' = closed b ∧ failure b' = failure b
               ∧ (unread b' = unread b ∨ unread b' = EmptyString))
    ∧ (success (Response.StatusCode resp) = true → σ' = σ).
Proof.
  intros Hplain. destruct (success (Response.StatusCode resp)) eqn:Hs.
  { exists None, σ. split; [by apply CheckResponse_success|].
    repeat (split; [done|]). split; [|done]. intros l b Hl. exists b. by eauto. }
  destruct Hplain as [|(l0 & b0 & Hbody & Hl0 & Hplain)]; [done|].
  destruct (CheckResponse_followed resp σ l0 b0 Hbody Hl0) as (e & Hc & _).
  { by rewrite Hs. }
  rewrite Hs in Hc. exists e, (read_at l0 σ). split; [exact Hc|].
  split; [apply urls_read_at|]. split; [apply trace_read_at|]. split; [|split; [|done]].
  - intros l Hne. rewrite bodies_read_at, decide_False; [done|]. intros ->. by rewrite Hbody in Hne.
  - intros l b Hl. rewrite bodies_read_at. destruct (decide (l = l0)) as [->|Hne].
    + rewrite Hl0 in Hl |- *. injection Hl as ->. simpl.
      destruct (closed b) eqn:Hcl; eexists; (split; [done|]); simpl; by eauto.
    + exists b. by eauto.
Qed.

(** X9.  [Error] goes through three pointers, the response of the error,
    the request of that response and the URL of that request: it panics
    exactly when one of them is nil (or the URL object is missing), and
    returns a text otherwise. *)
Theorem Error_nil_pointers (r : ErrorResponse.t) (σ : state) :
  Error IsPrint_table r σ = Panic
  ↔ ¬ ∃ resp req l u,
        ErrorResponse.Response r = Some resp ∧ Response.Request resp = Some req
        ∧ Request.URL req = Some l ∧ urls σ !! l = Some u.
Proof.
  split.
  - intros Hpanic (resp & req & l & u & Hresp & Hreq & Hurl & Hl).
    by rewrite (Error_run IsPrint_table _ _ _ _ _ _ Hresp Hreq Hurl Hl) in Hpanic.
  - intros Hno. destruct (Error_outcome IsPrint_table r σ) as [Hp|Hall]; [done|]. by destruct Hno.
Qed.

(** X10.  The field [Response] of [ErrorResponse] has no JSON tag, so
    that a member named Response, in whatever case, of the body of a
    rejected response is decoded into it.  For a body that is a JSON
    object in which no such member holds an object, the error that
    [CheckResponse] returns has the message of the last string member
    named error, and the pointer that the members named Response leave: a
    last such member that holds null leaves nil, and then [Error] panics
    on the error returned. *)
Theorem CheckResponse_decodes_Response (resp : Response.t) (σ : state) (l : loc)
    (b : Reader) (members : list (string * json.value)) :
  Response.Body resp = Some l →
  bodies σ !! l = Some b →
  success (Response.StatusCode resp) = false →
  readable b = true →
  json.parse (unread b) = Some (json.Object members) →
  existsb object_for_Response members = false →
  CheckResponse (Some resp) σ
  = Ok (Some (ErrorResponse.mk (last_Response (Some resp) members)
                (last_message EmptyString members)),
        with_body l (drained b) σ)
  ∧ (∀ ms key, members = ms ++ [(key, json.Null)] →
       select_field key = Some field_Response →
       last_Response (Some resp) members = None)
  ∧ (last_Response (Some resp) members = None →
     ∀ σ'', Error IsPrint_table
              (ErrorResponse.mk (last_Response (Some resp) members)
                 (last_message EmptyString members)) σ'' = Panic).
Proof.
  intros Hbody Hl Hs Hread Hparse Hex. split; [|split].
  - rewrite (CheckResponse_run _ _ _ _ Hbody Hl), Hs.
    unfold readable in Hread. apply andb_true_iff in Hread as [Hcl Hf].
    apply negb_true_iff in Hcl. apply bool_decide_eq_true in Hf. rewrite Hcl, Hf.
    unfold Unmarshal_ErrorResponse. rewrite Hparse.
    by destruct (decode_members_fields (Some resp) EmptyString None members Hex) as [saved' ->].
  - intros ms key -> Hkey. rewrite last_Response_app. simpl. by rewrite Hkey.
  - intros Hnil σ''. destruct (Error_outcome IsPrint_table
      (ErrorResponse.mk (last_Response (Some resp) members)
         (last_message EmptyString members)) σ'') as [Hp|(? & ? & ? & ? & Hsome & _)]; [done|].
    simpl in Hsome. congruence.
Qed.

End pointers.
(** ** The request builder: errors, the store, the encoded body *)

Section requests.

Import Bytes http librariesio spec engine.

Variable url_Parse : string → URL.t + errors.t.
Variable ResolveReference : URL.t → URL.t → URL.t.
Context `{Marshaler A}.

(** X11.  For a client with a base URL, [NewRequest] returns an error, and
    then leaves the store as it is, with no URL object and no stream made,
    in these cases, which are tried in this order: the URL string does not
    parse (the parser's error is returned); the payload cannot be encoded
    (the encoder's error); the method, GET when it is empty, is no valid
    method; the string form of the resolved URL does not parse.  In every
    other case it returns a request, whose method is the one given, or GET
    for the empty one. *)
Theorem NewRequest_errors (c : Client) (method urlStr : string) (data : option A)
    (σ : state) (base : URL.t) :
  BaseURL c = Some base →
  (∀ err σ', NewRequest url_Parse ResolveReference c method urlStr data σ = Ok (inr err, σ') →
     σ' = σ)
  ∧ (∀ err, url_Parse urlStr = inr err →
       NewRequest url_Parse ResolveReference c method urlStr data σ = Ok (inr err, σ))
  ∧ (∀ relativeURL err, url_Parse urlStr = inl relativeURL → payload data = inr err →
       NewRequest url_Parse ResolveReference c method urlStr data σ = Ok (inr err, σ))
  ∧ (∀ relativeURL body, url_Parse urlStr = inl relativeURL → payload data = inl body →
       validMethod (if is_empty method then "GET" else method) = false →
       ∃ err, NewRequest url_Parse ResolveReference c method urlStr data σ = Ok (inr err, σ))
  ∧ (∀ relativeURL body err, url_Parse urlStr = inl relativeURL → payload data = inl body →
       validMethod (if is_empty method then "GET" else method) = true →
       url_Parse (URL.String' (ResolveReference base relativeURL)) = inr err →
       NewRequest url_Parse ResolveReference c method urlStr data σ = Ok (inr err, σ))
  ∧ (∀ relativeURL body u, url_Parse urlStr = inl relativeURL → payload data = inl body →
       validMethod (if is_empty method then "GET" else method) = true →
       url_Parse (URL.String' (ResolveReference base relativeURL)) = inl u →
       ∃ req σ',
         NewRequest url_Parse ResolveReference c method urlStr data σ = Ok (inl req, σ')
         ∧ Request.Method req = (if is_empty method then "GET" else method)).
Proof.
  intros Hbase. pose proof (NewRequest_cases url_Parse ResolveReference c method urlStr data σ base Hbase)
    as Hcases.
  split; [|split; [|split; [|split; [|split]]]].
  - intros err σ' HNew.
    destruct (url_Parse urlStr) as [relativeURL|e1]; [|congruence].
    destruct (payload data) as [body|e2]; [|congruence].
    destruct (validMethod _).
    + destruct (url_Parse (URL.String' _)) as [u|e3]; [|congruence].
      destruct Hcases as (req & σ'' & Heq). congruence.
    + destruct Hcases as [e4 Heq]. congruence.
  - intros err Hp. by rewrite Hp in Hcases.
  - intros relativeURL err Hp Hpay. by rewrite Hp, Hpay in Hcases.
  - intros relativeURL body Hp Hpay Hm. by rewrite Hp, Hpay, Hm in Hcases.
  - intros relativeURL body err Hp Hpay Hm Hu. by rewrite Hp, Hpay, Hm, Hu in Hcases.
  - intros relativeURL body u Hp Hpay Hm Hu. rewrite Hp, Hpay, Hm, Hu in Hcases.
    destruct Hcases as (req & σ' & HNew). exists req, σ'. split; [done|].
    destruct (NewRequest_inv _ _ _ _ _ _ _ _ _ HNew)
      as (? & ? & ? & ? & _ & _ & _ & _ & _ & Hreq & _).
    by rewrite Hreq.
Qed.

(** X12.  The request that [NewRequest] returns owns its URL object, and
    its body stream when it has one: both are new, and nothing that was in
    the store has changed, so that the base URL of the client and the
    URLs of earlier requests are as they were.  Nothing was sent.  The
    request holds the headers Accept and User-Agent, Content-Type with a
    payload, and no other header. *)
Theorem NewRequest_owns_its_URL (c : Client) (method urlStr : string) (data : option A)
    (σ σ' : state) (req : Request.t) :
  NewRequest url_Parse ResolveReference c method urlStr data σ = Ok (inl req, σ') →
  trace σ' = trace σ
  ∧ (∀ l u, urls σ !! l = Some u → urls σ' !! l = Some u)
  ∧ (∀ l b, bodies σ !! l = Some b → bodies σ' !! l = Some b)
  ∧ (∃ l, Request.URL req = Some l ∧ urls σ !! l = None ∧ is_Some (urls σ' !! l))
  ∧ (∀ l, Request.Body req = Some l → bodies σ !! l = None ∧ is_Some (bodies σ' !! l))
  ∧ (∀ k, k ≠ "Accept" → k ≠ "User-Agent" → k ≠ "Content-Type" →
       Request.Header req !! k = None).
Proof.
  intros HNew.
  destruct (NewRequest_inv _ _ _ _ _ _ _ _ _ HNew)
    as (relativeURL & base & u & body & _ & _ & _ & _ & _ & -> & Hurls & Hbodies & Ht).
  assert (urls σ !! fresh (dom (urls σ)) = None) as Hfu
    by apply (not_elem_of_dom (D := gset loc)), is_fresh.
  assert (bodies σ !! fresh (dom (bodies σ)) = None) as Hfb
    by apply (not_elem_of_dom (D := gset loc)), is_fresh.
  split; [exact Ht|]. split; [|split; [|split; [|split]]].
  - intros l u0 Hl. rewrite Hurls, lookup_insert_ne; [done|]. intros <-. congruence.
  - intros l b Hl. rewrite Hbodies. destruct body; [|done].
    rewrite lookup_insert_ne; [done|]. intros <-. congruence.
  - exists (fresh (dom (urls σ))). split; [done|]. split; [done|].
    rewrite Hurls, lookup_insert_eq. by eauto.
  - cbn [Request.Body]. intros l Hl. destruct body as [bytes|]; [|done].
    injection Hl as <-. split; [done|]. rewrite Hbodies, lookup_insert_eq. by eauto.
  - cbn [Request.Header]. intros k Ha Hu Hc. unfold request_headers, Header_Set.
    change (CanonicalMIMEHeaderKey "Accept") with "Accept".
    change (CanonicalMIMEHeaderKey "User-Agent") with "User-Agent".
    change (CanonicalMIMEHeaderKey "Content-Type") with "Content-Type".
    destruct (bool_decide _); rewrite !lookup_insert_ne by done; apply lookup_empty.
Qed.

(** X13.  When the encoder's output for the payload is a JSON text, so is
    the body of the request, for the same value: the newline that
    [Encode] writes after the encoding does no harm.  The body is a new
    stream, open and whole. *)
Theorem NewRequest_body_is_JSON (c : Client) (method urlStr : string) (d : A)
    (σ σ' : state) (req : Request.t) (bytes : string) (v : json.value) :
  NewRequest url_Parse ResolveReference c method urlStr (Some d) σ = Ok (inl req, σ') →
  Marshal d = inl bytes →
  json.parse bytes = Some v →
  ∃ l b, Request.Body req = Some l ∧ bodies σ' !! l = Some b
         ∧ unread b = bytes +:+ newline
         ∧ json.parse (unread b) = Some v
         ∧ closed b = false ∧ failure b = None.
Proof.
  intros HNew Hm Hv.
  destruct (NewRequest_inv _ _ _ _ _ _ _ _ _ HNew)
    as (relativeURL & base & u & body & _ & _ & _ & Hpay & _ & -> & _ & Hbodies & _).
  assert (body = Some (bytes +:+ newline)) as ->.
  { unfold payload, Encode in Hpay. rewrite Hm in Hpay. by injection Hpay. }
  exists (fresh (dom (bodies σ))), (mkReader (bytes +:+ newline) None false).
  split; [done|]. rewrite Hbodies, lookup_insert_eq. split; [done|]. split; [done|].
  split; [by apply parse_then_newline|done].
Qed.

End requests.
(** ** The project calls *)

Section project_calls.

Import Bytes http librariesio spec engine project.

Variable url_Parse : string → URL.t + errors.t.
Variable ResolveReference : URL.t → URL.t → URL.t.
Context {Project_t : Type} `{Unmarshaler Project_t} (new_Project : Project_t).
Context {Projects_t : Type} `{Unmarshaler Projects_t} (nil_projects : Projects_t).

(** [NewRequest] makes nothing when it returns an error. *)
Lemma NewRequest_error_state `{Marshaler A} (c : Client) (method urlStr : string)
    (data : option A) (σ σ' : state) (err : errors.t) :
  NewRequest url_Parse ResolveReference c method urlStr data σ = Ok (inr err, σ') → σ' = σ.
Proof.
  destruct (BaseURL c) as [base|] eqn:Hbase.
  - pose proof (NewRequest_cases url_Parse ResolveReference c method urlStr data σ base Hbase)
      as Hcases.
    intros HNew. destruct (url_Parse urlStr) as [relativeURL|e1]; [|congruence].
    destruct (payload data) as [body|e2]; [|congruence].
    destruct (validMethod _).
    + destruct (url_Parse (URL.String' _)) as [u|e3]; [|congruence].
      destruct Hcases as (req & σ'' & Heq). congruence.
    + destruct Hcases as [e4 Heq]. congruence.
  - unfold NewRequest. destruct (url_Parse urlStr) as [relativeURL|e1]; [|by intros [= _ <-]].
    unfold mbind at 1, M_bind, M.bind at 1, M.deref. by rewrite Hbase.
Qed.

Lemma store_url_run (σ : state) (l : loc) (u v : URL.t) :
  urls σ !! l = Some u → M.store_url (Some l) v σ = Ok (tt, with_url l v σ).
Proof. intros Hl. unfold M.store_url. by rewrite Hl. Qed.

(** The request that [NewRequest] builds for GET without a payload. *)
Lemma NewRequest_get (c : Client) (urlStr : string) (σ σ1 : state) (req : Request.t) :
  NewRequest url_Parse ResolveReference (H := no_payload) c "GET" urlStr None σ
  = Ok (inl req, σ1) →
  ∃ relativeURL base u,
    url_Parse urlStr = inl relativeURL
    ∧ BaseURL c = Some base
    ∧ url_Parse (URL.String' (ResolveReference base relativeURL)) = inl u
    ∧ req = get_request c (fresh (dom (urls σ)))
    ∧ urls σ !! fresh (dom (urls σ)) = None
    ∧ σ1 = with_url (fresh (dom (urls σ))) (authorised (apiKey c) u) σ.
Proof.
  intros HNew.
  destruct (NewRequest_inv _ _ _ _ _ _ _ _ _ HNew)
    as (relativeURL & base & u & body & Hrel & Hbase & Hu & Hpay & _ & Hreq & Hurls & Hbodies
          & Ht).
  injection Hpay as <-. exists relativeURL, base, u. repeat (split; [done|]).
  split; [apply (not_elem_of_dom (D := gset loc)), is_fresh|].
  destruct σ1 as [us bs tr]. unfold with_url. simpl in *. by subst.
Qed.

(** A call that builds a GET request for [urlStr], has [Do] decode into
    [obj] and gives back [absent] in place of the result with an error:
    what it returns and sends. *)
Lemma fetch_sends {B : Type} `{Unmarshaler B} (net : list exchange) (c : Client)
    (urlStr : string) (obj : B) (σ σ' : state)
    (p : option B) (resp : option Response.t) (err : option error) :
  (r ← NewRequest url_Parse ResolveReference (H := no_payload) c "GET" urlStr None;
   match r with
   | inr err => mret (None, None, Some (Err err))
   | inl request =>
       '(response, err, project) ← Do url_Parse net c request (Some obj);
       match err with
       | Some err => mret (None, response, Some err)
       | None => mret (project, response, None)
       end
   end) σ = Ok ((p, resp, err), σ') →
  (is_Some p ↔ err = None)
  ∧ (err = None → ∃ r, resp = Some r ∧ success (Response.StatusCode r) = true)
  ∧ ((∃ e, NewRequest url_Parse ResolveReference (H := no_payload) c "GET" urlStr None σ
           = Ok (inr e, σ)
           ∧ σ' = σ ∧ resp = None ∧ err = Some (Err e))
     ∨ ∃ relativeURL base u l events,
         url_Parse urlStr = inl relativeURL
         ∧ BaseURL c = Some base
         ∧ url_Parse (URL.String' (ResolveReference base relativeURL)) = inl u
         ∧ urls σ !! l = None
         ∧ urls σ' !! l = Some (authorised (apiKey c) u)
         ∧ trace σ' = trace σ ++ Sent (get_request c l) :: events
         ∧ ∀ r, resp = Some r → Response.Request r = Some (get_request c l)).
Proof.
  unfold mbind at 1, M_bind, M.bind at 1.
  destruct (NewRequest _ _ _ _ _ _ σ) as [[[request|e] σ1]| |] eqn:HNew; [| |done..].
  - destruct (NewRequest_get _ _ _ _ _ HNew)
      as (relativeURL & base & u & Hrel & Hbase & Hu & -> & Hfresh & ->).
    unfold mbind at 1, M.bind at 1.
    destruct (Do _ _ _ _ _ _) as [[[[response err'] project] σ2]| |] eqn:HDo; [|done..].
    destruct (Do_shape _ _ _ _ _ _ _ _ _ _ HDo) as (Ho & Herr & Hresp).
    destruct (Do_trace _ _ _ _ _ _ _ _ HDo) as [events Ht].
    destruct (Do_store _ _ _ _ _ _ _ _ HDo) as (Hurls & _ & _).
    intros Hret.
    assert (resp = response ∧ err = err' ∧ σ' = σ2
            ∧ p = match err' with Some _ => None | None => project end)
      as (-> & -> & -> & ->) by (destruct err'; by injection Hret as <- <- <- <-).
    clear Hret. split; [|split].
    + destruct err'; [by split; [intros [? ?]|]|]. split; [done|]. intros _. apply Ho. by eauto.
    + intros He. destruct (Herr He) as [r ->]. exists r. split; [done|].
      destruct (Hresp r eq_refl) as (_ & Hiff & _). by apply Hiff.
    + right. exists relativeURL, base, u, (fresh (dom (urls σ))), events.
      repeat (split; [done|]). split; [apply Hurls, lookup_with_url|].
      split; [exact Ht|]. intros r Hr. by destruct (Hresp r Hr) as (Hreq & _).
  - intros [= <- <- <- <-]. pose proof (NewRequest_error_state _ _ _ _ _ _ _ HNew) as ->.
    split; [by split; [intros [? ?]|]|]. split; [done|]. left. by exists e.
Qed.

(** [NewRequest] for GET without a payload, for a client with a base
    URL: an error, or a request. *)
Lemma NewRequest_get_cases (c : Client) (urlStr : string) (σ : state) (base : URL.t) :
  BaseURL c = Some base →
  (∃ e, NewRequest url_Parse ResolveReference (H := no_payload) c "GET" urlStr None σ
        = Ok (inr e, σ))
  ∨ (∃ req σ1, NewRequest url_Parse ResolveReference (H := no_payload) c "GET" urlStr None σ
               = Ok (inl req, σ1)).
Proof.
  intros Hbase.
  pose proof (NewRequest_cases url_Parse ResolveReference (H := no_payload) c "GET" urlStr
                None σ base Hbase) as Hcases.
  destruct (url_Parse urlStr) as [relativeURL|e]; [|by left; eauto].
  cbn [payload] in Hcases.
  change (validMethod (if is_empty "GET" then "GET" else "GET")) with true in Hcases.
  cbv iota in Hcases.
  destruct (url_Parse (URL.String' _)) as [u|e]; [by right|by left; eauto].
Qed.

(** The call returns, for a client with a base URL and answers that are
    followed and end. *)
Lemma fetch_returns {B : Type} `{Unmarshaler B} (net : list exchange) (c : Client)
    (urlStr : string) (obj : B) (σ : state) (base : URL.t) :
  BaseURL c = Some base →
  settles c "GET" net = true →
  ∃ res σ',
    (r ← NewRequest url_Parse ResolveReference (H := no_payload) c "GET" urlStr None;
     match r with
     | inr err => mret (None, None, Some (Err err))
     | inl request =>
         '(response, err, project) ← Do url_Parse net c request (Some obj);
         match err with
         | Some err => mret (None, response, Some err)
         | None => mret (project, response, None)
         end
     end) σ = Ok (res, σ').
Proof.
  intros Hbase Hnet. unfold mbind at 1, M_bind, M.bind at 1.
  destruct (NewRequest_get_cases c urlStr σ base Hbase) as [[e ->]|(req & σ1 & HNew)];
    [by eauto|].
  rewrite HNew.
  destruct (NewRequest_get _ _ _ _ _ HNew) as (_ & _ & _ & _ & _ & _ & -> & _ & _).
  destruct (Do_returns url_Parse net c (get_request c (fresh (dom (urls σ)))) (Some obj) σ1
              Hnet) as ([[response err] project] & σ2 & HDo).
  unfold mbind, M.bind. rewrite HDo. destruct err; by eauto.
Qed.

(** X14.  For a client with a base URL, and answers of the HTTP client
    that are followed, none of them a rejected response whose body holds
    an object for a member named Response, one of which ends the
    attempts, [Project] returns.  It asks for the relative URL made of the
    platform, a slash and the name, as they are given.  When the request
    cannot be built, nothing is sent and no response is returned.
    Otherwise a GET request is sent that has no body, the headers Accept
    and User-Agent, and the URL that the base URL and the relative URL
    resolve to, with the API key of the client in its query; that URL is
    still the one of the request when the call returns.  A project is
    returned exactly when no error is: with an error the project is nil,
    also when a body was decoded in part, and without an error the
    response has a status from 200 to 299. *)
Theorem Project_fetches (net : list exchange) (c : Client) (plat name : string)
    (σ : state) (base : URL.t) :
  BaseURL c = Some base →
  settles c "GET" net = true →
  ∃ p resp err σ',
    Project url_Parse ResolveReference new_Project net c plat name σ
    = Ok ((p, resp, err), σ')
    ∧ (is_Some p ↔ err = None)
    ∧ (err = None → ∃ r, resp = Some r ∧ success (Response.StatusCode r) = true)
    ∧ ((∃ e, σ' = σ ∧ resp = None ∧ err = Some (Err e))
       ∨ ∃ relativeURL u l events,
           url_Parse (plat +:+ "/" +:+ name) = inl relativeURL
           ∧ url_Parse (URL.String' (ResolveReference base relativeURL)) = inl u
           ∧ urls σ !! l = None
           ∧ urls σ' !! l = Some (authorised (apiKey c) u)
           ∧ URL.Query (authorised (apiKey c) u) !! "api_key" = Some [apiKey c]
           ∧ trace σ' = trace σ ++ Sent (get_request c l) :: events).
Proof.
  intros Hbase Hnet.
  destruct (fetch_returns net c (plat +:+ "/" +:+ name) new_Project σ base Hbase Hnet)
    as ([[p resp] err] & σ' & Hrun).
  exists p, resp, err, σ'. split; [exact Hrun|].
  destruct (fetch_sends _ _ _ _ _ _ _ _ _ Hrun) as (Hp & Herr & Hsent).
  split; [exact Hp|]. split; [exact Herr|].
  destruct Hsent as [(e & _ & -> & -> & ->)|(relativeURL & base' & u & l & events & Hrel & Hbase'
                                                & Hu & Hfresh & Hl & Ht & Hreq)].
  - left. by exists e.
  - right. assert (base' = base) as -> by congruence.
    exists relativeURL, u, l, events.
    repeat (split; [done|]). split; [|done].
    rewrite Query_authorised. apply lookup_insert_eq.
Qed.

(** X15.  For a client with a base URL, and answers of the HTTP client
    that are followed, none of them a rejected response whose body holds
    an object for a member named Response, one of which ends the
    attempts, [ProjectDeps] returns.  It asks for the relative URL made of
    the platform, the name and the version with slashes between them, as
    they are given, and /dependencies after them.  When the request
    cannot be built, nothing is sent and no response is returned.
    Otherwise a GET request without a body is sent to the URL that the
    base URL and the relative URL resolve to, with the API key of the
    client in its query.  A project is returned exactly when no error is,
    and then the response has a status from 200 to 299. *)
Theorem ProjectDeps_fetches (net : list exchange) (c : Client) (plat name ver : string)
    (σ : state) (base : URL.t) :
  BaseURL c = Some base →
  settles c "GET" net = true →
  ∃ p resp err σ',
    ProjectDeps url_Parse ResolveReference new_Project net c plat name ver σ
    = Ok ((p, resp, err), σ')
    ∧ (is_Some p ↔ err = None)
    ∧ (err = None → ∃ r, resp = Some r ∧ success (Response.StatusCode r) = true)
    ∧ ((∃ e, σ' = σ ∧ resp = None ∧ err = Some (Err e))
       ∨ ∃ relativeURL u l events,
           url_Parse (plat +:+ "/" +:+ name +:+ "/" +:+ ver +:+ "/dependencies")
           = inl relativeURL
           ∧ url_Parse (URL.String' (ResolveReference base relativeURL)) = inl u
           ∧ urls σ !! l = None
           ∧ urls σ' !! l = Some (authorised (apiKey c) u)
           ∧ URL.Query (authorised (apiKey c) u) !! "api_key" = Some [apiKey c]
           ∧ trace σ' = trace σ ++ Sent (get_request c l) :: events).
Proof.
  intros Hbase Hnet.
  destruct (fetch_returns net c
              (plat +:+ "/" +:+ name +:+ "/" +:+ ver +:+ "/dependencies")
              new_Project σ base Hbase Hnet)
    as ([[p resp] err] & σ' & Hrun).
  exists p, resp, err, σ'. split; [exact Hrun|].
  destruct (fetch_sends _ _ _ _ _ _ _ _ _ Hrun) as (Hp & Herr & Hsent).
  split; [exact Hp|]. split; [exact Herr|].
  destruct Hsent as [(e & _ & -> & -> & ->)|(relativeURL & base' & u & l & events & Hrel & Hbase'
                                                & Hu & Hfresh & Hl & Ht & Hreq)].
  - left. by exists e.
  - right. assert (base' = base) as -> by congruence.
    exists relativeURL, u, l, events.
    repeat (split; [done|]). split; [|done].
    rewrite Query_authorised. apply lookup_insert_eq.
Qed.

(** What [Search] sends and returns, when it returns. *)
Lemma Search_sends (net : list exchange) (c : Client) (q : string)
    (σ σ' : state) (projects : Projects_t) (resp : option Response.t)
    (err : option error) :
  Search url_Parse ResolveReference nil_projects net c q σ = Ok ((projects, resp, err), σ') →
  (err ≠ None → projects = nil_projects)
  ∧ (err = None → ∃ r, resp = Some r ∧ success (Response.StatusCode r) = true)
  ∧ ((∃ e, σ' = σ ∧ resp = None ∧ err = Some (Err e))
     ∨ ∃ relativeURL base u l final events,
         url_Parse "search" = inl relativeURL
         ∧ BaseURL c = Some base
         ∧ url_Parse (URL.String' (ResolveReference base relativeURL)) = inl u
         ∧ urls σ !! l = None
         ∧ urls σ' !! l = Some final
         ∧ trace σ' = trace σ ++ Sent (get_request c l) :: events
         ∧ URL.Query final = <["q" := [q]]> (<["api_key" := [apiKey c]]> (URL.Query u))
         ∧ Values.Get (URL.Query final) "q" = q
         ∧ Values.Get (URL.Query final) "api_key" = apiKey c
         ∧ URL.Scheme final = URL.Scheme u
         ∧ URL.Host final = removeEmptyPort (URL.Host u)
         ∧ URL.Path final = URL.Path u
         ∧ URL.Fragment final = URL.Fragment u).
Proof.
  unfold Search. unfold mbind at 1, M_bind, M.bind at 1.
  destruct (NewRequest _ _ _ _ _ _ σ) as [[[request|e] σ1]| |] eqn:HNew; [| |done..].
  - destruct (NewRequest_get _ _ _ _ _ HNew)
      as (relativeURL & base & u & Hrel & Hbase & Hu & -> & Hfresh & ->).
    set (l := fresh (dom (urls σ))) in *.
    set (a := authorised (apiKey c) u).
    set (final := URL.set_RawQuery (Values.Encode (Values.Set' (URL.Query a) "q" q)) a).
    unfold mbind at 1, M.bind at 1, M.load_url. cbn [Request.URL get_request].
    rewrite lookup_with_url.
    unfold mbind at 1, M.bind at 1.
    rewrite (store_url_run _ _ a final (lookup_with_url _ _ _)), with_url_with_url.
    unfold mbind at 1, M.bind at 1.
    destruct (Do _ _ _ _ _ _) as [[[[response err'] projects'] σ2]| |] eqn:HDo; [|done..].
    destruct (Do_shape _ _ _ _ _ _ _ _ _ _ HDo) as (Ho & Herr & Hresp).
    destruct (Do_trace _ _ _ _ _ _ _ _ HDo) as [events Ht].
    destruct (Do_store _ _ _ _ _ _ _ _ HDo) as (Hurls & _ & _).
    intros Hret.
    assert (resp = response ∧ err = err' ∧ σ' = σ2
            ∧ (err' ≠ None → projects = nil_projects))
      as (-> & -> & -> & Hnil) by (destruct err'; by injection Hret as <- <- <- <-).
    clear Hret. split; [exact Hnil|]. split.
    + intros He. destruct (Herr He) as [r ->]. exists r. split; [done|].
      destruct (Hresp r eq_refl) as (_ & Hiff & _). by apply Hiff.
    + right. exists relativeURL, base, u, l, final, events.
      repeat (split; [done|]). split; [apply Hurls, lookup_with_url|].
      split; [exact Ht|].
      assert (URL.Query final = <["q" := [q]]> (<["api_key" := [apiKey c]]> (URL.Query u)))
        as Hq.
      { unfold final, URL.Query at 1. cbn [URL.RawQuery URL.set_RawQuery].
        rewrite ParseQuery_Encode by apply populated_Set, populated_ParseQuery.
        unfold a. by rewrite Query_authorised. }
      split; [exact Hq|]. rewrite Hq. unfold Values.Get, Values.index.
      rewrite lookup_insert_eq, lookup_insert_ne, lookup_insert_eq by done. done.
  - intros [= <- <- <- <-]. pose proof (NewRequest_error_state _ _ _ _ _ _ _ HNew) as ->.
    split; [done|]. split; [done|]. left. by exists e.
Qed.

(** X16.  For a client with a base URL, and answers of the HTTP client
    that are followed, none of them a rejected response whose body holds
    an object for a member named Response, one of which ends the
    attempts, [Search] returns.  It sends a GET request to the URL that
    the base URL and the relative URL search resolve to, with a query in
    which q holds the search string, whatever bytes it is made of,
    api_key holds the API key of the client, and every other parameter is
    as the resolved URL had it.  When the request cannot be built, nothing
    is sent.  With an error the slice returned is nil; without one the
    response has a status from 200 to 299. *)
Theorem Search_sends_the_query (net : list exchange) (c : Client) (q : string)
    (σ : state) (base : URL.t) :
  BaseURL c = Some base →
  settles c "GET" net = true →
  ∃ projects resp err σ',
    Search url_Parse ResolveReference nil_projects net c q σ
    = Ok ((projects, resp, err), σ')
    ∧ (err ≠ None → projects = nil_projects)
    ∧ (err = None → ∃ r, resp = Some r ∧ success (Response.StatusCode r) = true)
    ∧ ((∃ e, σ' = σ ∧ resp = None ∧ err = Some (Err e))
       ∨ ∃ relativeURL u l final events,
           url_Parse "search" = inl relativeURL
           ∧ url_Parse (URL.String' (ResolveReference base relativeURL)) = inl u
           ∧ urls σ !! l = None
           ∧ urls σ' !! l = Some final
           ∧ trace σ' = trace σ ++ Sent (get_request c l) :: events
           ∧ URL.Query final = <["q" := [q]]> (<["api_key" := [apiKey c]]> (URL.Query u))
           ∧ Values.Get (URL.Query final) "q" = q
           ∧ Values.Get (URL.Query final) "api_key" = apiKey c
           ∧ URL.Scheme final = URL.Scheme u
           ∧ URL.Host final = removeEmptyPort (URL.Host u)
           ∧ URL.Path final = URL.Path u
           ∧ URL.Fragment final = URL.Fragment u).
Proof.
  intros Hbase Hnet.
  assert (∃ res σ', Search url_Parse ResolveReference nil_projects net c q σ = Ok (res, σ'))
    as ([[projects resp] err] & σ' & Hrun).
  { unfold Search. unfold mbind at 1, M_bind, M.bind at 1.
    destruct (NewRequest_get_cases c "search" σ base Hbase) as [[e ->]|(req & σ1 & HNew)];
      [by eauto|].
    rewrite HNew.
    destruct (NewRequest_get _ _ _ _ _ HNew) as (_ & _ & u & _ & _ & _ & -> & _ & ->).
    unfold mbind at 1, M.bind at 1, M.load_url. cbn [Request.URL get_request].
    rewrite lookup_with_url.
    unfold mbind at 1, M.bind at 1.
    rewrite (store_url_run _ _ (authorised (apiKey c) u) _ (lookup_with_url _ _ _)),
      with_url_with_url.
    set (s := with_url _ _ σ).
    destruct (Do_returns url_Parse net c (get_request c (fresh (dom (urls σ))))
                (Some nil_projects) s Hnet) as ([[response err] projects] & σ2 & HDo).
    unfold mbind, M.bind. rewrite HDo. destruct err; by eauto. }
  exists projects, resp, err, σ'. split; [exact Hrun|].
  destruct (Search_sends _ _ _ _ _ _ _ _ Hrun) as (Hnil & Herr & Hsent).
  split; [exact Hnil|]. split; [exact Herr|].
  destruct Hsent as [(e & -> & -> & ->)|(relativeURL & base' & u & l & final & events & Hrel
                                           & Hbase' & Hrest)].
  - left. by exists e.
  - right. assert (base' = base) as -> by congruence.
    by exists relativeURL, u, l, final, events.
Qed.

End project_calls.

(** ** The theorems at work on concrete inputs *)

Section worked_examples.

Import http librariesio spec examples.

Lemma redactAPIKey_replaces_only_api_key_witness :
  urls (state_of secret_url EmptyString) !! 0%nat = Some secret_url
  ∧ is_Some (URL.Query secret_url !! "api_key")
  ∧ ∃ σ' u',
      redactAPIKey (Some 0%nat) (state_of secret_url EmptyString) = Ok (Some 0%nat, σ')
      ∧ urls σ' !! 0%nat = Some u'
      ∧ URL.Query u' !! "api_key" = Some ["REDACTED"]
      ∧ URL.Host u' = "service"
      ∧ redactAPIKey (Some 0%nat) σ' = Ok (Some 0%nat, σ').
Proof.
  assert (urls (state_of secret_url EmptyString) !! 0%nat = Some secret_url) as H1
    by reflexivity.
  assert (is_Some (URL.Query secret_url !! "api_key")) as H2
    by (exists ["SECRET"]; vm_compute; reflexivity).
  split; [exact H1|]. split; [exact H2|].
  destruct (redactAPIKey_replaces_only_api_key _ _ _ H1 H2)
    as (σ' & u' & Hrun & Hl & Hq & _ & _ & _ & _ & Hhost & _ & _ & _ & _ & _ & _ & Hidem & _).
  exists σ', u'. repeat (split; [assumption|]). assumption.
Defined.

Lemma redactAPIKey_inserts_api_key_witness :
  urls (state_of plain_url EmptyString) !! 0%nat = Some plain_url
  ∧ URL.Query plain_url !! "api_key" = None
  ∧ ∃ σ' u',
      redactAPIKey (Some 0%nat) (state_of plain_url EmptyString) = Ok (Some 0%nat, σ')
      ∧ urls σ' !! 0%nat = Some u'
      ∧ URL.Query u' !! "api_key" = Some ["REDACTED"]
      ∧ URL.RawQuery u' ≠ "q=grpc".
Proof.
  assert (urls (state_of plain_url EmptyString) !! 0%nat = Some plain_url) as H1
    by reflexivity.
  assert (URL.Query plain_url !! "api_key" = None) as H2 by (vm_compute; reflexivity).
  split; [exact H1|]. split; [exact H2|].
  destruct (redactAPIKey_inserts_api_key _ _ _ H1 H2) as (σ' & u' & Hrun & Hl & Hq & _ & Hraw).
  exists σ', u'. repeat (split; [assumption|]). exact Hraw.
Defined.

Lemma redactAPIKey_overwrites_RawQuery_witness :
  urls (state_of secret_url EmptyString) !! 0%nat = Some secret_url
  ∧ ∃ σ',
      redactAPIKey (Some 0%nat) (state_of secret_url EmptyString) = Ok (Some 0%nat, σ')
      ∧ (∃ s, Error (λ _, false) (ErrorResponse.mk (Some (response 400 ∅)) "nope")
                (state_of secret_url EmptyString) = Ok (s, σ'))
      ∧ bodies σ' = bodies (state_of secret_url EmptyString).
Proof.
  assert (urls (state_of secret_url EmptyString) !! 0%nat = Some secret_url) as H1
    by reflexivity.
  split; [exact H1|].
  destruct (redactAPIKey_overwrites_RawQuery (λ _, false) _ _ _
              (ErrorResponse.mk (Some (response 400 ∅)) "nope") _ _
              H1 eq_refl eq_refl eq_refl)
    as (σ' & Hrun & Herr & _ & _ & Hb & _).
  exists σ'. split; [exact Hrun|]. split; [exact Herr|exact Hb].
Defined.

Lemma Error_renders_witness :
  urls (state_of secret_url EmptyString) !! 0%nat = Some secret_url
  ∧ ∃ σ', Error (λ _, false)
            (ErrorResponse.mk (Some (response 400 ∅)) "Nope Nope Nope")
            (state_of secret_url EmptyString)
          = Ok ("GET https://service/api/pypi/poyo?api_key=REDACTED: 400 "
                  +:+ quoted "Nope Nope Nope", σ').
Proof.
  assert (urls (state_of secret_url EmptyString) !! 0%nat = Some secret_url) as H1
    by reflexivity.
  split; [exact H1|].
  destruct (Error_renders (λ _, false)
              (ErrorResponse.mk (Some (response 400 ∅)) "Nope Nope Nope")
              (state_of secret_url EmptyString)) as (_ & _ & Hspec & _).
  exact Hspec.
Defined.

Lemma CheckResponse_twice_witness :
  bodies (state_of secret_url nope_body) !! 0%nat = Some (stream nope_body)
  ∧ engine.object_in_Response (unread (stream nope_body)) = false
  ∧ ∃ e1 σ1 e2 σ2,
      CheckResponse (Some (response 400 ∅)) (state_of secret_url nope_body) = Ok (e1, σ1)
      ∧ CheckResponse (Some (response 400 ∅)) σ1 = Ok (e2, σ2)
      ∧ e2 = Some (ErrorResponse.mk (Some (response 400 ∅)) EmptyString).
Proof.
  assert (bodies (state_of secret_url nope_body) !! 0%nat = Some (stream nope_body)) as H1
    by reflexivity.
  assert (engine.object_in_Response (unread (stream nope_body)) = false) as H2
    by (vm_compute; reflexivity).
  split; [exact H1|]. split; [exact H2|].
  destruct (CheckResponse_twice (response 400 ∅) (state_of secret_url nope_body) 0%nat
              (stream nope_body) eq_refl H1)
    as (e1 & σ1 & e2 & σ2 & Hfirst & Hsecond & _ & Hf & _).
  { rewrite H2. reflexivity. }
  exists e1, σ1, e2, σ2. split; [exact Hfirst|]. split; [exact Hsecond|].
  exact (proj1 (Hf eq_refl)).
Defined.

Lemma CheckResponse_classifies_witness :
  Response.Body (response 400 ∅) = Some 0%nat
  ∧ bodies (state_of secret_url nope_body) !! 0%nat = Some (stream nope_body)
  ∧ reaches_Response (unread (stream nope_body)) = false
  ∧ ∃ σ', CheckResponse (Some (response 400 ∅)) (state_of secret_url nope_body)
          = Ok (Some (ErrorResponse.mk (Some (response 400 ∅))
                        (if readable (stream nope_body)
                         then message_of (unread (stream nope_body)) else EmptyString)), σ').
Proof.
  assert (bodies (state_of secret_url nope_body) !! 0%nat = Some (stream nope_body)) as H2
    by reflexivity.
  assert (reaches_Response (unread (stream nope_body)) = false) as H3
    by (vm_compute; reflexivity).
  split; [reflexivity|]. split; [exact H2|]. split; [exact H3|].
  destruct (CheckResponse_classifies (response 400 ∅) _ _ _ eq_refl H2 H3)
    as (_ & _ & Hf & _).
  exact (Hf eq_refl).
Defined.

Lemma NewRequest_resolves_and_authorises_witness :
  ∃ base req σ',
    BaseURL client = Some base
    ∧ NewRequest Parse ResolveReference (H := Marshal_bool) client "GET"
        "pypi/cookiecutter?api_key=mine" None (mkState ∅ ∅ [])
      = Ok (inl req, σ')
    ∧ ∃ l final,
        Request.URL req = Some l ∧ urls σ' !! l = Some final
        ∧ Values.Get (URL.Query final) "api_key" = apiKey client.
Proof.
  assert (∃ base, BaseURL client = Some base) as [base Hbase]
    by (vm_compute; eexists; reflexivity).
  assert (∃ req σ',
            NewRequest Parse ResolveReference (H := Marshal_bool) client "GET"
              "pypi/cookiecutter?api_key=mine" None (mkState ∅ ∅ [])
            = Ok (inl req, σ')) as (req & σ' & HNew)
    by (vm_compute; eexists _, _; reflexivity).
  exists base, req, σ'. split; [exact Hbase|]. split; [exact HNew|].
  destruct (proj1 (NewRequest_resolves_and_authorises _ _ _ _ _ _ _ _ _ _) Hbase HNew)
    as (relativeURL & u & l & final & _ & _ & Hl & Hfinal & _ & _ & _ & _ & _ & _ & _ & _
          & _ & Hget & _).
  exists l, final. split; [exact Hl|]. split; [exact Hfinal|exact Hget].
Defined.

Lemma NewRequest_body_and_headers_witness :
  ∃ req σ',
    NewRequest Parse ResolveReference (H := Marshal_bool) client "POST"
      "pypi/cookiecutter" (Some true) (mkState ∅ ∅ [])
    = Ok (inl req, σ')
    ∧ Header_Get (Request.Header req) "Accept" = "application/json"
    ∧ Header_Get (Request.Header req) "Content-Type" = "application/json".
Proof.
  assert (∃ req σ',
            NewRequest Parse ResolveReference (H := Marshal_bool) client "POST"
              "pypi/cookiecutter" (Some true) (mkState ∅ ∅ [])
            = Ok (inl req, σ')) as (req & σ' & HNew)
    by (vm_compute; eexists _, _; reflexivity).
  exists req, σ'. split; [exact HNew|].
  destruct (NewRequest_body_and_headers _ _ _ _ _ _ _ _ _ HNew)
    as (Ha & _ & bytes & l & _ & _ & _ & _ & Hc).
  split; [exact Ha|exact Hc].
Defined.

Lemma Do_nil_response_after_success_witness :
  success 200 = true
  ∧ ∃ σ',
      Do Parse (H := Unmarshal_bool) [Received 200 ∅ (stream "{}")] client request
        (Some false) (state_of secret_url EmptyString)
      = Ok ((None, Some (Err (errors.json_error json.UnmarshalTypeError)), Some false), σ').
Proof.
  split; [reflexivity|].
  destruct (Do_nil_response_after_success Parse (H := Unmarshal_bool) [] client request
              (Some false) 200 ∅ (stream "{}") (state_of secret_url EmptyString))
    as [Hs _].
  destruct (Hs eq_refl) as (r & σ' & HDo & _ & Hdecode).
  exists σ'. rewrite HDo. f_equal. f_equal.
  apply (Hdecode false false); [reflexivity|reflexivity|vm_compute; reflexivity].
Defined.

End worked_examples.

(** C8, at the failing input.  A GET request of a client with [Retry] set is
    answered with status 429 and the reset-time header 9223372036.  The
    header is a number, yet [Do] does not wait 9223372037 seconds: the
    product with [time.Second] wraps around to a negative duration, with
    which [time.Sleep] returns at once, and the request is sent again. *)
Lemma Do_pause_overflows :
  strconv.Atoi "9223372036" = inl 9223372036
  ∧ spec.pause 9223372036 = -9223372036709551616
  ∧ ∃ r σ',
      librariesio.Do examples.Parse (H := examples.Unmarshal_bool)
        [librariesio.Received 429 (examples.reset_header "9223372036") (examples.stream EmptyString);
         librariesio.Received 200 ∅ (examples.stream "true")]
        examples.retrying_client examples.request (Some false)
        (examples.state_of examples.secret_url EmptyString)
      = Ok (r, σ')
      ∧ trace σ' = [Sent examples.request; Slept (-9223372036709551616); Sent examples.request].
Proof.
  split; [vm_compute; reflexivity|]. split; [vm_compute; reflexivity|].
  vm_compute. eexists _, _. split; reflexivity.
Qed.

(** ** The engine, the builder and the project calls on concrete inputs *)

Section more_examples.

Import http librariesio spec engine project examples.

Lemma Do_keeps_the_URLs_witness :
  settles client "GET" [Received 400 ∅ (stream nope_body)] = true
  ∧ ∃ r σ',
      Do Parse (H := Unmarshal_bool) [Received 400 ∅ (stream nope_body)] client request None
        (state_of secret_url EmptyString) = Ok (r, σ')
      ∧ urls σ' !! 0%nat = Some secret_url.
Proof.
  assert (settles client "GET" [Received 400 ∅ (stream nope_body)] = true) as Hnet
    by (vm_compute; reflexivity).
  split; [exact Hnet|].
  destruct (Do_keeps_the_URLs Parse (H := Unmarshal_bool) _ client request None
              (state_of secret_url EmptyString) Hnet) as (r & σ' & HDo & Hu & _).
  exists r, σ'. split; [exact HDo|]. apply Hu. reflexivity.
Defined.

Lemma Do_closes_every_body_witness :
  settles client "GET" [Received 400 ∅ (stream nope_body)] = true
  ∧ ∃ resp err o σ',
      Do Parse (H := Unmarshal_bool) [Received 400 ∅ (stream nope_body)] client request None
        (state_of secret_url EmptyString) = Ok ((resp, err, o), σ')
      ∧ ∀ l b, bodies (state_of secret_url EmptyString) !! l = None →
               bodies σ' !! l = Some b → closed b = true.
Proof.
  assert (settles client "GET" [Received 400 ∅ (stream nope_body)] = true) as Hnet
    by (vm_compute; reflexivity).
  split; [exact Hnet|].
  destruct (Do_closes_every_body Parse (H := Unmarshal_bool) _ client request None
              (state_of secret_url EmptyString) Hnet)
    as (resp & err & o & σ' & HDo & Hnew & _).
  exists resp, err, o, σ'. split; [exact HDo|exact Hnew].
Defined.

Lemma Do_result_shape_witness :
  settles client "GET" [Received 200 ∅ (stream "true")] = true
  ∧ ∃ resp err o σ',
      Do Parse (H := Unmarshal_bool) [Received 200 ∅ (stream "true")] client request
        (Some false) (state_of secret_url EmptyString) = Ok ((resp, err, o), σ')
      ∧ (err = None → ∃ r, resp = Some r ∧ success (Response.StatusCode r) = true)
      ∧ is_Some o.
Proof.
  assert (settles client "GET" [Received 200 ∅ (stream "true")] = true) as Hnet
    by (vm_compute; reflexivity).
  split; [exact Hnet|].
  destruct (Do_result_shape Parse (H := Unmarshal_bool) _ client request (Some false)
              (state_of secret_url EmptyString) Hnet)
    as (resp & err & o & σ' & HDo & Herr & _ & Ho).
  exists resp, err, o, σ'. split; [exact HDo|]. split; [exact Herr|]. apply Ho. by eexists.
Defined.

Lemma Do_sends_once_witness :
  Retry client = false
  ∧ plain (Received 429 (reset_header "2") (stream EmptyString)) = true
  ∧ ∃ r σ',
      Do Parse (H := Unmarshal_bool) [Received 429 (reset_header "2") (stream EmptyString)]
        client request None (state_of secret_url EmptyString) = Ok (r, σ')
      ∧ trace σ' = [Sent request].
Proof.
  assert (plain (Received 429 (reset_header "2") (stream EmptyString)) = true) as Hx
    by (vm_compute; reflexivity).
  destruct (Do_sends_once Parse (H := Unmarshal_bool) "1234"
              (Received 429 (reset_header "2") (stream EmptyString)) []
              client request None (state_of secret_url EmptyString)) as [Hoff Honce].
  split; [exact Hoff|]. split; [exact Hx|].
  exact (Honce (or_introl Hoff) Hx).
Defined.

Lemma Do_retries_unbounded_witness :
  strconv.Atoi (Header_Get (reset_header "2") "X-RateLimit-Reset") = inl 2
  ∧ ∃ r σ',
      Do Parse (H := Unmarshal_bool)
        (replicate 3 (Received 429 (reset_header "2") (stream EmptyString))
           ++ [Received 200 ∅ (stream "true")])
        retrying_client request (Some false) (state_of secret_url EmptyString) = Ok (r, σ')
      ∧ trace σ' = attempts 3 request (pause 2) ++ [Sent request].
Proof.
  assert (strconv.Atoi (Header_Get (reset_header "2") "X-RateLimit-Reset") = inl 2) as Hatoi
    by (vm_compute; reflexivity).
  split; [exact Hatoi|].
  exact (Do_retries_unbounded Parse (H := Unmarshal_bool) 3 retrying_client request
           (Some false) (reset_header "2") ∅ (stream EmptyString) (stream "true") 200 2
           (state_of secret_url EmptyString) eq_refl eq_refl Hatoi eq_refl eq_refl).
Defined.

Lemma Do_loads_the_body_witness :
  read_error (stream "true") = None
  ∧ ∃ σ',
      Do Parse (H := Unmarshal_bool) [Received 200 ∅ (stream "true")] client request
        (Some false) (state_of secret_url EmptyString)
      = Ok ((Some (received_response (state_of secret_url EmptyString) 200 ∅ request),
             None, Some true), σ')
      ∧ trace σ' = [Sent request].
Proof.
  split; [reflexivity|].
  destruct (Do_loads_the_body Parse (H := Unmarshal_bool) [] client request (Some false)
              200 ∅ (stream "true") (state_of secret_url EmptyString) eq_refl eq_refl)
    as (σ' & b' & HDo & Ht & _).
  exists σ'. split; [|exact Ht]. rewrite HDo.
  assert (Unmarshal (Unmarshaler := Unmarshal_bool) (unread (stream "true")) false
          = (true, None)) as ->
    by (vm_compute; reflexivity).
  reflexivity.
Defined.

Lemma Do_retry_policy_witness :
  success 429 = false
  ∧ negb (readable (stream EmptyString))
    || negb (object_in_Response (unread (stream EmptyString))) = true
  ∧ ∃ e σ',
      Do Parse (H := Unmarshal_bool)
        [Received 429 (reset_header "x") (stream EmptyString)]
        retrying_client request None (state_of secret_url EmptyString)
      = Ok ((Some (received_response (state_of secret_url EmptyString) 429
                     (reset_header "x") request),
             Some (Err (errors.NumError "Atoi" "x" e)), None), σ')
      ∧ trace σ' = [Sent request].
Proof.
  assert (negb (readable (stream EmptyString))
          || negb (object_in_Response (unread (stream EmptyString))) = true) as Hplain
    by (vm_compute; reflexivity).
  split; [reflexivity|]. split; [exact Hplain|].
  destruct (Do_retry_policy Parse (H := Unmarshal_bool) [] retrying_client request None
              429 (reset_header "x") (stream EmptyString) (state_of secret_url EmptyString)
              eq_refl Hplain) as (errResp & σ2 & _ & _ & Hnum & _).
  assert (∃ e, strconv.Atoi
                 (reset (received_response (state_of secret_url EmptyString) 429
                           (reset_header "x") request)) = inr e) as [e He]
    by (vm_compute; eexists; reflexivity).
  assert (eligible retrying_client
            (received_response (state_of secret_url EmptyString) 429 (reset_header "x")
               request) request = true) as Hel by (vm_compute; reflexivity).
  destruct (Hnum e Hel He) as (σ' & Ht & HDo).
  exists e, σ'. split; [|exact Ht].
  rewrite (HDo []).
  assert (reset (received_response (state_of secret_url EmptyString) 429
                   (reset_header "x") request) = "x") as -> by (vm_compute; reflexivity).
  reflexivity.
Defined.

Lemma CheckResponse_touches_only_the_body_witness :
  bodies (state_of secret_url nope_body) !! 0%nat = Some (stream nope_body)
  ∧ object_in_Response (unread (stream nope_body)) = false
  ∧ ∃ e σ',
      CheckResponse (Some (response 400 ∅)) (state_of secret_url nope_body) = Ok (e, σ')
      ∧ urls σ' = urls (state_of secret_url nope_body)
      ∧ trace σ' = [].
Proof.
  assert (bodies (state_of secret_url nope_body) !! 0%nat = Some (stream nope_body)) as H1
    by reflexivity.
  assert (object_in_Response (unread (stream nope_body)) = false) as H2
    by (vm_compute; reflexivity).
  split; [exact H1|]. split; [exact H2|].
  destruct (CheckResponse_touches_only_the_body (response 400 ∅)
              (state_of secret_url nope_body)) as (e & σ' & Hc & Hu & Ht & _).
  { right. exists 0%nat, (stream nope_body). split; [reflexivity|]. split; [exact H1|].
    rewrite H2. reflexivity. }
  exists e, σ'. split; [exact Hc|]. split; [exact Hu|exact Ht].
Defined.

Lemma CheckResponse_decodes_Response_witness :
  json.parse (unread (stream null_body)) = Some (json.Object [("Response", json.Null)])
  ∧ (∃ σ',
       CheckResponse (Some (response 400 ∅)) (state_of secret_url null_body)
       = Ok (Some (ErrorResponse.mk None EmptyString), σ'))
  ∧ ∀ σ'', Error (λ _, false) (ErrorResponse.mk None EmptyString) σ'' = Panic.
Proof.
  assert (json.parse (unread (stream null_body))
          = Some (json.Object [("Response", json.Null)])) as Hparse
    by (vm_compute; reflexivity).
  split; [exact Hparse|].
  destruct (CheckResponse_decodes_Response (λ _, false) (response 400 ∅)
              (state_of secret_url null_body) 0%nat (stream null_body)
              [("Response", json.Null)] eq_refl eq_refl eq_refl eq_refl Hparse eq_refl)
    as (Hc & _ & Hpanic).
  split; [eexists; exact Hc|]. exact (Hpanic eq_refl).
Defined.

Lemma NewRequest_errors_witness :
  ∃ base,
    BaseURL client = Some base
    ∧ NewRequest Parse ResolveReference (H := Marshal_bool) client "GET" ":" None
        (mkState ∅ ∅ [])
      = Ok (inr (errors.New "missing protocol scheme"), mkState ∅ ∅ []).
Proof.
  assert (∃ base, BaseURL client = Some base) as [base Hbase]
    by (vm_compute; eexists; reflexivity).
  exists base. split; [exact Hbase|].
  destruct (NewRequest_errors Parse ResolveReference (H := Marshal_bool) client "GET" ":"
              None (mkState ∅ ∅ []) base Hbase) as (_ & Hbad & _).
  apply Hbad. vm_compute. reflexivity.
Defined.

Lemma NewRequest_owns_its_URL_witness :
  ∃ req σ',
    NewRequest Parse ResolveReference (H := Marshal_bool) client "GET"
      "pypi/cookiecutter" None (state_of secret_url EmptyString)
    = Ok (inl req, σ')
    ∧ urls σ' !! 0%nat = Some secret_url
    ∧ Request.Header req !! "Authorization" = None.
Proof.
  assert (∃ req σ',
            NewRequest Parse ResolveReference (H := Marshal_bool) client "GET"
              "pypi/cookiecutter" None (state_of secret_url EmptyString)
            = Ok (inl req, σ')) as (req & σ' & HNew)
    by (vm_compute; eexists _, _; reflexivity).
  exists req, σ'. split; [exact HNew|].
  destruct (NewRequest_owns_its_URL _ _ _ _ _ _ _ _ _ HNew) as (_ & Hu & _ & _ & _ & Hh).
  split; [apply Hu; reflexivity|]. apply Hh; discriminate.
Defined.

Lemma NewRequest_body_is_JSON_witness :
  ∃ req σ',
    NewRequest Parse ResolveReference (H := Marshal_bool) client "POST"
      "pypi/cookiecutter" (Some true) (mkState ∅ ∅ [])
    = Ok (inl req, σ')
    ∧ json.parse "true" = Some (json.Bool true)
    ∧ ∃ l b, Request.Body req = Some l ∧ bodies σ' !! l = Some b
             ∧ json.parse (unread b) = Some (json.Bool true).
Proof.
  assert (∃ req σ',
            NewRequest Parse ResolveReference (H := Marshal_bool) client "POST"
              "pypi/cookiecutter" (Some true) (mkState ∅ ∅ [])
            = Ok (inl req, σ')) as (req & σ' & HNew)
    by (vm_compute; eexists _, _; reflexivity).
  assert (json.parse "true" = Some (json.Bool true)) as Hv by (vm_compute; reflexivity).
  exists req, σ'. split; [exact HNew|]. split; [exact Hv|].
  destruct (NewRequest_body_is_JSON _ _ _ _ _ _ _ _ _ "true" _ HNew eq_refl Hv)
    as (l & b & Hbody & Hl & _ & Hparse & _).
  by exists l, b.
Defined.

Lemma Project_fetches_witness :
  settles client "GET" [Received 200 ∅ (stream "true")] = true
  ∧ ∃ base,
      BaseURL client = Some base
      ∧ ∃ p resp err σ',
          Project Parse ResolveReference (H := Unmarshal_bool) false
            [Received 200 ∅ (stream "true")] client "pypi" "cookiecutter" (mkState ∅ ∅ [])
          = Ok ((p, resp, err), σ')
          ∧ (is_Some p ↔ err = None).
Proof.
  assert (settles client "GET" [Received 200 ∅ (stream "true")] = true) as Hnet
    by (vm_compute; reflexivity).
  assert (∃ base, BaseURL client = Some base) as [base Hbase]
    by (vm_compute; eexists; reflexivity).
  split; [exact Hnet|]. exists base. split; [exact Hbase|].
  destruct (Project_fetches Parse ResolveReference (H := Unmarshal_bool) false
              [Received 200 ∅ (stream "true")] client "pypi" "cookiecutter"
              (mkState ∅ ∅ []) base Hbase Hnet) as (p & resp & err & σ' & Hrun & Hp & _).
  exists p, resp, err, σ'. split; [exact Hrun|exact Hp].
Defined.

Lemma ProjectDeps_fetches_witness :
  settles client "GET" [Received 404 ∅ (stream not_found_body)] = true
  ∧ ∃ base,
      BaseURL client = Some base
      ∧ ∃ p resp err σ',
          ProjectDeps Parse ResolveReference (H := Unmarshal_bool) false
            [Received 404 ∅ (stream not_found_body)] client "pypi" "cookiecutter" "latest"
            (mkState ∅ ∅ [])
          = Ok ((p, resp, err), σ')
          ∧ (is_Some p ↔ err = None).
Proof.
  assert (settles client "GET" [Received 404 ∅ (stream not_found_body)] = true) as Hnet
    by (vm_compute; reflexivity).
  assert (∃ base, BaseURL client = Some base) as [base Hbase]
    by (vm_compute; eexists; reflexivity).
  split; [exact Hnet|]. exists base. split; [exact Hbase|].
  destruct (ProjectDeps_fetches Parse ResolveReference (H := Unmarshal_bool) false
              [Received 404 ∅ (stream not_found_body)] client "pypi" "cookiecutter" "latest"
              (mkState ∅ ∅ []) base Hbase Hnet) as (p & resp & err & σ' & Hrun & Hp & _).
  exists p, resp, err, σ'. split; [exact Hrun|exact Hp].
Defined.

Lemma Search_sends_the_query_witness :
  settles client "GET" [Received 200 ∅ (stream "true")] = true
  ∧ ∃ base,
      BaseURL client = Some base
      ∧ ∃ projects resp err σ',
          Search Parse ResolveReference (H0 := Unmarshal_bool) false
            [Received 200 ∅ (stream "true")] client "grpc & more" (mkState ∅ ∅ [])
          = Ok ((projects, resp, err), σ')
          ∧ (err = None → ∃ r, resp = Some r ∧ success (Response.StatusCode r) = true).
Proof.
  assert (settles client "GET" [Received 200 ∅ (stream "true")] = true) as Hnet
    by (vm_compute; reflexivity).
  assert (∃ base, BaseURL client = Some base) as [base Hbase]
    by (vm_compute; eexists; reflexivity).
  split; [exact Hnet|]. exists base. split; [exact Hbase|].
  destruct (Search_sends_the_query Parse ResolveReference (H0 := Unmarshal_bool) false
              [Received 200 ∅ (stream "true")] client "grpc & more" (mkState ∅ ∅ []) base
              Hbase Hnet) as (projects & resp & err & σ' & Hrun & _ & Herr & _).
  exists projects, resp, err, σ'. split; [exact Hrun|exact Herr].
Defined.

Lemma redactAPIKey_drops_malformed_witness :
  URL.RawQuery (URL.set_RawQuery "a=1&b=%zz&c;d=2&api_key=SECRET" secret_url)
  = join ["a=1"; "b=%zz"; "c;d=2"; "api_key=SECRET"]
  ∧ kept ["a=1"; "b=%zz"; "c;d=2"; "api_key=SECRET"] = ["a=1"; "api_key=SECRET"]
  ∧ ∃ σ' u',
      redactAPIKey (Some 0%nat)
        (state_of (URL.set_RawQuery "a=1&b=%zz&c;d=2&api_key=SECRET" secret_url) EmptyString)
      = Ok (Some 0%nat, σ')
      ∧ urls σ' !! 0%nat = Some u'
      ∧ URL.RawQuery u' = "a=1&api_key=REDACTED".
Proof.
  split; [reflexivity|]. split; [vm_compute; reflexivity|].
  destruct (redactAPIKey_drops_malformed
              (state_of (URL.set_RawQuery "a=1&b=%zz&c;d=2&api_key=SECRET" secret_url)
                 EmptyString)
              0%nat (URL.set_RawQuery "a=1&b=%zz&c;d=2&api_key=SECRET" secret_url)
              ["a=1"; "b=%zz"; "c;d=2"; "api_key=SECRET"] eq_refl eq_refl)
    as [Hrun _].
  { repeat constructor. }
  eexists _, _. split; [exact Hrun|]. split; [apply lookup_with_url|].
  vm_compute. reflexivity.
Defined.

End more_examples.
